(** * Email harvesting job: key rotation, profile fetcher, driver loops

    A shallow embedding of [GHES.py] and [cloud02.py].  Both scripts carry
    identical copies of [requests_retry_session], [extract_email] and the
    class [GitHubApiHandler]; they differ in [main] only (Google Sheets as
    source and sink in [GHES.py], a local CSV file in [cloud02.py]).

    Python values are modelled as follows.
    - [str] is a sequence of Unicode code points, [list N].
    - [int] is [Z].
    - Exceptions and mutation are threaded through a state-and-error monad
      whose state survives a raised exception, as in Python.
    - Everything outside the process (HTTP servers, the clock, the Sheets
      API, the file system, the Unicode character database) is a field of
      a record [World], whose answers may depend on the whole history of
      earlier interactions. *)

From Stdlib Require Import ZArith NArith List String Ascii Bool Lia.
Import ListNotations.

Set Implicit Arguments.
Set Warnings "-register-all".

(** ** Python strings *)

Definition pystr := list N.

Definition chr (a : ascii) : N := N_of_ascii a.

(** [u "text"] is the Python string with the given ASCII characters. *)
Definition u (s : string) : pystr := map N_of_ascii (list_ascii_of_string s).

Fixpoint pystr_eqb (a b : pystr) : bool :=
  match a, b with
  | [], [] => true
  | x :: a', y :: b' => N.eqb x y && pystr_eqb a' b'
  | _, _ => false
  end.

(** [prev_after prev s] is the character that precedes the position reached
    after reading [s] from a position preceded by [prev]. *)
Fixpoint prev_after (prev : option N) (s : pystr) : option N :=
  match s with
  | [] => prev
  | c :: s' => prev_after (Some c) s'
  end.

Definition last_char (s : pystr) : option N := prev_after None s.

(** ** The fragment of [re] used by [extract_email] *)

Module Re.

Definition between (lo hi c : N) : bool := N.leb lo c && N.leb c hi.
Definition upper (c : N) : bool := between (chr "A") (chr "Z") c.
Definition lower (c : N) : bool := between (chr "a") (chr "z") c.
Definition digit (c : N) : bool := between (chr "0") (chr "9") c.

Definition one_of (cs : string) (c : N) : bool :=
  existsb (N.eqb c) (u cs).

(** [[A-Za-z0-9._%+-]] *)
Definition local_class (c : N) : bool :=
  upper c || lower c || digit c || one_of "._%+-" c.

(** [[A-Za-z0-9.-]] *)
Definition domain_class (c : N) : bool :=
  upper c || lower c || digit c || one_of ".-" c.

(** [[A-Z|a-z]]: inside brackets the bar is an ordinary member. *)
Definition tld_class (c : N) : bool :=
  upper c || one_of "|" c || lower c.

Inductive item : Type :=
| Boundary                              (* \b *)
| Lit (c : N)                           (* a single literal character *)
| Rep (cls : N -> bool) (lo : nat)      (* [cls]{lo,}, greedy *)
| EndOfString.                          (* \Z, used by fullmatch *)

Section Matcher.

(** [str.isalnum] for the code points above 127, as the Unicode character
    database defines it.  For a [str] pattern, [\w] is [[A-Za-z0-9_]] plus
    every such character. *)
Variable unicode_alnum : N -> bool.

Definition is_word (c : N) : bool :=
  if N.ltb c 128 then upper c || lower c || digit c || one_of "_" c
  else unicode_alnum c.

Definition word_before (prev : option N) : bool :=
  match prev with
  | Some c => is_word c
  | None => false
  end.

Definition word_after (rest : pystr) : bool :=
  match rest with
  | c :: _ => is_word c
  | [] => false
  end.

(** [\b] holds between a word character and a non-word character, the
    outside of the string counting as non-word. *)
Definition at_boundary (prev : option N) (rest : pystr) : bool :=
  xorb (word_before prev) (word_after rest).

(** Greedy repetition of a character class: take one more character first,
    and only when the rest of the pattern fails after that, stop here. *)
Fixpoint rep (cls : N -> bool) (lo : nat)
    (cont : option N -> pystr -> option pystr)
    (prev : option N) (rest : pystr) : option pystr :=
  let stop := match lo with O => cont prev rest | S _ => None end in
  match rest with
  | c :: rest' =>
      if cls c then
        match rep cls (Nat.pred lo) cont (Some c) rest' with
        | Some m => Some (c :: m)
        | None => stop
        end
      else stop
  | [] => stop
  end.

(** [match_items its prev rest] matches the pattern [its] at the position
    whose left context ends in [prev] and whose right context is [rest];
    it returns the matched text of the first successful backtracking
    branch. *)
Fixpoint match_items (its : list item) (prev : option N) (rest : pystr)
    : option pystr :=
  match its with
  | [] => Some []
  | Boundary :: its' =>
      if at_boundary prev rest then match_items its' prev rest else None
  | Lit a :: its' =>
      match rest with
      | c :: rest' =>
          if N.eqb c a then
            match match_items its' (Some c) rest' with
            | Some m => Some (c :: m)
            | None => None
            end
          else None
      | [] => None
      end
  | Rep cls lo :: its' => rep cls lo (match_items its') prev rest
  | EndOfString :: its' =>
      match rest with
      | [] => match_items its' prev rest
      | _ :: _ => None
      end
  end.

(** [re.search]: the match at the leftmost position that has one. *)
Fixpoint search (its : list item) (prev : option N) (rest : pystr)
    : option pystr :=
  match match_items its prev rest with
  | Some m => Some m
  | None =>
      match rest with
      | c :: rest' => search its (Some c) rest'
      | [] => None
      end
  end.

(** [re.findall] for a pattern without groups: the non-overlapping matches
    from left to right.  [skip] counts the characters of the last match
    that are still to be passed over. *)
Fixpoint findall_from (its : list item) (skip : nat) (prev : option N)
    (rest : pystr) : list pystr :=
  match rest with
  | c :: rest' =>
      match skip with
      | S k => findall_from its k (Some c) rest'
      | O =>
          match match_items its prev rest with
          | Some m => m :: findall_from its (Nat.pred (List.length m)) (Some c) rest'
          | None => findall_from its 0 (Some c) rest'
          end
      end
  | [] =>
      match skip with
      | S _ => []
      | O =>
          match match_items its prev [] with
          | Some m => [m]
          | None => []
          end
      end
  end.

Definition findall (its : list item) (text : pystr) : list pystr :=
  findall_from its 0 None text.

(** [re.fullmatch]: a match at the start that ends at the end. *)
Definition fullmatch (its : list item) (text : pystr) : option pystr :=
  match_items (its ++ [EndOfString]) None text.

End Matcher.
End Re.

(** [str.strip(chars)] *)
Fixpoint lstrip (chars : N -> bool) (s : pystr) : pystr :=
  match s with
  | c :: s' => if chars c then lstrip chars s' else s
  | [] => []
  end.

Definition strip (chars : N -> bool) (s : pystr) : pystr :=
  rev (lstrip chars (rev (lstrip chars s))).

(** ** [extract_email] *)

(** [r'\b[A-Za-z0-9._%+-]+@[A-Za-z0-9.-]+\.[A-Z|a-z]{2,}\b'] *)
Definition pattern : list Re.item :=
  [ Re.Boundary; Re.Rep Re.local_class 1; Re.Lit (chr "@");
    Re.Rep Re.domain_class 1; Re.Lit (chr ".");
    Re.Rep Re.tld_class 2; Re.Boundary ].

(** The argument of [strip]: double quote, angle brackets, square brackets
    and parentheses. *)
Definition strip_chars (c : N) : bool :=
  N.eqb c 34 || Re.one_of "<>[]()" c.

Definition extract_email (unicode_alnum : N -> bool) (text : pystr)
    : option pystr :=
  match Re.findall unicode_alnum pattern text with
  | m :: _ => Some (strip strip_chars m)
  | [] => None
  end.

(** A Unicode table in which no character above 127 is alphanumeric; on
    ASCII-only text every table gives the same answers. *)
Definition ascii_only (c : N) : bool := false.

(** One in which [U+00E9] (e with acute accent) is a letter. *)
Definition with_e_acute (c : N) : bool := N.eqb c 233.


(** ** Python values, exceptions, the outside world *)

Inductive pyval : Type :=
| PNone
| PBool (b : bool)
| PInt (z : Z)
| PStr (s : pystr)
| PList (l : list pyval)
| PDict (d : list (pystr * pyval)).

Inductive exn : Type :=
| IndexError | KeyError | TypeError | AttributeError | ZeroDivisionError
| ValueError | JSONDecodeError | ConnectionError | RetryError
| HttpError | OSError
| TooManyRedirects | InvalidHeader | InvalidURL | ChunkedEncodingError.

Record Response : Type := mkResponse {
  status_code : Z;
  text : pystr;
  json : option pyval;         (* [None]: the body is not JSON *)
  location : option pystr;     (* the [Location] header *)
  retry_after : bool           (* there is a [Retry-After] header *)
}.

(** What one attempt on the wire yields: no connection, no response, a
    response, or an exception that the client raises without retrying (a
    body that cannot be read, a [Retry-After] header that cannot be
    parsed). *)
Inductive attempt : Type :=
| ConnectFail
| ReadFail
| Answer (r : Response)
| Abort (e : exn).

Record Row : Type := mkRow {
  Username : pyval;
  User_ID : pyval;
  Profile_URL : pyval;
  Status : pyval;
  Email : pyval
}.

(** A table as the source delivers it; the two flags tell whether it has the
    columns ['Status'] and ['Email']. *)
Record Table : Type := mkTable {
  has_Status : bool;
  has_Email : bool;
  body : list Row
}.

Inductive client : Type := Resilient | Bare.

Inductive sheets_op : Type :=
| OpCredentials
| OpGetSpreadsheet
| OpAddSheet (title : pystr)
| OpSetHeader (title : pystr) (header : list pystr)
| OpGetColumnA (title : pystr)
| OpWriteRow (title : pystr) (next_row : nat) (data : list (list pyval)).

Inductive level : Type := INFO | ERROR.

Inductive logmsg : Type :=
| LRemaining (v : pyval)
| LSwitched (key_number : Z)
| LRateLimitHit
| LFetchFailed (who : pyval) (status : Z)
| LSheetMissing | LSheetCreated | LSheetExists | LSettingUp | LColumnsSet
| LSheetSetupError (e : exn)
| LNextRow | LAttemptWrite (next_row : nat) | LWriteResponse
| LWriteError (e : exn)
| LStarting | LReading | LNoData | LMaxRuntime
| LProcessing (username url : pyval)
| LAppended (username email : pyval)
| LNoEmail (username : pyval)
| LRowError (url : pyval) (e : exn)
| LComplete
| LMainError (e : exn).

Inductive event : Type :=
| EGet (c : client) (url auth : pystr)   (* a GET handed to a client *)
| EAttempt (url auth : pystr)            (* one attempt on the wire *)
| ESleep (seconds : Z)                   (* time.sleep *)
| EClock                                 (* datetime.now *)
| ELog (l : level) (m : logmsg)
| ESheets (op : sheets_op)               (* a Sheets API call *)
| EReadInput                             (* loading the input table *)
| EToCsv (rows : list Row).              (* DataFrame.to_csv *)

Definition history := list event.

(** The environment.  Every answer may depend on everything that happened
    before it.  Times are in microseconds. *)
Record World : Type := mkWorld {
  unicode_alnum : N -> bool;
  (* the exception, if any, with which the HTTP client refuses a request
     for this URL with this [Authorization] value before it sends
     anything: a value or a URL that it finds invalid *)
  preflight : pystr -> pystr -> option exn;
  (* the outcome of an attempt for this URL with this [Authorization]
     value *)
  wire : history -> pystr -> pystr -> attempt;
  (* the request that follows a redirect of the request for this URL with
     this [Authorization] value to this [Location]: the URL that the
     location resolves to, and the [Authorization] value that the client
     keeps for it (the empty string when it drops the header) *)
  next_hop : pystr -> pystr -> pystr -> pystr * pystr;
  clock : history -> Z;
  getenv : pystr -> option pystr;
  sheets_credentials : history -> option exn;
  sheets_titles : history -> exn + list pystr;
  sheets_column_a : history -> pystr -> exn + nat;
  sheets_update : history -> sheets_op -> option exn;
  read_input : history -> exn + Table;
  csv_write : history -> list Row -> option exn
}.

(** ** The handler object *)

Record Handler : Type := mkHandler {
  api_keys : list pystr;
  current_key_index : Z;
  request_count : Z;
  max_requests_per_key : Z;
  failed_attempts : Z
}.

(** [GitHubApiHandler.__init__] *)
Definition init (keys : list pystr) : Handler :=
  {| api_keys := keys;
     current_key_index := 0;
     request_count := 0;
     max_requests_per_key := 3650;
     failed_attempts := 0 |}.

Definition set_current_key_index (i : Z) (h : Handler) : Handler :=
  {| api_keys := api_keys h;
     current_key_index := i;
     request_count := request_count h;
     max_requests_per_key := max_requests_per_key h;
     failed_attempts := failed_attempts h |}.

Definition set_request_count (n : Z) (h : Handler) : Handler :=
  {| api_keys := api_keys h;
     current_key_index := current_key_index h;
     request_count := n;
     max_requests_per_key := max_requests_per_key h;
     failed_attempts := failed_attempts h |}.

Definition set_failed_attempts (n : Z) (h : Handler) : Handler :=
  {| api_keys := api_keys h;
     current_key_index := current_key_index h;
     request_count := request_count h;
     max_requests_per_key := max_requests_per_key h;
     failed_attempts := n |}.

(** ** State and errors *)

Record St : Type := mkSt {
  handler : Handler;        (* github_api_handler *)
  df : list Row;            (* input_df *)
  trace : history
}.

Inductive res (A : Type) : Type :=
| Ok (a : A)
| Raise (e : exn).
Arguments Raise {A} e.

Definition M (A : Type) : Type := St -> res A * St.

Definition ret {A} (a : A) : M A := fun s => (Ok a, s).

Definition raise {A} (e : exn) : M A := fun s => (Raise e, s).

Definition bind {A B} (m : M A) (f : A -> M B) : M B :=
  fun s =>
    match m s with
    | (Ok a, s') => f a s'
    | (Raise e, s') => (Raise e, s')
    end.

(** [try: m  except Exception as e: h e] *)
Definition try_except {A} (m : M A) (h : exn -> M A) : M A :=
  fun s =>
    match m s with
    | (Ok a, s') => (Ok a, s')
    | (Raise e, s') => h e s'
    end.

Declare Scope py_scope.
Delimit Scope py_scope with py.
Notation "x <- m ;; k" := (bind m (fun x => k))
  (at level 61, m at next level, right associativity) : py_scope.
Notation "m ;; k" := (bind m (fun _ => k))
  (at level 61, right associativity) : py_scope.
Local Open Scope py_scope.

Definition emit (e : event) : M unit :=
  fun s => (Ok tt, {| handler := handler s; df := df s;
                      trace := trace s ++ [e] |}).

Definition the_handler : M Handler := fun s => (Ok (handler s), s).

Definition update_handler (f : Handler -> Handler) : M unit :=
  fun s => (Ok tt, {| handler := f (handler s); df := df s;
                      trace := trace s |}).

Definition the_df : M (list Row) := fun s => (Ok (df s), s).

Definition update_df (f : list Row -> list Row) : M unit :=
  fun s => (Ok tt, {| handler := handler s; df := f (df s);
                      trace := trace s |}).

(** Ask the world a question whose answer depends on the history. *)
Definition observe {A} (q : history -> A) : M A :=
  fun s => (Ok (q (trace s)), s).

Definition log (l : level) (m : logmsg) : M unit := emit (ELog l m).

Definition sleep (seconds : Z) : M unit := emit (ESleep seconds).

(** ** Python operators used by the scripts *)

Definition truthy (v : pyval) : bool :=
  match v with
  | PNone => false
  | PBool b => b
  | PInt z => negb (Z.eqb z 0)
  | PStr s => match s with [] => false | _ :: _ => true end
  | PList l => match l with [] => false | _ :: _ => true end
  | PDict d => match d with [] => false | _ :: _ => true end
  end.

(** [v < n] for an [int] literal [n]; [bool] is a subtype of [int]. *)
Definition py_lt (v : pyval) (n : Z) : M bool :=
  match v with
  | PInt z => ret (Z.ltb z n)
  | PBool b => ret (Z.ltb (if b then 1 else 0) n)
  | _ => raise TypeError
  end.

Fixpoint lookup (key : pystr) (d : list (pystr * pyval)) : option pyval :=
  match d with
  | [] => None
  | (k, v) :: d' => if pystr_eqb k key then Some v else lookup key d'
  end.

(** [v[key]] for a [str] key *)
Definition py_getitem (v : pyval) (key : pystr) : M pyval :=
  match v with
  | PDict d => match lookup key d with
               | Some x => ret x
               | None => raise KeyError
               end
  | _ => raise TypeError
  end.

(** [v.get(key, default)] *)
Definition py_get (v : pyval) (key : pystr) (default : pyval) : M pyval :=
  match v with
  | PDict d => match lookup key d with
               | Some x => ret x
               | None => ret default
               end
  | _ => raise AttributeError
  end.

(** [keys[i]] on a list, negative indices counting from the end *)
Definition py_index (keys : list pystr) (i : Z) : M pystr :=
  let n := Z.of_nat (List.length keys) in
  let j := if Z.ltb i 0 then (i + n)%Z else i in
  if Z.leb 0 j && Z.ltb j n
  then ret (nth (Z.to_nat j) keys [])
  else raise IndexError.

(** [a % n] *)
Definition py_mod (a n : Z) : M Z :=
  if Z.eqb n 0 then raise ZeroDivisionError else ret (Z.modulo a n).

Fixpoint starts_with (prefix s : pystr) : bool :=
  match prefix, s with
  | [], _ => true
  | p :: prefix', c :: s' => N.eqb p c && starts_with prefix' s'
  | _ :: _, [] => false
  end.

(** [s.split(sep)] for a one-character separator *)
Fixpoint split (sep : N) (s : pystr) : list pystr :=
  match s with
  | [] => [[]]
  | c :: s' =>
      if N.eqb c sep then [] :: split sep s'
      else match split sep s' with
           | w :: ws => (c :: w) :: ws
           | [] => [[c]]
           end
  end.

(** [parts[-1]] *)
Definition last_part (parts : list pystr) : pystr := last parts [].

Definition py_of_option (o : option pystr) : pyval :=
  match o with
  | Some s => PStr s
  | None => PNone
  end.

Definition is_Done (v : pyval) : bool :=
  match v with
  | PStr s => pystr_eqb s (u "Done")
  | _ => false
  end.

(** ** The program *)

Definition rate_limit_url : pystr := u "https://api.github.com/rate_limit".

(** [f'https://api.github.com/users/{username}'] *)
Definition users_url (username : pystr) : pystr :=
  u "https://api.github.com/users/" ++ username.

(** [f'https://raw.githubusercontent.com/{username}/{username}/main/README.md'] *)
Definition readme_url (username : pystr) : pystr :=
  u "https://raw.githubusercontent.com/" ++ username ++ u "/" ++ username
  ++ u "/main/README.md".

(** The user name of a profile URL is its last path segment; anything else
    is taken to be a user name already. *)
Definition username_of (username_or_url : pystr) : pystr :=
  if starts_with (u "https://github.com/") username_or_url
  then last_part (split (chr "/") username_or_url)
  else username_or_url.

Section Program.

Variable W : World.

(** [datetime.now()] *)
Definition now : M Z := emit EClock ;; observe (clock W).

(** *** The HTTP client: [requests] on top of [urllib3] *)

(** [Retry.RETRY_AFTER_STATUS_CODES] *)
Definition retry_after_status_codes : list Z := [413; 429; 503]%Z.

(** [Retry.is_retry] for a GET when [total] retries are left: the status
    is on the forcelist, or it is 413, 429 or 503, the response has a
    [Retry-After] header and [total] is not 0. *)
Definition is_retry (total : nat) (forcelist : list Z) (r : Response)
    : bool :=
  existsb (Z.eqb (status_code r)) forcelist
  || (negb (Nat.eqb total 0) && retry_after r
      && existsb (Z.eqb (status_code r)) retry_after_status_codes).

(** [HTTPConnectionPool.urlopen] under
    [Retry(total=total, status_forcelist=forcelist)], for one URL: an
    attempt that fails to connect or to get a response, or whose response
    [is_retry], is repeated while [total] lasts.  When it is used up, a
    failure ends in [ConnectionError] and a status of the forcelist in
    [RetryError]; a response that was retried for its [Retry-After]
    header alone is returned.  (The pauses between attempts are not
    modelled.) *)
Fixpoint urlopen (total : nat) (forcelist : list Z) (url auth : pystr)
    : M Response :=
  emit (EAttempt url auth) ;;
  a <- observe (fun h => wire W h url auth) ;;
  match a with
  | Answer r =>
      if is_retry total forcelist r then
        match total with
        | S rest => urlopen rest forcelist url auth
        | O => raise RetryError
        end
      else ret r
  | ConnectFail | ReadFail =>
      match total with
      | S rest => urlopen rest forcelist url auth
      | O => raise ConnectionError
      end
  | Abort e => raise e
  end.

(** [requests.models.REDIRECT_STATI] *)
Definition redirect_stati : list Z := [301; 302; 303; 307; 308]%Z.

(** [Session.max_redirects] *)
Definition max_redirects : nat := 30.

(** [Session.get_redirect_target]: the [Location] header of a response
    with a redirect status; an empty one is not followed. *)
Definition get_redirect_target (r : Response) : option pystr :=
  if existsb (Z.eqb (status_code r)) redirect_stati then
    match location r with
    | Some (c :: l) => Some (c :: l)
    | _ => None
    end
  else None.

(** [Session.send] with [allow_redirects=True], [hops] redirects being
    left: the request is checked, sent through [urlopen], and a redirect
    is followed with a request that goes through [urlopen] anew, with the
    whole of [total] again.  The response to the last request is the
    result; a redirect beyond the limit raises [TooManyRedirects]. *)
Fixpoint resolve_redirects (hops total : nat) (forcelist : list Z)
    (url auth : pystr) : M Response :=
  match preflight W url auth with
  | Some e => raise e
  | None =>
      r <- urlopen total forcelist url auth ;;
      match get_redirect_target r with
      | None => ret r
      | Some target =>
          match hops with
          | S rest =>
              let next := next_hop W url auth target in
              resolve_redirects rest total forcelist (fst next) (snd next)
          | O => raise TooManyRedirects
          end
      end
  end.

(** A GET through a session whose adapter retries [budget] times. *)
Definition send (budget : nat) (forcelist : list Z) (url auth : pystr)
    : M Response :=
  resolve_redirects max_redirects budget forcelist url auth.

(** *** [requests_retry_session] *)

Definition retries : nat := 3.
Definition status_forcelist : list Z := [500; 502; 504]%Z.

(** [requests_retry_session().get(url, headers=headers)] *)
Definition requests_retry_session_get (url auth : pystr) : M Response :=
  emit (EGet Resilient url auth) ;;
  send retries status_forcelist url auth.

(** [requests.get(url, headers=headers)]: the default adapter, with
    [Retry(0, read=False)], which retries nothing. *)
Definition requests_get (url auth : pystr) : M Response :=
  emit (EGet Bare url auth) ;;
  send 0 [] url auth.

(** [response.json()] *)
Definition response_json (r : Response) : M pyval :=
  match json r with
  | Some v => ret v
  | None => raise JSONDecodeError
  end.

(** *** [GitHubApiHandler] *)

(** The value of the one header, [Authorization]. *)
Definition get_headers : M pystr :=
  self <- the_handler ;;
  key <- py_index (api_keys self) (current_key_index self) ;;
  ret (u "token " ++ key).

Definition get_remaining_requests : M pyval :=
  headers <- get_headers ;;
  let url := rate_limit_url in
  response <- requests_retry_session_get url headers ;;
  if Z.eqb (status_code response) 200 then
    rate_limit_data <- response_json response ;;
    rate <- py_getitem rate_limit_data (u "rate") ;;
    remaining <- py_getitem rate (u "remaining") ;;
    ret remaining
  else ret (PInt 0).

Definition check_and_switch_key : M unit :=
  remaining_requests <- get_remaining_requests ;;
  log INFO (LRemaining remaining_requests) ;;
  low <- py_lt remaining_requests 10 ;;
  if low then
    self <- the_handler ;;
    next <- py_mod (current_key_index self + 1)
                   (Z.of_nat (List.length (api_keys self))) ;;
    update_handler (set_current_key_index next) ;;
    update_handler (set_request_count 0) ;;
    update_handler (fun h => set_failed_attempts (failed_attempts h + 1) h) ;;
    log INFO (LSwitched (next + 1)) ;;
    self <- the_handler ;;
    if Z.geb (failed_attempts self) 18 then
      log INFO LRateLimitHit ;;
      sleep 3900 ;;
      update_handler (set_failed_attempts 0)
    else ret tt
  else ret tt.

Definition get_email_from_readme (username headers : pystr) : M pyval :=
  let url := readme_url username in
  response <- requests_get url headers ;;
  if Z.eqb (status_code response) 200 then
    ret (py_of_option (extract_email (unicode_alnum W) (text response)))
  else ret PNone.

Definition get_user_info_from_github_api (username_or_url : pyval)
    : M pyval :=
  check_and_switch_key ;;
  headers <- get_headers ;;
  update_handler (fun h => set_request_count (request_count h + 1) h) ;;
  name <- match username_or_url with
          | PStr s => ret s
          | _ => raise AttributeError       (* no [startswith] *)
          end ;;
  let username := username_of name in
  let url := users_url username in
  response <- requests_retry_session_get url headers ;;
  if negb (Z.eqb (status_code response) 200) then
    log INFO (LFetchFailed username_or_url (status_code response)) ;;
    ret PNone
  else
    user_data <- response_json response ;;
    email <- py_get user_data (u "email") (PStr []) ;;
    if truthy email then ret email
    else get_email_from_readme username headers.

(** *** The driver loops *)

(** [timedelta(hours=5, minutes=50)] *)
Definition max_runtime : Z := (5 * 3600 + 50 * 60) * 1000000.

(** [input_df.at[index, column] = value], for an [index] that the table
    has: the loops only use the labels that [iterrows] hands out. *)
Fixpoint at_index (index : nat) (f : Row -> Row) (rows : list Row)
    : list Row :=
  match rows, index with
  | [], _ => []
  | r :: rows', O => f r :: rows'
  | r :: rows', S i => r :: at_index i f rows'
  end.

Definition set_Email (v : pyval) (r : Row) : Row :=
  {| Username := Username r; User_ID := User_ID r;
     Profile_URL := Profile_URL r; Status := Status r; Email := v |}.

Definition set_Status (v : pyval) (r : Row) : Row :=
  {| Username := Username r; User_ID := User_ID r;
     Profile_URL := Profile_URL r; Status := v; Email := Email r |}.

(** [input_df.iterrows()] *)
Definition iterrows (rows : list Row) : list (nat * Row) :=
  combine (seq 0 (List.length rows)) rows.

(** The two columns are added, filled with [''], when the table lacks
    them. *)
Definition add_missing_columns (t : Table) : list Row :=
  let rows := if has_Status t then body t
              else map (set_Status (PStr [])) (body t) in
  if has_Email t then rows else map (set_Email (PStr [])) rows.

(** How a pass over the rows ends: by running off the end of the table, or
    by the [return] of the runtime check. *)
Inductive ending : Type := Completed | Returned.

End Program.

(** *** [GHES.py]: Google Sheets as source and sink *)

Module GHES.
Section Main.

Variable W : World.

(** [except HttpError as e: h e]; any other exception passes through. *)
Definition except_HttpError {A} (m : M A) (h : exn -> M A) : M A :=
  try_except m (fun e => match e with
                         | HttpError => h e
                         | _ => raise e
                         end).

(** [Credentials.from_service_account_file] and [build] *)
Definition credentials : M unit :=
  emit (ESheets OpCredentials) ;;
  r <- observe (sheets_credentials W) ;;
  match r with
  | Some e => raise e
  | None => ret tt
  end.

(** A request of the Sheets API that returns nothing of interest. *)
Definition execute (op : sheets_op) : M unit :=
  emit (ESheets op) ;;
  r <- observe (fun h => sheets_update W h op) ;;
  match r with
  | Some e => raise e
  | None => ret tt
  end.

Definition column_headers : list pystr :=
  [u "Username"; u "User ID"; u "Profile URL"; u "Email"].

Definition ensure_sheet_and_setup_columns (sheet_name : pystr) : M unit :=
  credentials ;;
  except_HttpError
    (emit (ESheets OpGetSpreadsheet) ;;
     sheets_metadata <- observe (sheets_titles W) ;;
     sheet_titles <- match sheets_metadata with
                     | inl e => raise e
                     | inr titles => ret titles
                     end ;;
     (if existsb (pystr_eqb sheet_name) sheet_titles then
        log INFO LSheetExists
      else
        log INFO LSheetMissing ;;
        execute (OpAddSheet sheet_name) ;;
        log INFO LSheetCreated) ;;
     log INFO LSettingUp ;;
     execute (OpSetHeader sheet_name column_headers) ;;
     log INFO LColumnsSet)
    (fun e => log ERROR (LSheetSetupError e) ;; raise e).

Definition write_to_google_sheet (sheet_name : pystr)
    (data : list (list pyval)) : M unit :=
  credentials ;;
  ensure_sheet_and_setup_columns sheet_name ;;
  except_HttpError
    (log INFO LNextRow ;;
     emit (ESheets (OpGetColumnA sheet_name)) ;;
     result <- observe (fun h => sheets_column_a W h sheet_name) ;;
     populated <- match result with
                  | inl e => raise e
                  | inr n => ret n
                  end ;;
     let next_row := (populated + 1)%nat in
     log INFO (LAttemptWrite next_row) ;;
     execute (OpWriteRow sheet_name next_row data) ;;
     log INFO LWriteResponse)
    (fun e => log ERROR (LWriteError e) ;; raise e).

Definition read_google_sheet : M Table :=
  emit EReadInput ;;
  r <- observe (read_input W) ;;
  match r with
  | inl e => raise e
  | inr t => ret t
  end.

Definition sheet_name : pystr := u "Sheet2".

(** The body of the [try] statement of the loop. *)
Definition row_body (index : nat) (row : Row) : M unit :=
  email <- get_user_info_from_github_api W (Profile_URL row) ;;
  if truthy email then
    update_df (at_index index (set_Email email)) ;;
    update_df (at_index index (set_Status (PStr (u "Done")))) ;;
    log INFO (LAppended (Username row) email) ;;
    write_to_google_sheet sheet_name
      [[Username row; User_ID row; Profile_URL row; email]]
  else log INFO (LNoEmail (Username row)).

(** [for index, row in input_df.iterrows(): ...] *)
Fixpoint main_loop (start_time : Z) (rows : list (nat * Row)) : M ending :=
  match rows with
  | [] => ret Completed
  | (index, row) :: rest =>
      t <- now W ;;
      if Z.gtb (t - start_time) max_runtime then
        log INFO LMaxRuntime ;;
        ret Returned
      else if is_Done (Status row) then main_loop start_time rest
      else
        log INFO (LProcessing (Username row) (Profile_URL row)) ;;
        try_except (row_body index row)
          (fun e => log ERROR (LRowError (Profile_URL row) e)) ;;
        main_loop start_time rest
  end.

Definition main : M unit :=
  try_except
    (log INFO LStarting ;;
     start_time <- now W ;;
     api_keys <- match getenv W (u "MY_GITHUB_API_KEYS2") with
                 | Some v => ret v
                 | None => raise ValueError
                 end ;;
     update_handler (fun _ => init (split (chr ",") api_keys)) ;;
     log INFO LReading ;;
     input_df <- read_google_sheet ;;
     match body input_df with
     | [] => log INFO LNoData
     | _ :: _ =>
         update_df (fun _ => add_missing_columns input_df) ;;
         rows <- the_df ;;
         main_loop start_time (iterrows rows) ;;
         ret tt
     end)
    (fun e => log ERROR (LMainError e)).

End Main.
End GHES.

(** *** [cloud02.py]: a CSV file as source and sink *)

Module Cloud02.
Section Main.

Variable W : World.

(** [input_df.to_csv(input_csv_path, index=False)] *)
Definition to_csv : M unit :=
  rows <- the_df ;;
  emit (EToCsv rows) ;;
  r <- observe (fun h => csv_write W h rows) ;;
  match r with
  | Some e => raise e
  | None => ret tt
  end.

Definition read_csv : M Table :=
  emit EReadInput ;;
  r <- observe (read_input W) ;;
  match r with
  | inl e => raise e
  | inr t => ret t
  end.

(** The body of the [try] statement of the loop. *)
Definition row_body (index : nat) (row : Row) : M unit :=
  email <- get_user_info_from_github_api W (Profile_URL row) ;;
  (if truthy email then
     update_df (at_index index (set_Email email)) ;;
     update_df (at_index index (set_Status (PStr (u "Done")))) ;;
     log INFO (LAppended (Username row) email)
   else log INFO (LNoEmail (Username row))) ;;
  to_csv.

(** [for index, row in input_df.iterrows(): ...] *)
Fixpoint main_loop (start_time : Z) (rows : list (nat * Row)) : M ending :=
  match rows with
  | [] => ret Completed
  | (index, row) :: rest =>
      t <- now W ;;
      if Z.gtb (t - start_time) max_runtime then
        log INFO LMaxRuntime ;;
        to_csv ;;
        ret Returned
      else if is_Done (Status row) then main_loop start_time rest
      else
        log INFO (LProcessing (Username row) (Profile_URL row)) ;;
        try_except (row_body index row)
          (fun e => log ERROR (LRowError (Profile_URL row) e)) ;;
        main_loop start_time rest
  end.

Definition main : M unit :=
  try_except
    (start_time <- now W ;;
     api_keys <- match getenv W (u "MY_GITHUB_API_KEYS") with
                 | Some v => ret v
                 | None => raise KeyError
                 end ;;
     update_handler (fun _ => init (split (chr ",") api_keys)) ;;
     log INFO LReading ;;
     input_df <- read_csv ;;
     update_df (fun _ => add_missing_columns input_df) ;;
     rows <- the_df ;;
     how <- main_loop start_time (iterrows rows) ;;
     match how with
     | Returned => ret tt
     | Completed => log INFO LComplete ;; to_csv
     end)
    (fun e => log ERROR (LMainError e)).

End Main.
End Cloud02.

(** ** Vocabulary of the statements *)

Module ReSpec.
Section WithTable.

Variable alnum : N -> bool.

(** [accepts its prev m post]: some backtracking branch of [its], started
    after [prev] on the input [m ++ post], consumes exactly [m]. *)
Inductive accepts : list Re.item -> option N -> pystr -> pystr -> Prop :=
| acc_done prev post :
    accepts [] prev [] post
| acc_boundary its prev m post :
    Re.at_boundary alnum prev (m ++ post) = true ->
    accepts its prev m post ->
    accepts (Re.Boundary :: its) prev m post
| acc_lit c its prev m post :
    accepts its (Some c) m post ->
    accepts (Re.Lit c :: its) prev (c :: m) post
| acc_rep cls lo its prev a m post :
    forallb cls a = true ->
    (lo <= List.length a)%nat ->
    accepts its (prev_after prev a) m post ->
    accepts (Re.Rep cls lo :: its) prev (a ++ m) post
| acc_end its prev :
    accepts its prev [] [] ->
    accepts (Re.EndOfString :: its) prev [] [].

(** The attempt to match [its] at offset [i] of [rest], whose left context
    ends in [prev]. *)
Definition attempt_at (its : list Re.item) (prev : option N) (rest : pystr)
    (i : nat) : option pystr :=
  Re.match_items alnum its (prev_after prev (firstn i rest)) (skipn i rest).

(** The attempt to match [its] at offset [i] of the whole [text]. *)
Definition match_at (its : list Re.item) (text : pystr) (i : nat)
    : option pystr :=
  attempt_at its None text i.

(** [m] is the match at offset [i], and no offset before [i] has one. *)
Definition first_match (its : list Re.item) (text : pystr) (i : nat)
    (m : pystr) : Prop :=
  (i <= List.length text)%nat /\
  match_at its text i = Some m /\
  forall j, (j < i)%nat -> match_at its text j = None.

Definition no_match (its : list Re.item) (text : pystr) : Prop :=
  forall i, (i <= List.length text)%nat -> match_at its text i = None.

End WithTable.

(** The shape [local@domain.tld] that the three character classes of the
    pattern describe. *)
Definition email_shape (s : pystr) : Prop :=
  exists l d t,
    s = l ++ chr "@" :: d ++ chr "." :: t /\
    forallb Re.local_class l = true /\ (1 <= List.length l)%nat /\
    forallb Re.domain_class d = true /\ (1 <= List.length d)%nat /\
    forallb Re.tld_class t = true /\ (2 <= List.length t)%nat.

End ReSpec.

(** The sample sentence of the extractor and the address in it. *)
Definition needle : pystr := u "contact: Jane.Doe+test@sub.example.co <end>".
Definition jane : pystr := u "Jane.Doe+test@sub.example.co".

(** *** Traces *)

Definition is_cooldown (e : event) : bool :=
  match e with
  | ESleep seconds => Z.eqb seconds 3900
  | _ => false
  end.

Definition is_switch (e : event) : bool :=
  match e with
  | ELog _ (LSwitched _) => true
  | _ => false
  end.

(** HTTP traffic *)
Definition is_wire (e : event) : bool :=
  match e with
  | EGet _ _ _ | EAttempt _ _ => true
  | _ => false
  end.

(** Anything that goes over the network *)
Definition is_network (e : event) : bool :=
  match e with
  | EGet _ _ _ | EAttempt _ _ | ESheets _ | EReadInput => true
  | _ => false
  end.

Definition count (p : event -> bool) (h : history) : nat :=
  List.length (filter p h).

(** How often the 3900-second cooldown was slept. *)
Definition cooldowns (h : history) : nat := count is_cooldown h.

(** How often the key was switched. *)
Definition rotations (h : history) : nat := count is_switch h.

Definition network_calls (h : history) : nat := count is_network h.

(** *** Footprints *)

(** What a computation may do: which events it may emit, and whether it
    may assign to the handler and to the table. *)
Record footprint : Type := mkFootprint {
  may_emit : event -> bool;
  may_set_handler : bool;
  may_set_df : bool
}.

Definition within (fp : footprint) (s s' : St) : Prop :=
  (may_set_handler fp = false -> handler s' = handler s) /\
  (may_set_df fp = false -> df s' = df s) /\
  exists evs, trace s' = trace s ++ evs /\ forallb (may_emit fp) evs = true.

Definition confined (fp : footprint) {A} (m : M A) : Prop :=
  forall s, within fp s (snd (m s)).

(** The quota probe only talks HTTP. *)
Definition probe_fp : footprint :=
  {| may_emit := is_wire; may_set_handler := false; may_set_df := false |}.

(** The methods of the handler never touch the table. *)
Definition handler_fp : footprint :=
  {| may_emit := fun _ => true; may_set_handler := true;
     may_set_df := false |}.

(** A pass that processes no row stays off the network. *)
Definition idle_fp : footprint :=
  {| may_emit := fun e => negb (is_network e); may_set_handler := false;
     may_set_df := false |}.

(** *** Quota probes *)

(** The probe has reported a value below [n] (respectively not below). *)
Definition reports_below (v : pyval) (n : Z) : Prop :=
  forall st, py_lt v n st = (Ok true, st).

Definition reports_at_least (v : pyval) (n : Z) : Prop :=
  forall st, py_lt v n st = (Ok false, st).

(** In world [W] the probe reports a value below 10 whenever it is made,
    that is, from every state in which the current key exists. *)
Definition probe_always_low (W : World) : Prop :=
  forall s headers,
    get_headers s = (Ok headers, s) ->
    exists v s1,
      get_remaining_requests W s = (Ok v, s1) /\ reports_below v 10.

(** *** Sample worlds *)

Definition response_200 (payload : pyval) : Response :=
  {| status_code := 200; text := []; json := Some payload;
     location := None; retry_after := false |}.

(** A response without JSON body, [Location] and [Retry-After]. *)
Definition page (status : Z) (body : pystr) : Response :=
  {| status_code := status; text := body; json := None;
     location := None; retry_after := false |}.

Definition rate_limit_payload (remaining : Z) : pyval :=
  PDict [(u "rate", PDict [(u "remaining", PInt remaining)])].

(** A world whose servers answer each attempt with [answer]; the clock
    stands still and nothing else fails. *)
Definition world_of (answer : history -> pystr -> attempt) : World :=
  {| unicode_alnum := ascii_only;
     preflight := fun _ _ => None;
     wire := fun h url _ => answer h url;
     next_hop := fun _ auth target => (target, auth);
     clock := fun _ => 0%Z;
     getenv := fun _ => None;
     sheets_credentials := fun _ => None;
     sheets_titles := fun _ => inr [u "Sheet2"];
     sheets_column_a := fun _ _ => inr 1%nat;
     sheets_update := fun _ _ => None;
     read_input := fun _ => inr (mkTable true true []);
     csv_write := fun _ _ => None |}.

(** Every key is always down to 3 remaining requests. *)
Definition low_world : World :=
  world_of (fun _ _ => Answer (response_200 (rate_limit_payload 3))).

Definition fresh (keys : list pystr) : St :=
  {| handler := init keys; df := []; trace := [] |}.

(** What [j] low probes in a row have done to a fresh handler over
    [keys], in a history that began with [c0] cooldowns. *)
Definition after (keys : list pystr) (c0 : nat) (j : nat) (s : St) : Prop :=
  api_keys (handler s) = keys /\
  current_key_index (handler s)
  = (Z.of_nat j mod Z.of_nat (List.length keys))%Z /\
  failed_attempts (handler s) = (Z.of_nat j mod 18)%Z /\
  cooldowns (trace s) = (c0 + j / 18)%nat.

(** [failed_attempts] is the number of key switches modulo 18, and the
    cooldown has been slept once for every 18 switches. *)
Definition counted (s : St) : Prop :=
  failed_attempts (handler s) = (Z.of_nat (rotations (trace s)) mod 18)%Z /\
  cooldowns (trace s) = (rotations (trace s) / 18)%nat.

(** [k] calls of [m] in a row, as long as none raises. *)
Fixpoint repeat_call (k : nat) (m : M unit) : M unit :=
  match k with
  | O => ret tt
  | S k' => bind m (fun _ => repeat_call k' m)
  end.

Definition is_attempt (e : event) : bool :=
  match e with
  | EAttempt _ _ => true
  | _ => false
  end.

Definition is_attempt_at (url : pystr) (e : event) : bool :=
  match e with
  | EAttempt url' _ => pystr_eqb url' url
  | _ => false
  end.

(** The probes are answered, in order, with the remaining quotas of
    [quota], and with 0 once the list is used up. *)
Definition scripted_quota (quota : list Z) : World :=
  world_of (fun h _ =>
    Answer (response_200
              (rate_limit_payload (nth (Nat.pred (count is_attempt h))
                                       quota 0%Z)))).

(** Seventeen exhausted probes, one probe that finds the quota recovered,
    one more exhausted probe. *)
Definition recovery_world : World :=
  scripted_quota (repeat 3%Z 17 ++ [5000; 3]%Z).

Definition profile_payload (email : pyval) : pyval :=
  PDict [(u "login", PStr (u "alice")); (u "email", email)].

Definition readme_text : pystr := u "Hi! Write to <alice@example.com>.".

(** The servers of the end-to-end example: plenty of quota, a profile of
    [alice] with an empty email field, and a README that holds her
    address. *)
Definition alice_world : World :=
  world_of (fun _ url =>
    if pystr_eqb url rate_limit_url then
      Answer (response_200 (rate_limit_payload 5000))
    else if pystr_eqb url (users_url (u "alice")) then
      Answer (response_200 (profile_payload (PStr [])))
    else if pystr_eqb url (readme_url (u "alice")) then
      Answer (page 200 readme_text)
    else Answer (page 404 [])).

(** The same servers, except that the README host answers the first
    attempt with 502 and only later ones with the document. *)
Definition flaky_readme_world : World :=
  world_of (fun h url =>
    if pystr_eqb url rate_limit_url then
      Answer (response_200 (rate_limit_payload 5000))
    else if pystr_eqb url (users_url (u "alice")) then
      Answer (response_200 (profile_payload PNone))
    else if pystr_eqb url (readme_url (u "alice")) then
      if Nat.leb (count (is_attempt_at url) h) 1 then
        Answer (page 502 [])
      else
        Answer (page 200 readme_text)
    else Answer (page 404 [])).

(** Plenty of quota, but every request for a profile is answered with
    502. *)
Definition unavailable_profile_world : World :=
  world_of (fun _ url =>
    if pystr_eqb url rate_limit_url then
      Answer (response_200 (rate_limit_payload 5000))
    else Answer (page 502 [])).

(** The first half of [get_user_info_from_github_api]: everything up to
    and including the request for the profile. *)
Definition profile_request (W : World) (name : pystr)
    : M (pystr * Response) :=
  (check_and_switch_key W ;;
   headers <- get_headers ;;
   update_handler (fun h => set_request_count (request_count h + 1) h) ;;
   response <- requests_retry_session_get W
                 (users_url (username_of name)) headers ;;
   ret (headers, response))%py.

Definition is_get (e : event) : bool :=
  match e with
  | EGet _ _ _ => true
  | _ => false
  end.

(** *** Row boundaries *)

(** The runtime check made in state [s] finds the budget exceeded
    (respectively not exceeded). *)
Definition budget_exceeded (W : World) (start_time : Z) (s : St) : Prop :=
  Z.gtb (clock W (trace s ++ [EClock]) - start_time) max_runtime = true.

Definition budget_left (W : World) (start_time : Z) (s : St) : Prop :=
  Z.gtb (clock W (trace s ++ [EClock]) - start_time) max_runtime = false.

(** The state in which the [try] statement for [row] begins, when the
    iteration began in [s]. *)
Definition at_try (s : St) (row : Row) : St :=
  {| handler := handler s; df := df s;
     trace := trace s ++ [EClock;
                          ELog INFO (LProcessing (Username row)
                                       (Profile_URL row))] |}.

(** The state after the [except] clause of the loop has logged [e]. *)
Definition after_except (s : St) (row : Row) (e : exn) : St :=
  {| handler := handler s; df := df s;
     trace := trace s ++ [ELog ERROR (LRowError (Profile_URL row) e)] |}.

(** The state after the row at [index] has been given its email and marked
    done, before anything is written. *)
Definition marked (s : St) (index : nat) (row : Row) (email : pyval) : St :=
  {| handler := handler s;
     df := at_index index (set_Status (PStr (u "Done")))
             (at_index index (set_Email email) (df s));
     trace := trace s ++ [ELog INFO (LAppended (Username row) email)] |}.

Definition all_Done (rows : list Row) : Prop :=
  Forall (fun r => is_Done (Status r) = true) rows.

Definition is_error_log (e : event) : bool :=
  match e with
  | ELog ERROR _ => true
  | _ => false
  end.

(** *** A world whose sinks fail *)

Definition pending_row (username : string) : Row :=
  {| Username := PStr (u username);
     User_ID := PStr (u "1");
     Profile_URL := PStr (u "https://github.com/" ++ u username);
     Status := PStr [];
     Email := PStr [] |}.

Definition profile_of (email : string) : attempt :=
  Answer (response_200 (PDict [(u "email", PStr (u email))])).

(** Both profiles carry an email; every row write to the sheet raises
    [HttpError], and every write of the CSV file raises [OSError]. *)
Definition failing_sink_world : World :=
  {| unicode_alnum := ascii_only;
     preflight := fun _ _ => None;
     next_hop := fun _ auth target => (target, auth);
     wire := fun _ url _ =>
       if pystr_eqb url rate_limit_url then
         Answer (response_200 (rate_limit_payload 5000))
       else if pystr_eqb url (users_url (u "alice")) then
         profile_of "alice@example.com"
       else if pystr_eqb url (users_url (u "bob")) then
         profile_of "bob@example.com"
       else Answer (page 404 []);
     clock := fun _ => 0%Z;
     getenv := fun _ => None;
     sheets_credentials := fun _ => None;
     sheets_titles := fun _ => inr [u "Sheet2"];
     sheets_column_a := fun _ _ => inr 1%nat;
     sheets_update := fun _ op =>
       match op with
       | OpWriteRow _ _ _ => Some HttpError
       | _ => None
       end;
     read_input := fun _ => inr (mkTable true true []);
     csv_write := fun _ _ => Some OSError |}.

Definition table_state (rows : list Row) : St :=
  {| handler := init [u "k1"]; df := rows; trace := [] |}.

Definition with_clock (c : history -> Z) (W : World) : World :=
  {| unicode_alnum := unicode_alnum W;
     preflight := preflight W;
     wire := wire W;
     next_hop := next_hop W;
     clock := c;
     getenv := getenv W;
     sheets_credentials := sheets_credentials W;
     sheets_titles := sheets_titles W;
     sheets_column_a := sheets_column_a W;
     sheets_update := sheets_update W;
     read_input := read_input W;
     csv_write := csv_write W |}.

(** The servers of [alice_world], at a time when the clock has run one
    microsecond past the budget of a run started at 0. *)
Definition late_world : World :=
  with_clock (fun _ => max_runtime + 1)%Z alice_world.

(** No server can be reached. *)
Definition offline_world : World := world_of (fun _ _ => ConnectFail).

Definition done_row (username : string) : Row :=
  {| Username := PStr (u username);
     User_ID := PStr (u "1");
     Profile_URL := PStr (u "https://github.com/" ++ u username);
     Status := PStr (u "Done");
     Email := PStr (u username ++ u "@example.com") |}.

Definition Status_and_Email (r : Row) : pyval * pyval := (Status r, Email r).

(** *** Strings *)

(** [sep.join(parts)] *)
Fixpoint join (sep : N) (parts : list pystr) : pystr :=
  match parts with
  | [] => []
  | [p] => p
  | p :: ps => p ++ sep :: join sep ps
  end.

(** [a in s] for a substring [a] *)
Definition substring (a s : pystr) : Prop :=
  exists pre post, s = pre ++ a ++ post.

(** *** More servers *)

(** Every request is refused with status 403. *)
Definition forbidden_world : World :=
  world_of (fun _ _ => Answer (page 403 [])).

(** Every request is answered with a JSON object that has no ['rate']. *)
Definition no_rate_world : World :=
  world_of (fun _ _ => Answer (response_200 (PDict [(u "message", PNone)]))).

(** The quota is reported as a string instead of a number. *)
Definition text_quota_world : World :=
  world_of (fun _ _ =>
    Answer (response_200
              (PDict [(u "rate",
                       PDict [(u "remaining", PStr (u "5000"))])]))).

(** *** Redirects, busy servers and refused requests *)

(** No server of [W] answers with a redirect that the client follows. *)
Definition direct (W : World) : Prop :=
  forall h url auth r,
    wire W h url auth = Answer r -> get_redirect_target r = None.

(** 301 with a [Location] header. *)
Definition moved (target : pystr) : Response :=
  {| status_code := 301; text := []; json := None;
     location := Some target; retry_after := false |}.

(** 429 with a [Retry-After] header. *)
Definition busy : Response :=
  {| status_code := 429; text := []; json := None;
     location := None; retry_after := true |}.

Definition new_readme_url : pystr :=
  u "https://raw.githubusercontent.com/alice/alice/master/README.md".

(** The servers of [alice_world], except that the README has moved: its
    URL answers with 301, and the document is at the new location. *)
Definition moved_readme_world : World :=
  world_of (fun _ url =>
    if pystr_eqb url rate_limit_url then
      Answer (response_200 (rate_limit_payload 5000))
    else if pystr_eqb url (users_url (u "alice")) then
      Answer (response_200 (profile_payload (PStr [])))
    else if pystr_eqb url (readme_url (u "alice")) then
      Answer (moved new_readme_url)
    else if pystr_eqb url new_readme_url then
      Answer (page 200 readme_text)
    else Answer (page 404 [])).

(** Every URL redirects to itself, and only every fourth attempt gets
    through at all. *)
Definition maze_world : World :=
  world_of (fun h url =>
    if Nat.eqb (Nat.modulo (count is_attempt h) 4) 0
    then Answer (moved url) else ConnectFail).

(** Every request is answered with 429 and a [Retry-After] header. *)
Definition busy_world : World := world_of (fun _ _ => Answer busy).

(** Every request is answered with 502. *)
Definition broken_world : World :=
  world_of (fun _ _ => Answer (page 502 [])).

(** The world [W] with a client that refuses to send a header value with
    a line feed in it. *)
Definition with_strict_headers (W : World) : World :=
  {| unicode_alnum := unicode_alnum W;
     preflight := fun _ auth =>
       if existsb (N.eqb 10) auth then Some InvalidHeader else None;
     wire := wire W;
     next_hop := next_hop W;
     clock := clock W;
     getenv := getenv W;
     sheets_credentials := sheets_credentials W;
     sheets_titles := sheets_titles W;
     sheets_column_a := sheets_column_a W;
     sheets_update := sheets_update W;
     read_input := read_input W;
     csv_write := csv_write W |}.

(** A probe answered with a JSON list instead of an object. *)
Definition list_payload_world : World :=
  world_of (fun _ _ => Answer (response_200 (PList []))).

(** *** Invariants of the handler *)

(** The pool is not empty, the current index points into it, and the
    failure counter is below its ceiling. *)
Definition well_formed (h : Handler) : Prop :=
  api_keys h <> [] /\
  (0 <= current_key_index h < Z.of_nat (List.length (api_keys h)))%Z /\
  (0 <= failed_attempts h < 18)%Z.

(** [h] is well formed and still has the pool [keys] and the limit
    [limit] it was built with. *)
Definition pool_state (keys : list pystr) (limit : Z) (h : Handler) : Prop :=
  api_keys h = keys /\ max_requests_per_key h = limit /\ well_formed h.

(** [m] keeps a property of the handler. *)
Definition keeps (P : Handler -> Prop) {A} (m : M A) : Prop :=
  forall s, P (handler s) -> P (handler (snd (m s))).


(** *** Budgets *)

(** [m] adds at most [n] events of kind [p] to the trace. *)
Definition emits_at_most (p : event -> bool) (n : nat) {A} (m : M A)
    : Prop :=
  forall s, (count p (trace (snd (m s))) <= count p (trace s) + n)%nat.

Definition is_sheets (e : event) : bool :=
  match e with
  | ESheets _ => true
  | _ => false
  end.

Definition is_pending (ir : nat * Row) : bool :=
  negb (is_Done (Status (snd ir))).

(** The number of rows that a pass has to process. *)
Definition pending_count (rows : list (nat * Row)) : nat :=
  List.length (filter is_pending rows).

Definition is_log (e : event) : bool :=
  match e with
  | ELog _ _ => true
  | _ => false
  end.

(** Writing to the sheet talks to the Sheets API and logs; it assigns
    neither the handler nor the table. *)
Definition sheets_fp : footprint :=
  {| may_emit := fun e => is_sheets e || is_log e;
     may_set_handler := false; may_set_df := false |}.

(** Saving the CSV file does just that. *)
Definition csv_fp : footprint :=
  {| may_emit := fun e => match e with EToCsv _ => true | _ => false end;
     may_set_handler := false; may_set_df := false |}.

(** *** The table *)

(** What a pass may do to a row: nothing, or, if the row was pending, set
    its Email to a truthy value and its Status to ['Done']. *)
Definition resolved_from (r r' : Row) : Prop :=
  r' = r \/
  (is_Done (Status r) = false /\
   exists email, truthy email = true /\
                 r' = set_Status (PStr (u "Done")) (set_Email email r)).

(** *** The Sheets service *)

(** A service in good health: nothing fails, the spreadsheet has the sheets
    [titles], and column A of the output sheet has [populated] rows. *)
Definition healthy_sheets (W : World) (titles : list pystr)
    (populated : nat) : Prop :=
  (forall h, sheets_credentials W h = None) /\
  (forall h, sheets_titles W h = inr titles) /\
  (forall h name, sheets_column_a W h name = inr populated) /\
  (forall h op, sheets_update W h op = None).

(** Everything but error logs. *)
Definition info_fp : footprint :=
  {| may_emit := fun e => negb (is_error_log e);
     may_set_handler := false; may_set_df := false |}.

(** [m] writes one error log when it raises [HttpError], and none
    otherwise. *)
Definition logs_HttpError_once {A} (m : M A) : Prop :=
  forall s,
    count is_error_log (trace (snd (m s)))
    = (count is_error_log (trace s)
       + match fst (m s) with
         | Raise HttpError => 1
         | _ => 0
         end)%nat.

(** The world [W] with the environment variables of both scripts set to
    [keys], and a source that delivers the table [t]. *)
Definition with_input (keys : pystr) (t : Table) (W : World) : World :=
  {| unicode_alnum := unicode_alnum W;
     preflight := preflight W;
     wire := wire W;
     next_hop := next_hop W;
     clock := clock W;
     getenv := fun _ => Some keys;
     sheets_credentials := sheets_credentials W;
     sheets_titles := sheets_titles W;
     sheets_column_a := sheets_column_a W;
     sheets_update := sheets_update W;
     read_input := fun _ => inr t;
     csv_write := csv_write W |}.

(** ** The matcher *)

Section MatcherFacts.

Variable alnum : N -> bool.

Lemma prev_after_app (prev : option N) (a b : pystr) :
  prev_after prev (a ++ b) = prev_after (prev_after prev a) b.
Proof.
  revert prev. induction a as [|c a IH]; intros prev; simpl; auto.
Qed.

(** What a successful greedy repetition has done. *)
Lemma rep_sound cls cont :
  forall rest lo prev m,
    Re.rep cls lo cont prev rest = Some m ->
    exists a b rest',
      m = a ++ b /\ rest = a ++ rest' /\
      forallb cls a = true /\ (lo <= List.length a)%nat /\
      cont (prev_after prev a) rest' = Some b.
Proof.
  induction rest as [|c rest IH]; intros lo prev m H; simpl in H.
  - destruct lo; [|discriminate].
    exists [], m, []. simpl. auto.
  - destruct (cls c) eqn:Hc.
    + destruct (Re.rep cls (Nat.pred lo) cont (Some c) rest) as [m'|] eqn:Hr.
      * injection H as <-.
        destruct (IH _ _ _ Hr) as (a & b & rest' & -> & -> & Ha & Hlo & Hk).
        exists (c :: a), b, rest'. simpl. rewrite Hc, Ha.
        repeat split; auto. lia.
      * destruct lo; [|discriminate].
        exists [], m, (c :: rest). simpl. auto.
    + destruct lo; [|discriminate].
      exists [], m, (c :: rest). simpl. auto.
Qed.

(** A repetition succeeds as soon as one way of splitting the input lets
    the rest of the pattern succeed. *)
Lemma rep_complete cls cont :
  forall a lo prev rest' b,
    forallb cls a = true -> (lo <= List.length a)%nat ->
    cont (prev_after prev a) rest' = Some b ->
    exists m, Re.rep cls lo cont prev (a ++ rest') = Some m.
Proof.
  induction a as [|c a IH]; intros lo prev rest' b Ha Hlo Hk; simpl in *.
  - assert (lo = 0%nat) by lia. subst lo.
    destruct rest' as [|c rest]; simpl.
    + eauto.
    + destruct (cls c); [|eauto].
      destruct (Re.rep cls 0 cont (Some c) rest); eauto.
  - apply andb_prop in Ha. destruct Ha as [Hc Ha]. rewrite Hc.
    destruct (IH (Nat.pred lo) (Some c) rest' b Ha ltac:(lia) Hk) as [m Hm].
    rewrite Hm. eauto.
Qed.

Lemma match_items_sound :
  forall its prev rest m,
    Re.match_items alnum its prev rest = Some m ->
    exists post, rest = m ++ post /\ ReSpec.accepts alnum its prev m post.
Proof.
  induction its as [|it its IH]; intros prev rest m H; simpl in H.
  - injection H as <-. exists rest. split; [reflexivity|constructor].
  - destruct it as [|a|cls lo|].
    + destruct (Re.at_boundary alnum prev rest) eqn:Hb; [|discriminate].
      destruct (IH _ _ _ H) as (post & -> & Hacc).
      exists post. split; [reflexivity|]. now constructor.
    + destruct rest as [|c rest]; [discriminate|].
      destruct (N.eqb_spec c a) as [->|]; [|discriminate].
      destruct (Re.match_items alnum its (Some a) rest) as [m'|] eqn:Hm;
        [|discriminate].
      injection H as <-.
      destruct (IH _ _ _ Hm) as (post & -> & Hacc).
      exists post. split; [reflexivity|]. now constructor.
    + apply rep_sound in H.
      destruct H as (a & b & rest' & -> & -> & Ha & Hlo & Hk).
      destruct (IH _ _ _ Hk) as (post & -> & Hacc).
      exists post. rewrite app_assoc. split; [reflexivity|].
      now constructor.
    + destruct rest; [|discriminate].
      destruct (IH _ _ _ H) as (post & Heq & Hacc).
      symmetry in Heq. apply app_eq_nil in Heq. destruct Heq as [-> ->].
      exists []. split; [reflexivity|]. now constructor.
Qed.

Lemma match_items_complete :
  forall its prev m post,
    ReSpec.accepts alnum its prev m post ->
    exists m', Re.match_items alnum its prev (m ++ post) = Some m'.
Proof.
  intros its prev m post H.
  induction H as [prev post | its prev m post Hb _ IH | c its prev m post _ IH
                 | cls lo its prev a m post Ha Hlo _ IH | its prev _ IH];
    simpl.
  - eauto.
  - rewrite Hb. exact IH.
  - rewrite N.eqb_refl. destruct IH as [m' ->]. eauto.
  - destruct IH as [m' Hm']. rewrite <- app_assoc.
    eapply rep_complete; eauto.
  - exact IH.
Qed.

End MatcherFacts.

(** ** Searching *)

Section SearchFacts.

Variable alnum : N -> bool.
Variable its : list Re.item.

(** [matches[0]], when there is one, is what [re.search] finds. *)
Lemma findall_head :
  forall rest prev,
    hd_error (Re.findall_from alnum its 0 prev rest)
    = Re.search alnum its prev rest.
Proof.
  induction rest as [|c rest IH]; intros prev; simpl.
  - destruct (Re.match_items alnum its prev []); reflexivity.
  - destruct (Re.match_items alnum its prev (c :: rest)); [reflexivity|].
    apply IH.
Qed.

Lemma search_finds :
  forall rest prev m,
    Re.search alnum its prev rest = Some m ->
    exists i, (i <= List.length rest)%nat /\
              ReSpec.attempt_at alnum its prev rest i = Some m /\
              forall j, (j < i)%nat ->
                        ReSpec.attempt_at alnum its prev rest j = None.
Proof.
  unfold ReSpec.attempt_at.
  induction rest as [|c rest IH]; intros prev m H; simpl in H.
  - destruct (Re.match_items alnum its prev []) eqn:Hm; [|discriminate].
    injection H as ->. exists 0%nat. simpl. repeat split; auto. lia.
  - destruct (Re.match_items alnum its prev (c :: rest)) eqn:Hm.
    + injection H as ->. exists 0%nat. simpl. repeat split; auto; lia.
    + destruct (IH _ _ H) as (i & Hi & Hat & Hbefore).
      exists (S i). simpl. repeat split; auto; try lia.
      intros [|j] Hj; simpl; [exact Hm|]. apply Hbefore. lia.
Qed.

Lemma search_fails :
  forall rest prev,
    Re.search alnum its prev rest = None ->
    forall i, (i <= List.length rest)%nat ->
              ReSpec.attempt_at alnum its prev rest i = None.
Proof.
  unfold ReSpec.attempt_at.
  induction rest as [|c rest IH]; intros prev H i Hi; simpl in H.
  - destruct (Re.match_items alnum its prev []) eqn:Hm; [discriminate|].
    destruct i; simpl; exact Hm.
  - destruct (Re.match_items alnum its prev (c :: rest)) eqn:Hm;
      [discriminate|].
    destruct i as [|i]; simpl; [exact Hm|].
    apply IH; [exact H|]. simpl in Hi. lia.
Qed.

Lemma search_first_match (text : pystr) (i : nat) (m : pystr) :
  ReSpec.first_match alnum its text i m ->
  Re.search alnum its None text = Some m.
Proof.
  unfold ReSpec.first_match, ReSpec.match_at, ReSpec.attempt_at.
  intros (Hi & Hat & Hbefore).
  destruct (Re.search alnum its None text) as [m'|] eqn:Hs.
  - destruct (@search_finds _ _ _ Hs) as (i' & Hi' & Hat' & Hbefore').
    unfold ReSpec.attempt_at in *.
    destruct (Nat.lt_trichotomy i i') as [Hlt | [-> | Hgt]].
    + specialize (Hbefore' _ Hlt). congruence.
    + congruence.
    + specialize (Hbefore _ Hgt). congruence.
  - pose proof (@search_fails _ _ Hs i Hi) as Hnone.
    unfold ReSpec.attempt_at in *. congruence.
Qed.

Lemma search_no_match (text : pystr) :
  ReSpec.no_match alnum its text ->
  Re.search alnum its None text = None.
Proof.
  unfold ReSpec.no_match, ReSpec.match_at, ReSpec.attempt_at. intros Hno.
  destruct (Re.search alnum its None text) as [m|] eqn:Hs; [|reflexivity].
  destruct (@search_finds _ _ _ Hs) as (i & Hi & Hat & _).
  unfold ReSpec.attempt_at in *. rewrite (Hno i Hi) in Hat. discriminate.
Qed.

Lemma search_total (text : pystr) :
  (exists i m, ReSpec.first_match alnum its text i m) \/
  ReSpec.no_match alnum its text.
Proof.
  unfold ReSpec.first_match, ReSpec.no_match, ReSpec.match_at,
    ReSpec.attempt_at.
  destruct (Re.search alnum its None text) as [m|] eqn:Hs.
  - left. destruct (@search_finds _ _ _ Hs) as (i & Hi & Hat & Hbefore).
    exists i, m. repeat split; auto.
  - right. intros i Hi. exact (@search_fails _ _ Hs i Hi).
Qed.

End SearchFacts.

(** ** Stripping *)

Lemma strip_chars_inv (c : N) :
  strip_chars c = true ->
  In c [34; 60; 62; 91; 93; 40; 41]%N.
Proof.
  unfold strip_chars, Re.one_of. simpl.
  rewrite !orb_true_iff, !N.eqb_eq. simpl. intuition congruence.
Qed.

(** No character that the pattern can consume is one that [strip]
    removes. *)
Lemma consumed_not_stripped (c : N) :
  Re.local_class c = true \/ Re.domain_class c = true \/
  Re.tld_class c = true \/ c = chr "@" \/ c = chr "." ->
  strip_chars c = false.
Proof.
  intros H. destruct (strip_chars c) eqn:E; [|reflexivity].
  apply strip_chars_inv in E. simpl in E.
  repeat (destruct E as [<- | E];
          [ vm_compute in H; intuition discriminate | ]).
  contradiction.
Qed.

Lemma forallb_not_stripped (cls : N -> bool) (s : pystr) :
  (forall c, cls c = true -> strip_chars c = false) ->
  forallb cls s = true ->
  Forall (fun c => strip_chars c = false) s.
Proof.
  intros Hcls H. rewrite forallb_forall in H. apply Forall_forall.
  auto.
Qed.

Lemma shape_not_stripped (s : pystr) :
  ReSpec.email_shape s -> Forall (fun c => strip_chars c = false) s.
Proof.
  intros (l & d & t & -> & Hl & _ & Hd & _ & Ht & _).
  assert (Hcls : forall cls,
             (forall c, cls c = true -> strip_chars c = false) ->
             forall x, forallb cls x = true ->
                       Forall (fun c => strip_chars c = false) x)
    by (intros cls Hc x; apply forallb_not_stripped; exact Hc).
  apply Forall_app. split.
  { apply (Hcls Re.local_class); auto.
    intros; apply consumed_not_stripped; auto. }
  apply Forall_cons; [apply consumed_not_stripped; auto|].
  apply Forall_app. split.
  { apply (Hcls Re.domain_class); auto.
    intros; apply consumed_not_stripped; auto. }
  apply Forall_cons; [apply consumed_not_stripped; auto 6|].
  apply (Hcls Re.tld_class); auto.
  intros; apply consumed_not_stripped; auto.
Qed.

Lemma lstrip_keeps (chars : N -> bool) (s : pystr) :
  Forall (fun c => chars c = false) s -> lstrip chars s = s.
Proof.
  intros H. destruct H as [|c s Hc _]; simpl; [reflexivity|].
  now rewrite Hc.
Qed.

Lemma strip_keeps (chars : N -> bool) (s : pystr) :
  Forall (fun c => chars c = false) s -> strip chars s = s.
Proof.
  intros H. unfold strip.
  replace (lstrip chars s) with s by (symmetry; apply lstrip_keeps; exact H).
  rewrite lstrip_keeps; [apply rev_involutive|].
  apply Forall_rev. exact H.
Qed.

(** ** The email pattern *)

Section PatternFacts.

Variable alnum : N -> bool.

(** What the pattern has matched when it succeeds. *)
Lemma pattern_accepts_inv (prev : option N) (m post : pystr) :
  ReSpec.accepts alnum pattern prev m post ->
  ReSpec.email_shape m /\
  Re.at_boundary alnum prev (m ++ post) = true /\
  Re.at_boundary alnum (prev_after prev m) post = true.
Proof.
  unfold pattern. intros H.
  repeat match goal with
         | H : ReSpec.accepts _ (_ :: _) _ _ _ |- _ =>
             inversion H; subst; clear H
         | H : ReSpec.accepts _ [] _ _ _ |- _ =>
             inversion H; subst; clear H
         end.
  repeat split.
  - eexists _, _, _. rewrite app_nil_r. repeat split; eauto.
  - assumption.
  - simpl in *. rewrite !prev_after_app. simpl.
    rewrite !prev_after_app. simpl. rewrite app_nil_r in *. assumption.
Qed.

Lemma pattern_match_inv (prev : option N) (rest m : pystr) :
  Re.match_items alnum pattern prev rest = Some m ->
  exists post, rest = m ++ post /\ ReSpec.email_shape m /\
               Re.at_boundary alnum prev rest = true /\
               Re.at_boundary alnum (prev_after prev m) post = true.
Proof.
  intros H. apply match_items_sound in H.
  destruct H as (post & -> & Hacc).
  apply pattern_accepts_inv in Hacc. destruct Hacc as (Hs & Hb & He).
  exists post. auto.
Qed.

Lemma shape_has_at (s : pystr) :
  ReSpec.email_shape s -> In (chr "@") s.
Proof.
  intros (l & d & t & -> & _). apply in_or_app. right. left. reflexivity.
Qed.

End PatternFacts.

(** ** The sample sentence *)

Section NeedleFacts.

Variable alnum : N -> bool.

Lemma match_at_after_prefix (its : list Re.item) (rest : pystr) (k : nat) :
  forall pre prev,
    Re.match_items alnum its
      (prev_after prev (firstn (List.length pre + k) (pre ++ rest)))
      (skipn (List.length pre + k) (pre ++ rest))
    = Re.match_items alnum its
        (prev_after (prev_after prev pre) (firstn k rest)) (skipn k rest).
Proof.
  induction pre as [|c pre IH]; intros prev; simpl; [reflexivity|].
  apply IH.
Qed.

(** Nothing matches at the nine offsets of ["contact: "], whatever comes
    before the sentence and after it. *)
Lemma needle_head_fails (prev : option N) (post : pystr) (k : nat) :
  (k < 9)%nat ->
  Re.match_items alnum pattern
    (prev_after prev (firstn k (needle ++ post))) (skipn k (needle ++ post))
  = None.
Proof.
  intros Hk.
  destruct k as [|k].
  - change (Re.match_items alnum pattern
              (prev_after prev (firstn 0 (needle ++ post)))
              (skipn 0 (needle ++ post)))
      with (if Re.at_boundary alnum prev (needle ++ post)
            then Re.match_items alnum (tl pattern) prev (needle ++ post)
            else None).
    destruct (Re.at_boundary alnum prev (needle ++ post)); [|reflexivity].
    vm_compute. reflexivity.
  - do 8 (destruct k as [|k]; [vm_compute; reflexivity|]). lia.
Qed.

(** At the tenth offset the address matches. *)
Lemma needle_matches (prev : option N) (post : pystr) :
  Re.match_items alnum pattern
    (prev_after prev (firstn 9 (needle ++ post))) (skipn 9 (needle ++ post))
  = Some jane.
Proof. vm_compute. reflexivity. Qed.

Lemma needle_first_match (pre post : pystr) :
  (forall j, (j < List.length pre)%nat ->
             ReSpec.match_at alnum pattern (pre ++ needle ++ post) j = None) ->
  ReSpec.first_match alnum pattern (pre ++ needle ++ post)
    (List.length pre + 9) jane.
Proof.
  intros Hpre.
  unfold ReSpec.first_match, ReSpec.match_at, ReSpec.attempt_at in *.
  split; [|split].
  - rewrite !length_app.
    change (List.length needle) with 43%nat. lia.
  - rewrite match_at_after_prefix. apply needle_matches.
  - intros j Hj.
    destruct (Nat.lt_ge_cases j (List.length pre)) as [Hlt|Hge].
    + apply Hpre. exact Hlt.
    + replace j with (List.length pre + (j - List.length pre))%nat by lia.
      rewrite match_at_after_prefix. apply needle_head_fails. lia.
Qed.

End NeedleFacts.

(** ** The extractor *)

Lemma extract_email_search (alnum : N -> bool) (text : pystr) :
  extract_email alnum text
  = option_map (strip strip_chars) (Re.search alnum pattern None text).
Proof.
  unfold extract_email, Re.findall.
  rewrite <- findall_head.
  destruct (Re.findall_from alnum pattern 0 None text); reflexivity.
Qed.

(** C6: [extract_email] returns the first match of the pattern in document
    order, stripped of surrounding quote and bracket characters, and nothing
    when the pattern matches nowhere; one of the two always applies, so the
    function returns on every string.  A text that contains the sample
    sentence, with no match starting before it, yields the address in it;
    a text without [@] yields nothing. *)
Theorem extract_email_first_match (alnum : N -> bool) (text : pystr) :
  (forall i m, ReSpec.first_match alnum pattern text i m ->
               extract_email alnum text = Some (strip strip_chars m)) /\
  (ReSpec.no_match alnum pattern text -> extract_email alnum text = None) /\
  ((exists i m, ReSpec.first_match alnum pattern text i m) \/
   ReSpec.no_match alnum pattern text) /\
  (forall pre post,
      text = pre ++ needle ++ post ->
      (forall j, (j < List.length pre)%nat ->
                 ReSpec.match_at alnum pattern text j = None) ->
      extract_email alnum text = Some jane) /\
  (~ In (chr "@") text -> extract_email alnum text = None).
Proof.
  rewrite extract_email_search.
  split; [|split; [|split; [|split]]].
  - intros i m H. now rewrite (search_first_match H).
  - intros H. now rewrite (search_no_match H).
  - apply search_total.
  - intros pre post -> Hpre.
    rewrite (search_first_match (@needle_first_match alnum pre post Hpre)).
    reflexivity.
  - intros Hat.
    destruct (Re.search alnum pattern None text) as [m|] eqn:Hs;
      [|reflexivity].
    exfalso. apply Hat.
    destruct (@search_finds _ _ _ _ _ Hs) as (i & _ & Hm & _).
    apply pattern_match_inv in Hm.
    destruct Hm as (post & Hrest & Hshape & _).
    rewrite <- (firstn_skipn i text), Hrest.
    apply in_or_app. right. apply in_or_app. left.
    now apply shape_has_at.
Qed.

Lemma extract_email_first_match_witness :
  extract_email ascii_only (u "mail <Bob_1@x.org>, or "
                            ++ needle ++ u " and so on")
  = Some (u "Bob_1@x.org") /\
  extract_email ascii_only (u "please " ++ needle ++ u " and so on")
  = Some jane /\
  extract_email ascii_only (u "no address here") = None.
Proof.
  split; [|split].
  - apply (proj1 (extract_email_first_match ascii_only _) 6%nat
             (u "Bob_1@x.org")).
    split; [vm_compute; lia|].
    split; [reflexivity|].
    intros j Hj.
    do 6 (destruct j as [|j]; [reflexivity|]). lia.
  - apply (proj1 (proj2 (proj2 (proj2
             (extract_email_first_match ascii_only _))))
             (u "please ") (u " and so on") eq_refl).
    intros j Hj.
    do 7 (destruct j as [|j]; [reflexivity|]). simpl in Hj. lia.
  - apply (proj2 (proj2 (proj2 (proj2
             (extract_email_first_match ascii_only _))))).
    vm_compute. intuition discriminate.
Defined.

(** ** Matching the result again *)

Section FullmatchFacts.

Variable alnum : N -> bool.

Lemma accepts_end_post its prev m post :
  ReSpec.accepts alnum its prev m post ->
  In Re.EndOfString its -> post = [].
Proof.
  induction 1 as [| ? ? ? ? _ _ IH | ? ? ? ? ? _ IH
                  | ? ? ? ? ? ? ? _ _ _ IH | ]; simpl; intros Hin.
  - contradiction.
  - destruct Hin as [Hin|Hin]; [discriminate|auto].
  - destruct Hin as [Hin|Hin]; [discriminate|auto].
  - destruct Hin as [Hin|Hin]; [discriminate|auto].
  - reflexivity.
Qed.

Lemma last_char_of_shape (l d t : pystr) (c1 c2 : N) :
  last_char (l ++ c1 :: d ++ c2 :: t) = prev_after (Some c2) t.
Proof.
  unfold last_char. rewrite prev_after_app. simpl.
  rewrite prev_after_app. reflexivity.
Qed.

Lemma fullmatch_boundaries (s : pystr) :
  Re.fullmatch alnum pattern s = Some s ->
  Re.word_after alnum s = true /\
  Re.word_before alnum (last_char s) = true.
Proof.
  unfold Re.fullmatch, pattern. simpl app. intros H.
  apply match_items_sound in H. destruct H as (post & Heq & Hacc).
  pose proof (accepts_end_post Hacc) as Hpost. simpl in Hpost.
  rewrite Hpost in Hacc by auto 10. clear Hpost Heq post.
  repeat match goal with
         | H : ReSpec.accepts _ (_ :: _) _ _ _ |- _ =>
             inversion H; subst; clear H
         | H : ReSpec.accepts _ [] _ _ _ |- _ =>
             inversion H; subst; clear H
         end.
  unfold Re.at_boundary in *. simpl in *.
  rewrite !app_nil_r in *. rewrite xorb_false_r in *.
  rewrite last_char_of_shape. auto.
Qed.

(** A string of the shape [local@domain.tld] matches the whole pattern,
    word boundaries included, exactly when it begins and ends with a word
    character. *)
Lemma fullmatch_shape (s : pystr) :
  ReSpec.email_shape s ->
  (Re.fullmatch alnum pattern s = Some s <->
   Re.word_after alnum s = true /\
   Re.word_before alnum (last_char s) = true).
Proof.
  intros Hshape. split; [apply fullmatch_boundaries|].
  destruct Hshape as (l & d & t & -> & Hl & Hl1 & Hd & Hd1 & Ht & Ht2).
  rewrite last_char_of_shape. unfold Re.fullmatch, pattern. simpl app.
  intros [Hfirst Hlast].
  assert (Hacc : ReSpec.accepts alnum
            [Re.Boundary; Re.Rep Re.local_class 1; Re.Lit (chr "@");
             Re.Rep Re.domain_class 1; Re.Lit (chr ".");
             Re.Rep Re.tld_class 2; Re.Boundary; Re.EndOfString]
            None (l ++ chr "@" :: d ++ chr "." :: t) []).
  { constructor.
    - unfold Re.at_boundary. rewrite app_nil_r. exact Hfirst.
    - constructor; auto. constructor. constructor; auto.
      constructor. rewrite <- (app_nil_r t) at 1.
      constructor; auto. constructor.
      + unfold Re.at_boundary. simpl. rewrite xorb_false_r. exact Hlast.
      + constructor. constructor. }
  destruct (match_items_complete Hacc) as [m' Hm'].
  rewrite app_nil_r in Hm'.
  transitivity (Some m'); [exact Hm'|]. f_equal.
  apply match_items_sound in Hm'. destruct Hm' as (post & Heq & Hacc').
  rewrite (accepts_end_post Hacc') in Heq by (simpl; auto 10).
  rewrite app_nil_r in Heq. symmetry. exact Heq.
Qed.

End FullmatchFacts.

(** C10, as amended: a string returned by [extract_email] is the raw first
    match, character for character: stripping changes nothing, because no
    character that [strip] removes can occur in a match.  The string has
    the shape [local@domain.tld] of the three character classes, and it
    matches the whole pattern again, word boundaries included, exactly when
    its first and its last character are word characters. *)
Theorem extract_email_returns_raw_match (alnum : N -> bool)
    (text s : pystr) :
  extract_email alnum text = Some s ->
  (exists others, Re.findall alnum pattern text = s :: others) /\
  strip strip_chars s = s /\
  Forall (fun c => strip_chars c = false) s /\
  ReSpec.email_shape s /\
  (Re.fullmatch alnum pattern s = Some s <->
   Re.word_after alnum s = true /\
   Re.word_before alnum (last_char s) = true).
Proof.
  unfold extract_email. intros H.
  destruct (Re.findall alnum pattern text) as [|m others] eqn:Hall;
    [discriminate|].
  injection H as <-.
  assert (Hshape : ReSpec.email_shape m).
  { assert (Hs : Re.search alnum pattern None text = Some m).
    { rewrite <- findall_head. unfold Re.findall in Hall.
      now rewrite Hall. }
    destruct (@search_finds _ _ _ _ _ Hs) as (i & _ & Hm & _).
    apply pattern_match_inv in Hm.
    destruct Hm as (post & _ & Hshape & _). exact Hshape. }
  pose proof (shape_not_stripped Hshape) as Hclean.
  pose proof (@strip_keeps strip_chars m Hclean) as Hkeep.
  rewrite !Hkeep.
  split; [exists others; reflexivity|].
  split; [reflexivity|].
  split; [exact Hclean|].
  split; [exact Hshape|].
  apply fullmatch_shape. exact Hshape.
Qed.

Lemma extract_email_returns_raw_match_witness :
  extract_email ascii_only (u "mail <Bob_1@x.org>") = Some (u "Bob_1@x.org")
  /\ strip strip_chars (u "Bob_1@x.org") = u "Bob_1@x.org"
  /\ ReSpec.email_shape (u "Bob_1@x.org").
Proof.
  assert (H : extract_email ascii_only (u "mail <Bob_1@x.org>")
              = Some (u "Bob_1@x.org")) by reflexivity.
  split; [exact H|].
  pose proof (extract_email_returns_raw_match ascii_only _ H) as R.
  split; [apply R|apply R].
Defined.

(** C10, as stated, fails: from ["a@b.co|1"] the extractor returns
    ["a@b.co|"], which the pattern does not match as a whole. *)
Lemma extract_email_result_not_rematched :
  extract_email ascii_only (u "a@b.co|1") = Some (u "a@b.co|") /\
  Re.fullmatch ascii_only pattern (u "a@b.co|") = None.
Proof. split; reflexivity. Qed.

(** The same happens at the left end when a letter outside ASCII comes
    before a dot. *)
Example extract_email_after_unicode_letter :
  extract_email with_e_acute (233%N :: u ".a@b.co") = Some (u ".a@b.co") /\
  Re.fullmatch with_e_acute pattern (u ".a@b.co") = None.
Proof. split; reflexivity. Qed.

(** ** Footprints of the handler's methods *)

Section Confinement.

Variable fp : footprint.

Lemma within_refl (s : St) : within fp s s.
Proof.
  repeat split; auto. exists []. now rewrite app_nil_r.
Qed.

Lemma within_trans (s1 s2 s3 : St) :
  within fp s1 s2 -> within fp s2 s3 -> within fp s1 s3.
Proof.
  intros (Hh & Hd & evs & Ht & He) (Hh' & Hd' & evs' & Ht' & He').
  split; [|split].
  - intros E. rewrite Hh', Hh; auto.
  - intros E. rewrite Hd', Hd; auto.
  - exists (evs ++ evs'). rewrite Ht', Ht, app_assoc. split; auto.
    rewrite forallb_app, He, He'. reflexivity.
Qed.

Lemma confined_ret A (a : A) : confined fp (ret a).
Proof. intros s. apply within_refl. Qed.

Lemma confined_raise A (e : exn) : confined fp (@raise A e).
Proof. intros s. apply within_refl. Qed.

Lemma confined_observe A (q : history -> A) : confined fp (observe q).
Proof. intros s. apply within_refl. Qed.

Lemma confined_the_handler : confined fp the_handler.
Proof. intros s. apply within_refl. Qed.

Lemma confined_the_df : confined fp the_df.
Proof. intros s. apply within_refl. Qed.

Lemma confined_bind A B (m : M A) (f : A -> M B) :
  confined fp m -> (forall a, confined fp (f a)) -> confined fp (bind m f).
Proof.
  intros Hm Hf s. unfold bind. specialize (Hm s).
  destruct (m s) as [[a|e] s']; simpl in *; [|exact Hm].
  eapply within_trans; [exact Hm|apply Hf].
Qed.

Lemma confined_try_except A (m : M A) (h : exn -> M A) :
  confined fp m -> (forall e, confined fp (h e)) ->
  confined fp (try_except m h).
Proof.
  intros Hm Hh s. unfold try_except. specialize (Hm s).
  destruct (m s) as [[a|e] s']; simpl in *; [exact Hm|].
  eapply within_trans; [exact Hm|apply Hh].
Qed.

Lemma confined_emit (e : event) :
  may_emit fp e = true -> confined fp (emit e).
Proof.
  intros He s. repeat split; auto. exists [e]. simpl.
  now rewrite He.
Qed.

Lemma confined_update_handler (f : Handler -> Handler) :
  may_set_handler fp = true -> confined fp (update_handler f).
Proof.
  intros Hf s. split; [|split]; simpl; auto.
  - congruence.
  - exists []. now rewrite app_nil_r.
Qed.

Lemma confined_update_df (f : list Row -> list Row) :
  may_set_df fp = true -> confined fp (update_df f).
Proof.
  intros Hf s. split; [|split]; simpl; auto.
  - congruence.
  - exists []. now rewrite app_nil_r.
Qed.

End Confinement.

Create HintDb confined.
#[export] Hint Resolve confined_ret confined_raise confined_observe
  confined_the_handler confined_the_df : confined.

(** Splits a computation along its binds and case distinctions. *)
Ltac confine :=
  repeat first
    [ apply confined_ret | apply confined_raise | apply confined_observe
    | apply confined_the_handler | apply confined_the_df
    | solve [auto with confined]
    | apply confined_bind; [|intros]
    | apply confined_try_except; [|intros]
    | apply confined_emit; solve [reflexivity | auto with confined]
    | apply confined_update_handler; reflexivity
    | apply confined_update_df; reflexivity
    | match goal with
      | |- confined _ (match ?x with _ => _ end) => destruct x
      end
    | solve [auto with confined]
    | progress unfold py_index, py_getitem, py_get, py_mod, py_lt,
        response_json, log, sleep
    | progress cbv beta zeta ].

Section HandlerFootprints.

Variable W : World.
Variable fp : footprint.
Hypothesis wire_allowed : forall e, is_wire e = true -> may_emit fp e = true.

Lemma confined_urlopen (forcelist : list Z) (url auth : pystr) :
  forall total, confined fp (urlopen W total forcelist url auth).
Proof.
  induction total as [|b IH]; simpl; confine.
Qed.

Lemma confined_resolve_redirects (forcelist : list Z) (total : nat) :
  forall hops url auth,
    confined fp (resolve_redirects W hops total forcelist url auth).
Proof.
  induction hops as [|h IH]; intros url auth; simpl;
    destruct (preflight W url auth);
    try apply confined_raise;
    (apply confined_bind; [apply confined_urlopen|]);
    intros r; destruct (get_redirect_target r);
    try apply confined_ret; try apply confined_raise.
  apply IH.
Qed.

Lemma confined_send (forcelist : list Z) (url auth : pystr) :
  forall budget, confined fp (send W budget forcelist url auth).
Proof.
  intros budget. apply confined_resolve_redirects.
Qed.

Lemma confined_requests_retry_session_get (url auth : pystr) :
  confined fp (requests_retry_session_get W url auth).
Proof.
  unfold requests_retry_session_get.
  apply confined_bind; [confine|intros _; apply confined_send].
Qed.

Lemma confined_requests_get (url auth : pystr) :
  confined fp (requests_get W url auth).
Proof.
  unfold requests_get.
  apply confined_bind; [confine|intros _; apply confined_send].
Qed.

Lemma confined_get_headers : confined fp get_headers.
Proof.
  unfold get_headers. confine.
Qed.

Lemma confined_get_remaining_requests :
  confined fp (get_remaining_requests W).
Proof.
  unfold get_remaining_requests.
  apply confined_bind; [apply confined_get_headers|intros headers].
  cbv zeta.
  apply confined_bind; [apply confined_requests_retry_session_get|].
  intros response. confine.
Qed.

End HandlerFootprints.

#[export] Hint Resolve confined_send confined_requests_retry_session_get
  confined_requests_get confined_get_headers
  confined_get_remaining_requests : confined.

Lemma confined_check_and_switch_key (W : World) :
  confined handler_fp (check_and_switch_key W).
Proof.
  unfold check_and_switch_key. confine.
Qed.

Lemma confined_get_user_info_from_github_api (W : World) (who : pyval) :
  confined handler_fp (get_user_info_from_github_api W who).
Proof.
  unfold get_user_info_from_github_api, get_email_from_readme. confine.
Qed.

(** ** Counting events *)

Lemma count_app (p : event -> bool) (a b : history) :
  count p (a ++ b) = (count p a + count p b)%nat.
Proof.
  unfold count. now rewrite filter_app, length_app.
Qed.

Lemma count_none (p q : event -> bool) (evs : history) :
  (forall e, q e = true -> p e = false) ->
  forallb q evs = true -> count p evs = 0%nat.
Proof.
  intros Hpq. unfold count.
  induction evs as [|e evs IH]; simpl; [reflexivity|].
  intros H. apply andb_prop in H. destruct H as [He Hevs].
  rewrite (Hpq e He). auto.
Qed.

Lemma wire_no_cooldown (e : event) : is_wire e = true -> is_cooldown e = false.
Proof. destruct e; simpl; congruence. Qed.

Lemma wire_no_switch (e : event) : is_wire e = true -> is_switch e = false.
Proof. destruct e; simpl; congruence. Qed.

(** The probe leaves the handler and the table alone, sleeps no cooldown
    and switches no key. *)
Lemma probe_frame (W : World) (s : St) :
  let s1 := snd (get_remaining_requests W s) in
  handler s1 = handler s /\ df s1 = df s /\
  cooldowns (trace s1) = cooldowns (trace s) /\
  rotations (trace s1) = rotations (trace s).
Proof.
  destruct (@confined_get_remaining_requests W probe_fp
              (fun e H => H) s) as (Hh & Hd & evs & Ht & He).
  simpl. rewrite Hh, Hd, Ht by reflexivity.
  unfold cooldowns, rotations. rewrite !count_app.
  rewrite (count_none is_cooldown is_wire evs wire_no_cooldown He).
  rewrite (count_none is_switch is_wire evs wire_no_switch He).
  auto.
Qed.

(** ** Key rotation *)

Lemma failed_attempts_step (j : Z) :
  (if Z.leb 18 (j mod 18 + 1) then 0 else j mod 18 + 1)%Z
  = ((j + 1) mod 18)%Z.
Proof.
  destruct (Z.leb_spec 18 (j mod 18 + 1)); Z.div_mod_to_equations; lia.
Qed.

Lemma cooldowns_step (j : nat) :
  (j / 18 + (if Z.leb 18 (Z.of_nat j mod 18 + 1) then 1 else 0))%nat
  = (S j / 18)%nat.
Proof.
  apply Nat2Z.inj.
  rewrite Nat2Z.inj_add, !Nat2Z.inj_div, Nat2Z.inj_succ.
  destruct (Z.leb_spec 18 (Z.of_nat j mod 18 + 1)); simpl Z.of_nat;
    Z.div_mod_to_equations; lia.
Qed.

Section Rotation.

Variable W : World.

(** One call whose probe reports a low quota. *)
Lemma check_and_switch_key_low (s s1 : St) (v : pyval) :
  api_keys (handler s) <> [] ->
  get_remaining_requests W s = (Ok v, s1) ->
  reports_below v 10 ->
  exists s2,
    check_and_switch_key W s = (Ok tt, s2) /\
    api_keys (handler s2) = api_keys (handler s) /\
    current_key_index (handler s2)
    = ((current_key_index (handler s) + 1)
       mod Z.of_nat (List.length (api_keys (handler s))))%Z /\
    failed_attempts (handler s2)
    = (if Z.leb 18 (failed_attempts (handler s) + 1) then 0
       else failed_attempts (handler s) + 1)%Z /\
    cooldowns (trace s2)
    = (cooldowns (trace s)
       + if Z.leb 18 (failed_attempts (handler s) + 1) then 1 else 0)%nat /\
    rotations (trace s2) = S (rotations (trace s)) /\
    df s2 = df s.
Proof.
  intros Hkeys Hprobe Hlow.
  pose proof (probe_frame W s) as Hframe. rewrite Hprobe in Hframe.
  simpl in Hframe. destruct Hframe as (Hh & Hd & Hc & Hr).
  unfold check_and_switch_key, bind at 1. rewrite Hprobe.
  unfold bind at 1. simpl. unfold bind at 1. rewrite Hlow.
  unfold bind at 1. simpl. unfold py_mod.
  destruct (Z.eqb_spec (Z.of_nat (List.length (api_keys (handler s1)))) 0)
    as [E|_].
  { rewrite Hh in E. destruct (api_keys (handler s)); [congruence|].
    simpl in E. lia. }
  unfold bind, ret, update_handler, log, sleep, emit, the_handler. simpl.
  rewrite Z.geb_leb, Hh.
  destruct (Z.leb 18 (failed_attempts (handler s) + 1)); simpl;
    eexists; (split; [reflexivity|]); simpl;
    unfold cooldowns, rotations in *; rewrite !count_app; simpl;
    rewrite Hc, Hr, Hd; repeat split; auto; unfold count; simpl; lia.
Qed.

Lemma low_probe_step (keys : list pystr) (c0 j : nat) (s : St) :
  keys <> [] -> probe_always_low W ->
  after keys c0 j s ->
  exists s', check_and_switch_key W s = (Ok tt, s') /\
             after keys c0 (S j) s'.
Proof.
  intros Hkeys Hlow (Hk & Hi & Hf & Hc).
  assert (Hlen : (0 < Z.of_nat (List.length keys))%Z)
    by (destruct keys; [congruence|simpl; lia]).
  assert (Hhead : exists headers, get_headers s = (Ok headers, s)).
  { unfold get_headers, bind, the_handler, py_index. rewrite Hk, Hi.
    pose proof (Z.mod_pos_bound (Z.of_nat j) _ Hlen) as Hb.
    destruct (Z.ltb_spec (Z.of_nat j mod Z.of_nat (List.length keys)) 0);
      [lia|].
    destruct (Z.leb_spec 0 (Z.of_nat j mod Z.of_nat (List.length keys)));
      [|lia].
    destruct (Z.ltb_spec (Z.of_nat j mod Z.of_nat (List.length keys))
                (Z.of_nat (List.length keys))); [|lia].
    simpl. unfold ret. eauto. }
  destruct Hhead as (headers & Hhead).
  destruct (Hlow s headers Hhead) as (v & s1 & Hprobe & Hv).
  assert (Hne : api_keys (handler s) <> []) by congruence.
  destruct (@check_and_switch_key_low s s1 v Hne Hprobe Hv) as
    (s2 & Hrun & Hk2 & Hi2 & Hf2 & Hc2 & _).
  exists s2. split; [exact Hrun|]. unfold after.
  rewrite Hk2, Hi2, Hf2, Hc2, Hk, Hi, Hf, Hc.
  assert (Hn : (0 < Z.of_nat (List.length keys))%Z)
    by (destruct keys; [congruence|simpl; lia]).
  split; [reflexivity|]. split; [|split].
  - rewrite Nat2Z.inj_succ, Z.add_mod_idemp_l by lia. f_equal; lia.
  - rewrite failed_attempts_step. f_equal; lia.
  - rewrite <- cooldowns_step. lia.
Qed.

Lemma low_probes (keys : list pystr) (c0 : nat) :
  keys <> [] -> probe_always_low W ->
  forall k j s,
    after keys c0 j s ->
    exists s', repeat_call k (check_and_switch_key W) s = (Ok tt, s') /\
               after keys c0 (j + k) s'.
Proof.
  intros Hkeys Hlow.
  induction k as [|k IH]; intros j s Hs; simpl.
  - exists s. rewrite Nat.add_0_r. auto.
  - destruct (low_probe_step Hkeys Hlow Hs) as (s1 & Hrun & Hs1).
    unfold bind. rewrite Hrun.
    destruct (IH _ _ Hs1) as (s' & Hrest & Hs').
    exists s'. split; [exact Hrest|].
    now replace (j + S k)%nat with (S j + k)%nat by lia.
Qed.

(** After [k] low probes a fresh handler over [keys] is at index
    [k mod len], has [failed_attempts = k mod 18] and has slept the
    cooldown [k / 18] times. *)
Lemma rotation_after (keys : list pystr) (s0 : St) (k : nat) :
  keys <> [] -> probe_always_low W ->
  handler s0 = init keys ->
  exists s,
    repeat_call k (check_and_switch_key W) s0 = (Ok tt, s) /\
    current_key_index (handler s)
    = (Z.of_nat k mod Z.of_nat (List.length keys))%Z /\
    failed_attempts (handler s) = (Z.of_nat k mod 18)%Z /\
    cooldowns (trace s) = (cooldowns (trace s0) + k / 18)%nat.
Proof.
  intros Hkeys Hlow Hinit.
  destruct (@low_probes keys (cooldowns (trace s0)) Hkeys Hlow k 0%nat s0)
    as (s & Hrun & _ & Hi & Hf & Hc).
  { unfold after. rewrite Hinit. simpl. repeat split; auto. }
  exists s. auto.
Qed.

End Rotation.

Lemma low_world_always_low : probe_always_low low_world.
Proof.
  intros s headers Hh.
  unfold get_remaining_requests, bind at 1. rewrite Hh.
  eexists. eexists. split; [reflexivity|].
  intros st. reflexivity.
Qed.

(** C1: a call of [check_and_switch_key] whose probe reports a value below
    10 moves the key index one step round the pool and adds one to
    [failed_attempts]; when that makes 18, the 3900-second cooldown is
    slept and [failed_attempts] restarts at 0.  With two keys and a probe
    that is always low, the index alternates, and the first 18 rotations
    sleep the cooldown exactly once, at the eighteenth. *)
Theorem check_and_switch_key_rotation :
  (forall (W : World) (s s1 : St) (v : pyval),
      api_keys (handler s) <> [] ->
      get_remaining_requests W s = (Ok v, s1) ->
      reports_below v 10 ->
      exists s2,
        check_and_switch_key W s = (Ok tt, s2) /\
        api_keys (handler s2) = api_keys (handler s) /\
        current_key_index (handler s2)
        = ((current_key_index (handler s) + 1)
           mod Z.of_nat (List.length (api_keys (handler s))))%Z /\
        failed_attempts (handler s2)
        = (if Z.leb 18 (failed_attempts (handler s) + 1) then 0
           else failed_attempts (handler s) + 1)%Z /\
        cooldowns (trace s2)
        = (cooldowns (trace s)
           + if Z.leb 18 (failed_attempts (handler s) + 1) then 1 else 0)%nat)
  /\
  (forall (W : World) (key1 key2 : pystr) (s0 : St) (k : nat),
      probe_always_low W ->
      handler s0 = init [key1; key2] ->
      (k <= 18)%nat ->
      exists s,
        repeat_call k (check_and_switch_key W) s0 = (Ok tt, s) /\
        current_key_index (handler s) = (Z.of_nat k mod 2)%Z /\
        failed_attempts (handler s)
        = (if Nat.eqb k 18 then 0 else Z.of_nat k)%Z /\
        cooldowns (trace s)
        = (cooldowns (trace s0) + if Nat.eqb k 18 then 1 else 0)%nat).
Proof.
  split.
  - intros W s s1 v Hkeys Hprobe Hlow.
    destruct (@check_and_switch_key_low W s s1 v Hkeys Hprobe Hlow)
      as (s2 & H1 & H2 & H3 & H4 & H5 & _).
    exists s2. auto.
  - intros W key1 key2 s0 k Hlow Hinit Hk.
    destruct (@rotation_after W [key1; key2] s0 k ltac:(discriminate)
                Hlow Hinit) as (s & Hrun & Hi & Hf & Hc).
    exists s. split; [exact Hrun|]. split; [exact Hi|].
    rewrite Hf, Hc.
    destruct (Nat.eqb_spec k 18) as [->|Hne]; [split; reflexivity|].
    rewrite Z.mod_small by lia. rewrite Nat.div_small by lia. auto.
Qed.

Lemma check_and_switch_key_rotation_witness :
  (exists s2,
      check_and_switch_key low_world (fresh [u "k1"; u "k2"]) = (Ok tt, s2) /\
      current_key_index (handler s2) = 1%Z /\
      failed_attempts (handler s2) = 1%Z) /\
  (exists s,
      repeat_call 18 (check_and_switch_key low_world) (fresh [u "k1"; u "k2"])
      = (Ok tt, s) /\
      current_key_index (handler s) = 0%Z /\
      failed_attempts (handler s) = 0%Z /\
      cooldowns (trace s) = 1%nat).
Proof.
  split.
  - destruct (proj1 check_and_switch_key_rotation low_world
                (fresh [u "k1"; u "k2"]) _ (PInt 3)
                ltac:(discriminate) eq_refl ltac:(intro; reflexivity))
      as (s2 & Hrun & _ & Hi & Hf & _).
    exists s2. auto.
  - destruct (proj2 check_and_switch_key_rotation low_world
                (u "k1") (u "k2") (fresh [u "k1"; u "k2"]) 18%nat
                low_world_always_low eq_refl ltac:(lia))
      as (s & Hrun & Hi & Hf & Hc).
    exists s. auto.
Defined.

(** ** Quota recovery *)

Lemma py_lt_state (v : pyval) (n : Z) (st st' : St) (r : res bool) :
  py_lt v n st = (r, st') -> st' = st.
Proof.
  destruct v; simpl; unfold ret, raise; congruence.
Qed.

Section Recovery.

Variable W : World.

(** Whatever the world answers, a call either leaves the handler as it
    was, switching no key and sleeping no cooldown, or it switches once. *)
Lemma check_and_switch_key_effect (s : St) :
  let s' := snd (check_and_switch_key W s) in
  let incremented := (failed_attempts (handler s) + 1)%Z in
  (handler s' = handler s /\
   rotations (trace s') = rotations (trace s) /\
   cooldowns (trace s') = cooldowns (trace s)) \/
  (failed_attempts (handler s')
   = (if Z.leb 18 incremented then 0 else incremented)%Z /\
   rotations (trace s') = S (rotations (trace s)) /\
   cooldowns (trace s')
   = (cooldowns (trace s) + if Z.leb 18 incremented then 1 else 0)%nat).
Proof.
  cbv zeta.
  pose proof (probe_frame W s) as Hframe.
  destruct (check_and_switch_key W s) as [r s'] eqn:E. simpl.
  unfold check_and_switch_key, bind at 1 in E.
  destruct (get_remaining_requests W s) as [[v|e] s1]; simpl in Hframe;
    destruct Hframe as (Hh & _ & Hc & Hr).
  2:{ injection E as <- <-. left. auto. }
  unfold rotations, cooldowns in *.
  unfold bind at 1 in E. simpl in E. unfold bind at 1 in E.
  assert (Hquiet : forall st : St,
             handler st = handler s1 ->
             trace st = trace s1 ++ [ELog INFO (LRemaining v)] ->
             handler st = handler s /\
             count is_switch (trace st) = count is_switch (trace s) /\
             count is_cooldown (trace st) = count is_cooldown (trace s)).
  { intros st Hst Htr. rewrite Hst, Htr, Hh, !count_app, Hr, Hc.
    unfold count at 2 4. simpl. auto. }
  destruct (py_lt v 10 _) as [[[|]|e] s2] eqn:Elt.
  - assert (Es2 : s2 = snd (log INFO (LRemaining v) s1))
      by exact (py_lt_state _ _ _ Elt).
    subst s2. clear Elt.
    unfold bind, the_handler, py_mod, update_handler, log, sleep, emit, ret
      in E. simpl in E.
    destruct (Z.eqb (Z.of_nat (List.length (api_keys (handler s1)))) 0).
    { injection E as <- <-. left. apply Hquiet; reflexivity. }
    simpl in E. rewrite Z.geb_leb, Hh in E.
    destruct (Z.leb 18 (failed_attempts (handler s) + 1));
      injection E as <- <-; right; simpl; rewrite !count_app, Hr, Hc;
      unfold count; simpl; repeat split; lia.
  - assert (Es2 : s2 = snd (log INFO (LRemaining v) s1))
      by exact (py_lt_state _ _ _ Elt).
    subst s2. injection E as <- <-. left. apply Hquiet; reflexivity.
  - assert (Es2 : s2 = snd (log INFO (LRemaining v) s1))
      by exact (py_lt_state _ _ _ Elt).
    subst s2. injection E as <- <-. left. apply Hquiet; reflexivity.
Qed.

Lemma counted_check_and_switch_key (s : St) :
  counted s -> counted (snd (check_and_switch_key W s)).
Proof.
  unfold counted. intros [Hf Hc].
  destruct (check_and_switch_key_effect s)
    as [(Hh & Hr & Hc') | (Hf' & Hr' & Hc')].
  - rewrite Hh, Hr, Hc'. auto.
  - rewrite Hf', Hr', Hc', Hf, Hc. split.
    + rewrite failed_attempts_step. f_equal. lia.
    + apply cooldowns_step.
Qed.

Lemma counted_repeat_call :
  forall k s, counted s ->
              counted (snd (repeat_call k (check_and_switch_key W) s)).
Proof.
  induction k as [|k IH]; intros s Hs; simpl; [exact Hs|].
  pose proof (counted_check_and_switch_key Hs) as Hstep.
  unfold bind.
  destruct (check_and_switch_key W s) as [[[]|e] s']; simpl in *; auto.
Qed.

(** A probe that finds enough quota changes nothing in the handler. *)
Lemma check_and_switch_key_recovered (s s1 : St) (v : pyval) :
  get_remaining_requests W s = (Ok v, s1) ->
  reports_at_least v 10 ->
  exists s2,
    check_and_switch_key W s = (Ok tt, s2) /\
    handler s2 = handler s /\
    rotations (trace s2) = rotations (trace s) /\
    cooldowns (trace s2) = cooldowns (trace s).
Proof.
  intros Hprobe Hhigh.
  pose proof (probe_frame W s) as Hframe. rewrite Hprobe in Hframe.
  simpl in Hframe. destruct Hframe as (Hh & _ & Hc & Hr).
  unfold check_and_switch_key, bind at 1. rewrite Hprobe.
  unfold bind at 1. simpl. unfold bind at 1. rewrite Hhigh.
  eexists. split; [reflexivity|]. simpl.
  unfold rotations, cooldowns in *. rewrite !count_app, Hc, Hr.
  unfold count at 2 4. simpl. auto.
Qed.

End Recovery.

(** C4, as amended: [failed_attempts] counts the key switches since the
    start or the last cooldown, that is, all switches modulo 18.  A probe
    that finds at least 10 remaining requests leaves [failed_attempts] and
    the key index as they are; it resets nothing, so switches before and
    after a recovery add up towards the cooldown. *)
Theorem failed_attempts_counts_rotations :
  (forall (W : World) (s s1 : St) (v : pyval),
      get_remaining_requests W s = (Ok v, s1) ->
      reports_at_least v 10 ->
      exists s2,
        check_and_switch_key W s = (Ok tt, s2) /\
        handler s2 = handler s /\
        rotations (trace s2) = rotations (trace s) /\
        cooldowns (trace s2) = cooldowns (trace s)) /\
  (forall (W : World) (keys : list pystr) (k : nat),
      let s := snd (repeat_call k (check_and_switch_key W) (fresh keys)) in
      failed_attempts (handler s)
      = (Z.of_nat (rotations (trace s)) mod 18)%Z /\
      cooldowns (trace s) = (rotations (trace s) / 18)%nat).
Proof.
  split.
  - intros W s s1 v. apply check_and_switch_key_recovered.
  - intros W keys k. apply counted_repeat_call.
    split; reflexivity.
Qed.

Lemma failed_attempts_counts_rotations_witness :
  exists s2,
    check_and_switch_key alice_world (fresh [u "k1"; u "k2"]) = (Ok tt, s2) /\
    handler s2 = init [u "k1"; u "k2"].
Proof.
  destruct (proj1 failed_attempts_counts_rotations alice_world
              (fresh [u "k1"; u "k2"]) _ (PInt 5000)
              eq_refl ltac:(intro; reflexivity))
    as (s2 & Hrun & Hh & _).
  exists s2. split; [exact Hrun|exact Hh].
Defined.

(** C4, as stated, fails: seventeen exhausted probes, then a probe that
    finds the quota recovered, then one more exhausted probe.  The
    recovery leaves [failed_attempts] at 17, and the single switch after
    it triggers the cooldown. *)
Lemma failed_attempts_survive_recovery :
  let run k := snd (repeat_call k (check_and_switch_key recovery_world)
                      (fresh [u "k1"; u "k2"])) in
  failed_attempts (handler (run 17%nat)) = 17%Z /\
  failed_attempts (handler (run 18%nat)) = 17%Z /\
  rotations (trace (run 18%nat)) = 17%nat /\
  cooldowns (trace (run 18%nat)) = 0%nat /\
  rotations (trace (run 19%nat)) = 18%nat /\
  cooldowns (trace (run 19%nat)) = 1%nat.
Proof. vm_compute. repeat split. Qed.

(** ** The HTTP client *)

Section Client.

Variable W : World.
Variable forcelist : list Z.

(** One attempt of [urlopen]. *)
Lemma urlopen_step (total : nat) (url auth : pystr) (s : St) :
  let s1 := {| handler := handler s; df := df s;
               trace := trace s ++ [EAttempt url auth] |} in
  urlopen W total forcelist url auth s
  = match wire W (trace s1) url auth with
    | Answer r =>
        if is_retry total forcelist r then
          match total with
          | S rest => urlopen W rest forcelist url auth s1
          | O => (Raise RetryError, s1)
          end
        else (Ok r, s1)
    | Abort e => (Raise e, s1)
    | _ =>
        match total with
        | S rest => urlopen W rest forcelist url auth s1
        | O => (Raise ConnectionError, s1)
        end
    end.
Proof.
  cbv zeta. cbn [trace].
  destruct total; simpl; unfold bind, emit, observe; simpl;
    destruct (wire W (trace s ++ [EAttempt url auth]) url auth)
      as [| |r|e]; try reflexivity;
    destruct (is_retry _ forcelist r); reflexivity.
Qed.

(** One request through [urlopen]: between one and [total + 1] attempts,
    all for the same URL.  A response that is returned is the answer to
    the last attempt and was not to be retried; an exception is the one
    that the last attempt raised, or marks the end of the budget. *)
Lemma urlopen_outcome (url auth : pystr) :
  forall total s,
    let r := urlopen W total forcelist url auth s in
    handler (snd r) = handler s /\ df (snd r) = df s /\
    exists k,
      (1 <= k <= S total)%nat /\
      trace (snd r) = trace s ++ repeat (EAttempt url auth) k /\
      (forall resp, fst r = Ok resp ->
         is_retry (S total - k) forcelist resp = false /\
         wire W (trace (snd r)) url auth = Answer resp) /\
      (forall e, fst r = Raise e ->
         wire W (trace (snd r)) url auth = Abort e \/
         (k = S total /\ (e = RetryError \/ e = ConnectionError))).
Proof.
  assert (Hone : forall total s (out : res Response),
    let s1 := {| handler := handler s; df := df s;
                 trace := trace s ++ [EAttempt url auth] |} in
    (forall resp, out = Ok resp ->
       is_retry total forcelist resp = false /\
       wire W (trace s1) url auth = Answer resp) ->
    (forall e, out = Raise e ->
       wire W (trace s1) url auth = Abort e \/
       (0%nat = total /\ (e = RetryError \/ e = ConnectionError))) ->
    handler (snd (out, s1)) = handler s /\ df (snd (out, s1)) = df s /\
    exists k,
      (1 <= k <= S total)%nat /\
      trace (snd (out, s1)) = trace s ++ repeat (EAttempt url auth) k /\
      (forall resp, fst (out, s1) = Ok resp ->
         is_retry (S total - k) forcelist resp = false /\
         wire W (trace (snd (out, s1))) url auth = Answer resp) /\
      (forall e, fst (out, s1) = Raise e ->
         wire W (trace (snd (out, s1))) url auth = Abort e \/
         (k = S total /\ (e = RetryError \/ e = ConnectionError)))).
  { intros total s out s1 Hok Hraise. cbn [fst snd]. subst s1.
    cbn [handler df trace] in *.
    split; [reflexivity|]. split; [reflexivity|].
    exists 1%nat. split; [lia|]. split; [reflexivity|].
    replace (S total - 1)%nat with total by lia.
    split; [exact Hok|].
    intros e He. destruct (Hraise e He) as [Ha|[<- Hor]]; auto. }
  induction total as [|b IH]; intros s; cbv zeta; rewrite urlopen_step;
    cbv zeta; cbn [trace].
  - destruct (wire W (trace s ++ [EAttempt url auth]) url auth)
      as [| |resp|e] eqn:Hw;
      try destruct (is_retry 0 forcelist resp) eqn:Hr;
      apply Hone; intros x Hx; try discriminate; injection Hx as <-; auto.
  - set (s1 := {| handler := handler s; df := df s;
                  trace := trace s ++ [EAttempt url auth] |}).
    assert (Hretry :
      let r := urlopen W b forcelist url auth s1 in
      handler (snd r) = handler s /\ df (snd r) = df s /\
      exists k,
        (1 <= k <= S (S b))%nat /\
        trace (snd r) = trace s ++ repeat (EAttempt url auth) k /\
        (forall resp, fst r = Ok resp ->
           is_retry (S (S b) - k) forcelist resp = false /\
           wire W (trace (snd r)) url auth = Answer resp) /\
        (forall e, fst r = Raise e ->
           wire W (trace (snd r)) url auth = Abort e \/
           (k = S (S b) /\ (e = RetryError \/ e = ConnectionError)))).
    { cbv zeta. destruct (IH s1) as (Hh & Hd & k & Hk & Ht & Hok & Hraise).
      split; [exact Hh|]. split; [exact Hd|].
      exists (S k). split; [lia|]. split.
      { rewrite Ht. subst s1. cbn [trace]. rewrite <- app_assoc.
        reflexivity. }
      split.
      - intros resp H. replace (S (S b) - S k)%nat with (S b - k)%nat by lia.
        apply Hok. exact H.
      - intros e H. destruct (Hraise e H) as [Ha|[-> He]]; [left; exact Ha|].
        right. split; [reflexivity|exact He]. }
    destruct (wire W (trace s ++ [EAttempt url auth]) url auth)
      as [| |resp|e] eqn:Hw; try exact Hretry.
    + destruct (is_retry (S b) forcelist resp) eqn:Hr; [exact Hretry|].
      apply Hone; intros x Hx; try discriminate; injection Hx as <-; auto.
    + apply Hone; intros x Hx; try discriminate; injection Hx as <-; auto.
Qed.

Lemma is_retry_forcelist (total : nat) (r : Response) :
  is_retry total forcelist r = false ->
  existsb (Z.eqb (status_code r)) forcelist = false.
Proof.
  unfold is_retry. intros H. apply orb_false_iff in H. apply H.
Qed.

Lemma forallb_repeat_attempt (url auth : pystr) (k : nat) :
  forallb is_attempt (repeat (EAttempt url auth) k) = true.
Proof. induction k; simpl; auto. Qed.

Lemma repeat_attempt_last (url auth : pystr) (k : nat) :
  repeat (EAttempt url auth) (S k)
  = repeat (EAttempt url auth) k ++ [EAttempt url auth].
Proof. induction k; simpl; [reflexivity|]. now f_equal. Qed.

(** One hop of [resolve_redirects]. *)
Lemma resolve_redirects_step (hops total : nat) (url auth : pystr)
    (s : St) :
  resolve_redirects W hops total forcelist url auth s
  = match preflight W url auth with
    | Some e => (Raise e, s)
    | None =>
        match urlopen W total forcelist url auth s with
        | (Raise e, s1) => (Raise e, s1)
        | (Ok r, s1) =>
            match get_redirect_target r with
            | None => (Ok r, s1)
            | Some target =>
                match hops with
                | S rest =>
                    resolve_redirects W rest total forcelist
                      (fst (next_hop W url auth target))
                      (snd (next_hop W url auth target)) s1
                | O => (Raise TooManyRedirects, s1)
                end
            end
        end
    end.
Proof.
  destruct hops; simpl; destruct (preflight W url auth); try reflexivity;
    unfold bind; destruct (urlopen W total forcelist url auth s)
      as [[r|e] s1]; try reflexivity;
    destruct (get_redirect_target r); reflexivity.
Qed.

(** A GET with redirects followed: at most [hops + 1] requests of at most
    [total + 1] attempts each, and nothing but attempts.  A response that
    is returned is the answer to the last attempt; its status is not on
    the forcelist and it is no redirect that could be followed. *)
Lemma resolve_redirects_outcome (total : nat) :
  forall hops url auth s,
    let r := resolve_redirects W hops total forcelist url auth s in
    handler (snd r) = handler s /\ df (snd r) = df s /\
    exists evs,
      trace (snd r) = trace s ++ evs /\
      forallb is_attempt evs = true /\
      (List.length evs <= S hops * S total)%nat /\
      (forall resp, fst r = Ok resp ->
         existsb (Z.eqb (status_code resp)) forcelist = false /\
         get_redirect_target resp = None /\
         exists pre url' auth',
           evs = pre ++ [EAttempt url' auth'] /\
           wire W (trace (snd r)) url' auth' = Answer resp).
Proof.
  induction hops as [|h IH]; intros url auth s; cbv zeta;
    rewrite resolve_redirects_step;
    (destruct (preflight W url auth) as [e|];
     [ cbn [fst snd]; split; [reflexivity|]; split; [reflexivity|];
       exists []; rewrite app_nil_r; split; [reflexivity|];
       split; [reflexivity|]; split; [simpl; lia|]; discriminate |]);
    pose proof (urlopen_outcome url auth total s) as Hopen;
    cbv zeta in Hopen;
    destruct (urlopen W total forcelist url auth s) as [[r|e] s1];
    cbn [fst snd] in Hopen;
    destruct Hopen as (Hh & Hd & k & Hk & Ht & Hok & _).
  - destruct (get_redirect_target r) eqn:Hr; cbn [fst snd];
      (split; [exact Hh|]); (split; [exact Hd|]);
      exists (repeat (EAttempt url auth) k);
      (split; [exact Ht|]);
      (split; [apply forallb_repeat_attempt|]);
      (split; [rewrite repeat_length; lia|]);
      intros resp Hresp; [discriminate|].
    injection Hresp as <-. destruct (Hok r eq_refl) as [Hretry Hw].
    split; [exact (is_retry_forcelist _ _ Hretry)|]. split; [exact Hr|].
    destruct k as [|k]; [lia|].
    exists (repeat (EAttempt url auth) k), url, auth.
    split; [apply repeat_attempt_last|exact Hw].
  - cbn [fst snd]. split; [exact Hh|]. split; [exact Hd|].
    exists (repeat (EAttempt url auth) k).
    split; [exact Ht|]. split; [apply forallb_repeat_attempt|].
    split; [rewrite repeat_length; lia|]. discriminate.
  - destruct (get_redirect_target r) as [target|] eqn:Hr.
    + specialize (IH (fst (next_hop W url auth target))
                     (snd (next_hop W url auth target)) s1).
      cbv zeta in IH.
      destruct IH as (Hh2 & Hd2 & evs & Ht2 & Hall & Hlen & Hok2).
      split; [congruence|]. split; [congruence|].
      exists (repeat (EAttempt url auth) k ++ evs).
      split; [rewrite Ht2, Ht; now rewrite app_assoc|].
      split; [rewrite forallb_app, forallb_repeat_attempt; exact Hall|].
      split; [rewrite length_app, repeat_length; simpl in *; lia|].
      intros resp Hresp.
      destruct (Hok2 resp Hresp) as (Hf & Hnone & pre & u' & a' & -> & Hw).
      split; [exact Hf|]. split; [exact Hnone|].
      exists (repeat (EAttempt url auth) k ++ pre), u', a'.
      split; [now rewrite app_assoc|exact Hw].
    + cbn [fst snd]. split; [exact Hh|]. split; [exact Hd|].
      exists (repeat (EAttempt url auth) k).
      split; [exact Ht|]. split; [apply forallb_repeat_attempt|].
      split; [rewrite repeat_length; simpl; lia|].
      intros resp Hresp. injection Hresp as <-.
      destruct (Hok r eq_refl) as [Hretry Hw].
      split; [exact (is_retry_forcelist _ _ Hretry)|]. split; [exact Hr|].
      destruct k as [|k]; [lia|].
      exists (repeat (EAttempt url auth) k), url, auth.
      split; [apply repeat_attempt_last|exact Hw].
  - cbn [fst snd]. split; [exact Hh|]. split; [exact Hd|].
    exists (repeat (EAttempt url auth) k).
    split; [exact Ht|]. split; [apply forallb_repeat_attempt|].
    split; [rewrite repeat_length; simpl; lia|]. discriminate.
Qed.

End Client.

(** ** The README request *)

(** C3 fails on the code: for user [alice], whose profile has no email,
    the README is requested through the plain client.  Its host answers
    the first attempt with 502; the attempt is not repeated and the
    fetcher returns nothing, while the same request through
    [requests_retry_session] obtains the document at the second attempt. *)
Theorem readme_request_is_not_retried :
  let s0 := fresh [u "k1"] in
  let url := readme_url (u "alice") in
  let auth := u "token k1" in
  let r := get_user_info_from_github_api flaky_readme_world
             (PStr (u "https://github.com/alice")) s0 in
  fst r = Ok PNone /\
  filter is_get (trace (snd r))
  = [EGet Resilient rate_limit_url auth;
     EGet Resilient (users_url (u "alice")) auth;
     EGet Bare url auth] /\
  count (is_attempt_at url) (trace (snd r)) = 1%nat /\
  fst (requests_retry_session_get flaky_readme_world url auth s0)
  = Ok {| status_code := 200; text := readme_text; json := None;
          location := None; retry_after := false |}.
Proof. vm_compute. repeat split. Qed.

(** ** The profile fetcher *)

Lemma truthy_str (e : pystr) : truthy (PStr e) = true <-> e <> [].
Proof. destruct e; simpl; split; congruence. Qed.

(** The fetcher is its first half followed by the decision on the
    response. *)
Lemma get_user_info_after_request (W : World) (name headers : pystr)
    (resp : Response) (s s3 : St) :
  profile_request W name s = (Ok (headers, resp), s3) ->
  get_user_info_from_github_api W (PStr name) s
  = (if negb (Z.eqb (status_code resp) 200) then
       log INFO (LFetchFailed (PStr name) (status_code resp)) ;;
       ret PNone
     else
       user_data <- response_json resp ;;
       email <- py_get user_data (u "email") (PStr []) ;;
       if truthy email then ret email
       else get_email_from_readme W (username_of name) headers)%py s3.
Proof.
  unfold profile_request, get_user_info_from_github_api, bind.
  destruct (check_and_switch_key W s) as [[[]|e] s1]; [|discriminate].
  destruct (get_headers s1) as [[h|e] s2]; [|discriminate].
  simpl.
  destruct (requests_retry_session_get W _ h _) as [[r|e] s4];
    [|discriminate].
  unfold ret. intros H. injection H as <- <- <-. reflexivity.
Qed.

(** What the first half raises, the fetcher raises. *)
Lemma get_user_info_request_raises (W : World) (name : pystr) (e : exn)
    (s s3 : St) :
  profile_request W name s = (Raise e, s3) ->
  get_user_info_from_github_api W (PStr name) s = (Raise e, s3).
Proof.
  unfold profile_request, get_user_info_from_github_api, bind.
  destruct (check_and_switch_key W s) as [[[]|e1] s1];
    [|intros H; injection H as <- <-; reflexivity].
  destruct (get_headers s1) as [[h|e2] s2];
    [|intros H; injection H as <- <-; reflexivity].
  simpl.
  destruct (requests_retry_session_get W _ h _) as [[r|e3] s4];
    [discriminate|intros H; injection H as <- <-; reflexivity].
Qed.

(** A response that [requests_retry_session] hands back never has a
    status of the forcelist: such a status is either followed by another
    attempt or ends in [RetryError]. *)
Lemma retry_session_status (W : World) (url auth : pystr) (resp : Response)
    (s s' : St) :
  requests_retry_session_get W url auth s = (Ok resp, s') ->
  ~ In (status_code resp) [500; 502; 504]%Z.
Proof.
  unfold requests_retry_session_get, bind at 1, emit. cbv beta iota.
  unfold send. intros H.
  pose proof (@resolve_redirects_outcome W status_forcelist retries
                max_redirects url auth
                {| handler := handler s; df := df s;
                   trace := trace s ++ [EGet Resilient url auth] |}) as Hout.
  cbv zeta in Hout. rewrite H in Hout. cbn [fst snd] in Hout.
  destruct Hout as (_ & _ & evs & _ & _ & _ & Hok).
  destruct (Hok resp eq_refl) as (Hf & _).
  unfold status_forcelist in Hf. simpl in Hf.
  rewrite !orb_false_iff, !Z.eqb_neq in Hf. simpl. intuition.
Qed.

Lemma profile_request_status (W : World) (name headers : pystr)
    (resp : Response) (s s3 : St) :
  profile_request W name s = (Ok (headers, resp), s3) ->
  ~ In (status_code resp) [500; 502; 504]%Z.
Proof.
  unfold profile_request, bind.
  destruct (check_and_switch_key W s) as [[[]|e] s1]; [|discriminate].
  destruct (get_headers s1) as [[h|e] s2]; [|discriminate].
  simpl.
  destruct (requests_retry_session_get W _ h _) as [[r|e] s4] eqn:Hget;
    [|discriminate].
  unfold ret. intros H. injection H as <- <- <-.
  exact (@retry_session_status W _ _ _ _ _ Hget).
Qed.

(** C5, as amended.  The fetcher first checks the key and requests the
    profile through the retrying session; an exception of that first half
    is raised to the caller, and a profile answered 500, 502 or 504 is
    never returned as a response, so it never yields "no result".  Once a
    response is there, the fetcher returns nothing, without raising, when
    the status is not 200.  With status 200 it raises [JSONDecodeError]
    for a body that is not JSON and [AttributeError] for JSON that is not
    an object; it returns the email field of the payload when the field
    is present and truthy; otherwise it hands over to the README request,
    and returns the extractor's result on the text of a 200 answer,
    nothing on any other answer, and raises what that request raises. *)
Theorem get_user_info_result (W : World) (name : pystr) (s : St) :
  (forall e s3,
      profile_request W name s = (Raise e, s3) ->
      get_user_info_from_github_api W (PStr name) s = (Raise e, s3)) /\
  (forall headers resp s3,
      profile_request W name s = (Ok (headers, resp), s3) ->
      ~ In (status_code resp) [500; 502; 504]%Z /\
      (status_code resp <> 200%Z ->
       exists s4,
         get_user_info_from_github_api W (PStr name) s = (Ok PNone, s4)) /\
      (status_code resp = 200%Z ->
       (json resp = None ->
        get_user_info_from_github_api W (PStr name) s
        = (Raise JSONDecodeError, s3)) /\
       (forall v, json resp = Some v -> (forall d, v <> PDict d) ->
          get_user_info_from_github_api W (PStr name) s
          = (Raise AttributeError, s3)) /\
       (forall d, json resp = Some (PDict d) ->
          (forall e, lookup (u "email") d = Some (PStr e) -> e <> [] ->
             get_user_info_from_github_api W (PStr name) s
             = (Ok (PStr e), s3)) /\
          (forall v, lookup (u "email") d = Some v -> truthy v = true ->
             get_user_info_from_github_api W (PStr name) s = (Ok v, s3)) /\
          (lookup (u "email") d = None \/
           (exists v, lookup (u "email") d = Some v /\ truthy v = false) ->
           get_user_info_from_github_api W (PStr name) s
           = get_email_from_readme W (username_of name) headers s3 /\
           (forall r2 s4,
              requests_get W (readme_url (username_of name)) headers s3
              = (Ok r2, s4) ->
              get_user_info_from_github_api W (PStr name) s
              = (Ok (if Z.eqb (status_code r2) 200
                     then py_of_option
                            (extract_email (unicode_alnum W) (text r2))
                     else PNone), s4)) /\
           (forall e s4,
              requests_get W (readme_url (username_of name)) headers s3
              = (Raise e, s4) ->
              get_user_info_from_github_api W (PStr name) s
              = (Raise e, s4)))))).
Proof.
  split; [intros e s3; apply get_user_info_request_raises|].
  intros headers resp s3 Hreq.
  split; [exact (@profile_request_status W name headers resp s s3 Hreq)|].
  rewrite (@get_user_info_after_request W name headers resp s s3 Hreq).
  split.
  - intros Hstatus.
    destruct (Z.eqb_spec (status_code resp) 200) as [E|_]; [contradiction|].
    simpl. eexists. reflexivity.
  - intros Hstatus. rewrite Hstatus. simpl.
    unfold response_json. split; [|split].
    + intros ->. reflexivity.
    + intros v -> Hv. unfold bind, ret, py_get, raise.
      destruct v; try reflexivity. exfalso. exact (Hv d eq_refl).
    + intros d Hjson. rewrite Hjson.
      assert (Htruthy : forall v, lookup (u "email") d = Some v ->
                                  truthy v = true ->
                (user_data <- ret (PDict d) ;;
                 email <- py_get user_data (u "email") (PStr []) ;;
                 if truthy email then ret email
                 else get_email_from_readme W (username_of name) headers)%py
                  s3
                = (Ok v, s3)).
      { intros v Hv Ht. unfold bind, ret, py_get. rewrite Hv. simpl.
        rewrite Ht. reflexivity. }
      split; [|split].
      * intros e He Hne. apply Htruthy; [exact He|].
        now apply truthy_str.
      * exact Htruthy.
      * intros Hempty.
        assert (Hreadme :
          (user_data <- ret (PDict d) ;;
           email <- py_get user_data (u "email") (PStr []) ;;
           if truthy email then ret email
           else get_email_from_readme W (username_of name) headers)%py s3
          = get_email_from_readme W (username_of name) headers s3).
        { unfold bind at 1 2, ret at 1, py_get.
          destruct Hempty as [Hnone | (v & Hv & Hf)].
          - rewrite Hnone. reflexivity.
          - rewrite Hv. unfold ret at 1. simpl. now rewrite Hf. }
        rewrite Hreadme. split; [reflexivity|]. split.
        -- intros r2 s4 Hget. unfold get_email_from_readme, bind.
           rewrite Hget. destruct (Z.eqb (status_code r2) 200); reflexivity.
        -- intros e s4 Hget. unfold get_email_from_readme, bind.
           rewrite Hget. reflexivity.
Qed.

Lemma get_user_info_result_witness :
  get_user_info_from_github_api alice_world
    (PStr (u "https://github.com/alice")) (fresh [u "k1"])
  = get_email_from_readme alice_world (u "alice") (u "token k1")
      (snd (profile_request alice_world (u "https://github.com/alice")
              (fresh [u "k1"]))) /\
  fst (get_user_info_from_github_api alice_world
         (PStr (u "https://github.com/alice")) (fresh [u "k1"]))
  = Ok (PStr (u "alice@example.com")).
Proof.
  destruct (@get_user_info_result alice_world
              (u "https://github.com/alice") (fresh [u "k1"])) as [_ H].
  destruct (H (u "token k1") (response_200 (profile_payload (PStr []))) _
              eq_refl) as (_ & _ & H200).
  destruct (H200 eq_refl) as (_ & _ & Hdict).
  destruct (Hdict _ eq_refl) as (_ & _ & Hreadme).
  destruct (Hreadme (or_intror (ex_intro _ (PStr [])
                                  (conj eq_refl eq_refl))))
    as (E & Hget & _).
  split; [exact E|].
  rewrite (Hget _ _ eq_refl). reflexivity.
Defined.

(** C5, as stated, fails: the profile of [alice] is answered with 502 on
    each of the four attempts that the retrying session makes, and the
    fetcher raises [RetryError] where the claim has it return nothing. *)
Lemma profile_error_is_raised :
  let r := get_user_info_from_github_api unavailable_profile_world
             (PStr (u "https://github.com/alice")) (fresh [u "k1"]) in
  fst r = Raise RetryError /\
  count (is_attempt_at (users_url (u "alice"))) (trace (snd r)) = 4%nat /\
  filter is_log (trace (snd r)) = [ELog INFO (LRemaining (PInt 5000))].
Proof. vm_compute. repeat split. Qed.

(** ** The driver loops *)

Lemma iterrows_rows (P : Row -> Prop) (rows : list Row) :
  Forall P rows -> Forall (fun ir => P (snd ir)) (iterrows rows).
Proof.
  intros H. apply Forall_forall. intros [i r] Hin. simpl.
  rewrite Forall_forall in H. apply H.
  eapply in_combine_r. exact Hin.
Qed.

Lemma network_calls_idle (s s' : St) :
  within idle_fp s s' -> network_calls (trace s') = network_calls (trace s).
Proof.
  intros (_ & _ & evs & -> & Hevs). unfold network_calls.
  rewrite count_app.
  rewrite (@count_none is_network (fun e => negb (is_network e)) evs);
    [lia| |exact Hevs].
  intros e He. now destruct (is_network e).
Qed.

Section Loops.

Variable W : World.
Variable start_time : Z.

(** A pass over rows that are all done stays off the network and changes
    neither the table nor the handler. *)
Lemma confined_GHES_done (rows : list (nat * Row)) :
  Forall (fun ir => is_Done (Status (snd ir)) = true) rows ->
  confined idle_fp (GHES.main_loop W start_time rows).
Proof.
  induction 1 as [|[index row] rows Hrow _ IH]; simpl in *.
  - apply confined_ret.
  - rewrite Hrow. unfold now. confine.
Qed.

Lemma confined_Cloud02_done (rows : list (nat * Row)) :
  Forall (fun ir => is_Done (Status (snd ir)) = true) rows ->
  confined idle_fp (Cloud02.main_loop W start_time rows).
Proof.
  induction 1 as [|[index row] rows Hrow _ IH]; simpl in *.
  - apply confined_ret.
  - rewrite Hrow. unfold now, Cloud02.to_csv. confine.
Qed.

(** The [except] clause of either loop catches whatever the [try] body
    raises, logs it and goes on with the next row. *)
Lemma GHES_loop_catches (index : nat) (row : Row)
    (rest : list (nat * Row)) (s s2 : St) (e : exn) :
  budget_left W start_time s ->
  is_Done (Status row) = false ->
  GHES.row_body W index row (at_try s row) = (Raise e, s2) ->
  GHES.main_loop W start_time ((index, row) :: rest) s
  = GHES.main_loop W start_time rest (after_except s2 row e).
Proof.
  unfold budget_left. intros Hbudget Hpending Hbody. simpl.
  unfold now, bind at 1 2, emit, observe. simpl. rewrite Hbudget, Hpending.
  unfold bind at 1, log at 1, emit. simpl.
  rewrite <- app_assoc. cbn [app]. fold (at_try s row).
  unfold bind at 1, try_except. rewrite Hbody. reflexivity.
Qed.

Lemma Cloud02_loop_catches (index : nat) (row : Row)
    (rest : list (nat * Row)) (s s2 : St) (e : exn) :
  budget_left W start_time s ->
  is_Done (Status row) = false ->
  Cloud02.row_body W index row (at_try s row) = (Raise e, s2) ->
  Cloud02.main_loop W start_time ((index, row) :: rest) s
  = Cloud02.main_loop W start_time rest (after_except s2 row e).
Proof.
  unfold budget_left. intros Hbudget Hpending Hbody. simpl.
  unfold now, bind at 1 2, emit, observe. simpl. rewrite Hbudget, Hpending.
  unfold bind at 1, log at 1, emit. simpl.
  rewrite <- app_assoc. cbn [app]. fold (at_try s row).
  unfold bind at 1, try_except. rewrite Hbody. reflexivity.
Qed.

End Loops.

(** C8: when every row is already marked done, a pass of either driver
    loop makes no network call and leaves the table, and the handler, as
    they were. *)
Theorem all_done_is_noop (W : World) (start_time : Z) (s : St) :
  all_Done (df s) ->
  let g := snd (GHES.main_loop W start_time (iterrows (df s)) s) in
  let c := snd (Cloud02.main_loop W start_time (iterrows (df s)) s) in
  (network_calls (trace g) = network_calls (trace s) /\
   df g = df s /\ handler g = handler s) /\
  (network_calls (trace c) = network_calls (trace s) /\
   df c = df s /\ handler c = handler s).
Proof.
  intros Hdone. cbv zeta.
  apply iterrows_rows in Hdone.
  pose proof (@confined_GHES_done W start_time _ Hdone s) as Hg.
  pose proof (@confined_Cloud02_done W start_time _ Hdone s) as Hc.
  split.
  - split; [now apply network_calls_idle|].
    destruct Hg as (Hh & Hd & _). auto.
  - split; [now apply network_calls_idle|].
    destruct Hc as (Hh & Hd & _). auto.
Qed.

Lemma all_done_is_noop_witness :
  let s := table_state [done_row "alice"; done_row "bob"] in
  network_calls (trace (snd (GHES.main_loop alice_world 0
                               (iterrows (df s)) s))) = 0%nat /\
  df (snd (Cloud02.main_loop alice_world 0 (iterrows (df s)) s)) = df s.
Proof.
  cbv zeta.
  assert (Hdone : all_Done (df (table_state [done_row "alice";
                                              done_row "bob"])))
    by (repeat constructor).
  pose proof (@all_done_is_noop alice_world 0%Z _ Hdone) as [[Hn _] [_ [Hd _]]].
  split; [exact Hn|exact Hd].
Defined.

(** C9: at a row boundary where the elapsed time exceeds the maximum
    runtime, either loop stops at once: no request is made and no row is
    touched, at the first row as at any later one.  The spreadsheet
    variant, which has written each resolved row already, just returns.
    The CSV variant saves the table and returns when the save succeeds;
    when the save raises, the loop is left with that exception, the table
    in memory being as it was. *)
Theorem runtime_budget_stops_loop (W : World) (start_time : Z)
    (index : nat) (row : Row) (rest : list (nat * Row)) (s : St) :
  budget_exceeded W start_time s ->
  GHES.main_loop W start_time ((index, row) :: rest) s
  = (Ok Returned,
     {| handler := handler s; df := df s;
        trace := trace s ++ [EClock; ELog INFO LMaxRuntime] |}) /\
  (let saved := {| handler := handler s; df := df s;
                   trace := trace s ++ [EClock; ELog INFO LMaxRuntime;
                                        EToCsv (df s)] |} in
   (csv_write W (trace saved) (df s) = None ->
    Cloud02.main_loop W start_time ((index, row) :: rest) s
    = (Ok Returned, saved)) /\
   (forall e, csv_write W (trace saved) (df s) = Some e ->
    Cloud02.main_loop W start_time ((index, row) :: rest) s
    = (Raise e, saved))).
Proof.
  unfold budget_exceeded. intros Hlate. split.
  - simpl. unfold now, bind, emit, observe, log, emit, ret. simpl.
    rewrite Hlate. simpl. now rewrite <- app_assoc.
  - cbv zeta. cbn [trace].
    assert (Hrun :
      Cloud02.main_loop W start_time ((index, row) :: rest) s
      = (match csv_write W (trace s ++ [EClock; ELog INFO LMaxRuntime;
                                        EToCsv (df s)]) (df s) with
         | Some e => Raise e
         | None => Ok Returned
         end,
         {| handler := handler s; df := df s;
            trace := trace s ++ [EClock; ELog INFO LMaxRuntime;
                                 EToCsv (df s)] |})).
    { simpl. unfold now, Cloud02.to_csv, the_df, bind, emit, observe, log,
        emit, ret. simpl.
      rewrite Hlate. simpl. rewrite <- !app_assoc. simpl.
      destruct (csv_write W _ (df s)) as [e|]; reflexivity. }
    rewrite Hrun. split.
    + intros ->. reflexivity.
    + intros e ->. reflexivity.
Qed.

Lemma runtime_budget_stops_loop_witness :
  let s := table_state [pending_row "alice"; pending_row "bob"] in
  GHES.main_loop late_world 0 (iterrows (df s)) s
  = (Ok Returned,
     {| handler := handler s; df := df s;
        trace := [EClock; ELog INFO LMaxRuntime] |}) /\
  Cloud02.main_loop late_world 0 (iterrows (df s)) s
  = (Ok Returned,
     {| handler := handler s; df := df s;
        trace := [EClock; ELog INFO LMaxRuntime; EToCsv (df s)] |}).
Proof.
  cbv zeta.
  destruct (@runtime_budget_stops_loop late_world 0%Z 0%nat
              (pending_row "alice") [(1%nat, pending_row "bob")]
              (table_state [pending_row "alice"; pending_row "bob"])
              eq_refl) as [Hg [Hc _]].
  split; [exact Hg|exact (Hc eq_refl)].
Defined.

(** ** Failures inside a row *)

Lemma fetch_keeps_table (W : World) (who : pyval) (s : St) :
  df (snd (get_user_info_from_github_api W who s)) = df s.
Proof.
  destruct (confined_get_user_info_from_github_api W who s) as (_ & Hd & _).
  apply Hd. reflexivity.
Qed.

(** C7, as amended: whatever the [try] body of a row raises is caught at
    the row boundary and logged, and the loop goes on with the next row.
    When the exception comes from the profile fetcher, the table, and with
    it the row's Status and Email, is as it was before the row. *)
Theorem row_failure_is_caught (W : World) (start_time : Z) (index : nat)
    (row : Row) (rest : list (nat * Row)) (s s2 : St) (e : exn) :
  budget_left W start_time s ->
  is_Done (Status row) = false ->
  (GHES.row_body W index row (at_try s row) = (Raise e, s2) ->
   GHES.main_loop W start_time ((index, row) :: rest) s
   = GHES.main_loop W start_time rest (after_except s2 row e)) /\
  (Cloud02.row_body W index row (at_try s row) = (Raise e, s2) ->
   Cloud02.main_loop W start_time ((index, row) :: rest) s
   = Cloud02.main_loop W start_time rest (after_except s2 row e)) /\
  (get_user_info_from_github_api W (Profile_URL row) (at_try s row)
   = (Raise e, s2) ->
   GHES.row_body W index row (at_try s row) = (Raise e, s2) /\
   Cloud02.row_body W index row (at_try s row) = (Raise e, s2) /\
   df (after_except s2 row e) = df s).
Proof.
  intros Hbudget Hpending. split; [|split].
  - now apply GHES_loop_catches.
  - now apply Cloud02_loop_catches.
  - intros Hfetch.
    pose proof (fetch_keeps_table W (Profile_URL row) (at_try s row)) as Hd.
    rewrite Hfetch in Hd. simpl in Hd.
    unfold GHES.row_body, Cloud02.row_body, bind. rewrite Hfetch.
    auto.
Qed.

Lemma row_failure_is_caught_witness :
  let s := table_state [pending_row "alice"; pending_row "bob"] in
  let s2 := snd (get_user_info_from_github_api offline_world
                   (Profile_URL (pending_row "alice"))
                   (at_try s (pending_row "alice"))) in
  GHES.main_loop offline_world 0 (iterrows (df s)) s
  = GHES.main_loop offline_world 0 [(1%nat, pending_row "bob")]
      (after_except s2 (pending_row "alice") ConnectionError) /\
  df s2 = df s.
Proof.
  cbv zeta.
  destruct (@row_failure_is_caught offline_world 0%Z 0%nat
              (pending_row "alice") [(1%nat, pending_row "bob")]
              (table_state [pending_row "alice"; pending_row "bob"])
              (snd (get_user_info_from_github_api offline_world
                      (Profile_URL (pending_row "alice"))
                      (at_try (table_state [pending_row "alice";
                                            pending_row "bob"])
                         (pending_row "alice"))))
              ConnectionError eq_refl eq_refl) as (Hloop & _ & Hfetch).
  destruct (Hfetch ltac:(vm_compute; reflexivity)) as (Hbody & _ & Hdf).
  split; [exact (Hloop Hbody)|exact Hdf].
Defined.

(** C7, as stated, fails: the profile of the row yields an email, the
    row is marked done in the table, and then the write to the sink
    raises.  The exception is caught as a failure of the row, but the row
    keeps Status ['Done'] and the email.  This happens in both scripts. *)
Lemma failed_row_is_marked_done :
  let s := table_state [pending_row "alice"] in
  let g := snd (GHES.main_loop failing_sink_world 0 (iterrows (df s)) s) in
  let c := snd (Cloud02.main_loop failing_sink_world 0 (iterrows (df s)) s) in
  filter is_error_log (trace g)
  = [ELog ERROR (LWriteError HttpError);
     ELog ERROR (LRowError (Profile_URL (pending_row "alice")) HttpError)] /\
  map Status_and_Email (df g)
  = [(PStr (u "Done"), PStr (u "alice@example.com"))] /\
  filter is_error_log (trace c)
  = [ELog ERROR (LRowError (Profile_URL (pending_row "alice")) OSError)] /\
  map Status_and_Email (df c)
  = [(PStr (u "Done"), PStr (u "alice@example.com"))].
Proof. vm_compute. repeat split. Qed.

(** ** Failures of the sink *)

Section SinkErrors.

Variable W : World.

(** The write of the row fails with [HttpError]: the error is logged and
    raised again. *)
Lemma write_to_google_sheet_reraises (name : pystr)
    (data : list (list pyval)) (s s1 : St) (n : nat) :
  (GHES.credentials W ;; GHES.ensure_sheet_and_setup_columns W name)%py s
  = (Ok tt, s1) ->
  let asked := trace s1 ++ [ELog INFO LNextRow;
                            ESheets (OpGetColumnA name)] in
  let written := asked ++ [ELog INFO (LAttemptWrite (n + 1));
                           ESheets (OpWriteRow name (n + 1) data)] in
  sheets_column_a W asked name = inr n ->
  sheets_update W written (OpWriteRow name (n + 1) data) = Some HttpError ->
  GHES.write_to_google_sheet W name data s
  = (Raise HttpError,
     {| handler := handler s1; df := df s1;
        trace := written ++ [ELog ERROR (LWriteError HttpError)] |}).
Proof.
  cbv zeta. intros Hsetup Hcol Hupd.
  unfold GHES.write_to_google_sheet.
  unfold bind at 1 in Hsetup. unfold bind at 1 2.
  destruct (GHES.credentials W s) as [[[]|e] s0]; [|discriminate].
  rewrite Hsetup.
  unfold GHES.except_HttpError, try_except, GHES.execute, bind, log, emit,
    observe, ret, raise. simpl.
  rewrite <- !app_assoc. simpl. rewrite Hcol. simpl.
  rewrite <- !app_assoc. simpl.
  rewrite <- !app_assoc in Hupd. simpl in Hupd. rewrite Hupd.
  simpl. rewrite <- ?app_assoc. reflexivity.
Qed.

(** A sink error inside a row is caught by the [except] clause of the
    loop like any other exception. *)
Lemma GHES_sink_error_caught (start_time : Z) (index : nat) (row : Row)
    (rest : list (nat * Row)) (s s2 s3 : St) (email : pyval) (e : exn) :
  budget_left W start_time s ->
  is_Done (Status row) = false ->
  get_user_info_from_github_api W (Profile_URL row) (at_try s row)
  = (Ok email, s2) ->
  truthy email = true ->
  GHES.write_to_google_sheet W GHES.sheet_name
    [[Username row; User_ID row; Profile_URL row; email]]
    (marked s2 index row email)
  = (Raise e, s3) ->
  GHES.main_loop W start_time ((index, row) :: rest) s
  = GHES.main_loop W start_time rest (after_except s3 row e).
Proof.
  intros Hbudget Hpending Hfetch Htruthy Hwrite.
  apply GHES_loop_catches; auto.
  unfold GHES.row_body, bind at 1. rewrite Hfetch, Htruthy.
  unfold bind, update_df, log, emit. simpl.
  unfold marked in Hwrite. rewrite Hwrite. reflexivity.
Qed.

End SinkErrors.

(** C2, as amended: when the write of a row to the sheet fails,
    [write_to_google_sheet] logs the error and raises it again; the
    [except] clause of the loop then catches it as a failure of that row,
    logs it, and the loop goes on with the next row. *)
Theorem sink_error_is_caught :
  (forall (W : World) (name : pystr) (data : list (list pyval))
          (s s1 : St) (n : nat),
      (GHES.credentials W ;; GHES.ensure_sheet_and_setup_columns W name)%py s
      = (Ok tt, s1) ->
      let asked := trace s1 ++ [ELog INFO LNextRow;
                                ESheets (OpGetColumnA name)] in
      let written := asked ++ [ELog INFO (LAttemptWrite (n + 1));
                               ESheets (OpWriteRow name (n + 1) data)] in
      sheets_column_a W asked name = inr n ->
      sheets_update W written (OpWriteRow name (n + 1) data)
      = Some HttpError ->
      GHES.write_to_google_sheet W name data s
      = (Raise HttpError,
         {| handler := handler s1; df := df s1;
            trace := written ++ [ELog ERROR (LWriteError HttpError)] |})) /\
  (forall (W : World) (start_time : Z) (index : nat) (row : Row)
          (rest : list (nat * Row)) (s s2 s3 : St) (email : pyval)
          (e : exn),
      budget_left W start_time s ->
      is_Done (Status row) = false ->
      get_user_info_from_github_api W (Profile_URL row) (at_try s row)
      = (Ok email, s2) ->
      truthy email = true ->
      GHES.write_to_google_sheet W GHES.sheet_name
        [[Username row; User_ID row; Profile_URL row; email]]
        (marked s2 index row email)
      = (Raise e, s3) ->
      GHES.main_loop W start_time ((index, row) :: rest) s
      = GHES.main_loop W start_time rest (after_except s3 row e)).
Proof.
  split.
  - intros W name data s s1 n. apply write_to_google_sheet_reraises.
  - intros W start_time index row rest s s2 s3 email e.
    apply GHES_sink_error_caught.
Qed.

Lemma sink_error_is_caught_witness :
  let s := table_state [pending_row "alice"; pending_row "bob"] in
  (exists s',
      GHES.write_to_google_sheet failing_sink_world GHES.sheet_name
        [[PStr (u "alice")]] s
      = (Raise HttpError, s') /\
      filter is_error_log (trace s') = [ELog ERROR (LWriteError HttpError)]) /\
  (exists s3,
      GHES.main_loop failing_sink_world 0 (iterrows (df s)) s
      = GHES.main_loop failing_sink_world 0 [(1%nat, pending_row "bob")]
          (after_except s3 (pending_row "alice") HttpError) /\
      map Status_and_Email (df s3)
      = [(PStr (u "Done"), PStr (u "alice@example.com"));
         (PStr [], PStr [])]).
Proof.
  cbv zeta.
  pose (s := table_state [pending_row "alice"; pending_row "bob"]).
  split.
  - pose (s1 := snd ((GHES.credentials failing_sink_world ;;
                      GHES.ensure_sheet_and_setup_columns failing_sink_world
                        GHES.sheet_name)%py s)).
    eexists. split.
    + apply (proj1 sink_error_is_caught failing_sink_world GHES.sheet_name
               [[PStr (u "alice")]] s s1 1%nat);
        vm_compute; reflexivity.
    + vm_compute. reflexivity.
  - pose (s2 := snd (get_user_info_from_github_api failing_sink_world
                       (Profile_URL (pending_row "alice"))
                       (at_try s (pending_row "alice")))).
    pose (email := PStr (u "alice@example.com")).
    pose (s3 := snd (GHES.write_to_google_sheet failing_sink_world
                       GHES.sheet_name
                       [[Username (pending_row "alice");
                         User_ID (pending_row "alice");
                         Profile_URL (pending_row "alice"); email]]
                       (marked s2 0 (pending_row "alice") email))).
    exists s3. split.
    + apply (proj2 sink_error_is_caught failing_sink_world 0%Z 0%nat
               (pending_row "alice") [(1%nat, pending_row "bob")]
               s s2 s3 email HttpError);
        vm_compute; reflexivity.
    + vm_compute. reflexivity.
Defined.

(** C2, as stated, fails: the write for the first row raises, and the
    second row is processed all the same; the run completes. *)
Lemma sink_error_does_not_abort :
  let s := table_state [pending_row "alice"; pending_row "bob"] in
  let r := GHES.main_loop failing_sink_world 0 (iterrows (df s)) s in
  let auth := u "token k1" in
  fst r = Ok Completed /\
  filter (fun e => is_get e || is_error_log e) (trace (snd r))
  = [EGet Resilient rate_limit_url auth;
     EGet Resilient (users_url (u "alice")) auth;
     ELog ERROR (LWriteError HttpError);
     ELog ERROR (LRowError (Profile_URL (pending_row "alice")) HttpError);
     EGet Resilient rate_limit_url auth;
     EGet Resilient (users_url (u "bob")) auth;
     ELog ERROR (LWriteError HttpError);
     ELog ERROR (LRowError (Profile_URL (pending_row "bob")) HttpError)].
Proof. vm_compute. repeat split. Qed.

(** * Further properties of the code *)

(** ** [str.split] and the user name of a profile URL *)

Lemma split_not_nil (sep : N) (s : pystr) : split sep s <> [].
Proof.
  induction s as [|c s IH]; simpl; [discriminate|].
  destruct (N.eqb c sep); [discriminate|].
  destruct (split sep s); [contradiction|discriminate].
Qed.

Lemma join_split (sep : N) (s : pystr) : join sep (split sep s) = s.
Proof.
  induction s as [|c s IH]; simpl; [reflexivity|].
  pose proof (split_not_nil sep s) as Hne.
  destruct (N.eqb_spec c sep) as [->|Hc].
  - destruct (split sep s) as [|w ws]; [contradiction|].
    simpl in *. now rewrite IH.
  - destruct (split sep s) as [|w ws]; [contradiction|].
    destruct ws; simpl in *; now rewrite <- IH.
Qed.

Lemma split_parts_clean (sep : N) (s : pystr) :
  Forall (fun part => ~ In sep part) (split sep s).
Proof.
  induction s as [|c s IH]; simpl.
  - constructor; [intros []|constructor].
  - destruct (N.eqb_spec c sep) as [->|Hc].
    + constructor; [intros []|exact IH].
    + destruct (split sep s) as [|w ws].
      * constructor; [|constructor]. intros [E|[]]. congruence.
      * inversion IH as [|? ? Hw Hws]; subst.
        constructor; [|exact Hws]. intros [E|Hin]; [congruence|auto].
Qed.

Lemma split_length (sep : N) (s : pystr) :
  List.length (split sep s) = S (count_occ N.eq_dec s sep).
Proof.
  induction s as [|c s IH]; simpl; [reflexivity|].
  pose proof (split_not_nil sep s) as Hne.
  destruct (N.eqb_spec c sep) as [->|Hc].
  - destruct (N.eq_dec sep sep); [|contradiction]. simpl. now rewrite IH.
  - destruct (N.eq_dec c sep); [contradiction|].
    destruct (split sep s) as [|w ws]; [contradiction|].
    simpl in *. exact IH.
Qed.

Lemma split_clean (sep : N) (s : pystr) :
  ~ In sep s -> split sep s = [s].
Proof.
  induction s as [|c s IH]; simpl; intros Hs; [reflexivity|].
  destruct (N.eqb_spec c sep) as [->|Hc]; [tauto|].
  rewrite IH by tauto. reflexivity.
Qed.

Lemma last_part_after (sep : N) (a b : pystr) :
  last_part (split sep (a ++ sep :: b)) = last_part (split sep b).
Proof.
  unfold last_part.
  induction a as [|c a IH]; simpl.
  - rewrite N.eqb_refl.
    pose proof (split_not_nil sep b).
    destruct (split sep b); [contradiction|reflexivity].
  - assert (Hlen : (2 <= List.length (split sep (a ++ sep :: b)))%nat).
    { rewrite split_length, count_occ_app. simpl.
      destruct (N.eq_dec sep sep); [lia|contradiction]. }
    destruct (N.eqb c sep).
    + destruct (split sep (a ++ sep :: b)); [simpl in Hlen; lia|exact IH].
    + destruct (split sep (a ++ sep :: b)) as [|w [|w' ws]];
        simpl in Hlen; try lia. exact IH.
Qed.

Lemma last_part_clean (sep : N) (s : pystr) :
  ~ In sep (last_part (split sep s)).
Proof.
  pose proof (split_parts_clean sep s) as H.
  rewrite Forall_forall in H. apply H.
  unfold last_part.
  pose proof (split_not_nil sep s) as Hne.
  destruct (exists_last Hne) as (front & x & ->).
  rewrite last_last. apply in_or_app. right. left. reflexivity.
Qed.

Lemma last_part_suffix (sep : N) (s : pystr) :
  In sep s -> exists front, s = front ++ sep :: last_part (split sep s).
Proof.
  remember (List.length s) as n eqn:Hn. revert s Hn.
  induction n as [n IH] using lt_wf_ind. intros s Hn Hin.
  apply in_split in Hin. destruct Hin as (a & b & ->).
  rewrite last_part_after.
  destruct (in_dec N.eq_dec sep b) as [Hb|Hb].
  - destruct (IH (List.length b)) with (s := b) as (front & E); auto.
    { subst n. rewrite length_app. simpl. lia. }
    exists (a ++ sep :: front).
    rewrite <- app_assoc. simpl. now rewrite <- E.
  - rewrite split_clean by exact Hb. exists a. reflexivity.
Qed.

Lemma starts_with_app (prefix s : pystr) :
  starts_with prefix s = true -> exists rest, s = prefix ++ rest.
Proof.
  revert s. induction prefix as [|p prefix IH]; intros s H; simpl in *.
  - exists s. reflexivity.
  - destruct s as [|c s]; [discriminate|].
    apply andb_prop in H. destruct H as [Hp Hs].
    apply N.eqb_eq in Hp. subst c.
    destruct (IH _ Hs) as (rest & ->). exists rest. reflexivity.
Qed.

Lemma starts_with_prefix (prefix rest : pystr) :
  starts_with prefix (prefix ++ rest) = true.
Proof.
  induction prefix as [|p prefix IH]; simpl; [reflexivity|].
  now rewrite N.eqb_refl.
Qed.

(** X1: the key pool that [main] builds from the value of the environment
    variable is never empty; it has one key more than the value has commas,
    no key contains a comma, and joining the keys with commas gives the
    value back.  The handler starts at the first key with no failed
    attempt. *)
Theorem pool_from_environment (v : pystr) :
  let h := init (split (chr ",") v) in
  api_keys h <> [] /\
  List.length (api_keys h) = S (count_occ N.eq_dec v (chr ",")) /\
  Forall (fun key => ~ In (chr ",") key) (api_keys h) /\
  join (chr ",") (api_keys h) = v /\
  current_key_index h = 0%Z /\ failed_attempts h = 0%Z.
Proof.
  simpl. repeat split.
  - apply split_not_nil.
  - apply split_length.
  - apply split_parts_clean.
  - apply join_split.
Qed.

(** X2: [username_of] leaves alone whatever does not begin with
    [https://github.com/]; of a profile URL it takes the text after the
    last slash, which holds no slash itself.  So a URL with a plain login
    yields the login, and a URL that ends in a slash yields the empty
    name. *)
Theorem username_of_profile_url (name : pystr) :
  (starts_with (u "https://github.com/") name = false ->
   username_of name = name) /\
  (starts_with (u "https://github.com/") name = true ->
   ~ In (chr "/") (username_of name) /\
   exists front, name = front ++ chr "/" :: username_of name) /\
  (forall login, ~ In (chr "/") login ->
     username_of (u "https://github.com/" ++ login) = login) /\
  (forall path,
     username_of (u "https://github.com/" ++ path ++ [chr "/"]) = []).
Proof.
  unfold username_of. split; [|split; [|split]].
  - intros ->. reflexivity.
  - intros H. rewrite H. split; [apply last_part_clean|].
    apply last_part_suffix.
    destruct (starts_with_app _ _ H) as (rest & ->).
    apply in_or_app. left. vm_compute. tauto.
  - intros login Hlogin. rewrite starts_with_prefix.
    change (u "https://github.com/" ++ login)
      with (u "https://github.com" ++ chr "/" :: login).
    rewrite last_part_after, split_clean by exact Hlogin. reflexivity.
  - intros path. rewrite starts_with_prefix.
    replace (u "https://github.com/" ++ path ++ [chr "/"])
      with ((u "https://github.com/" ++ path) ++ chr "/" :: [])
      by now rewrite <- app_assoc.
    rewrite last_part_after. reflexivity.
Qed.

Lemma username_of_profile_url_witness :
  username_of (u "alice") = u "alice" /\
  ~ In (chr "/") (username_of (u "https://github.com/orgs/alice")) /\
  username_of (u "https://github.com/alice") = u "alice".
Proof.
  split; [|split].
  - apply (proj1 (username_of_profile_url (u "alice"))). reflexivity.
  - apply (proj1 (proj2 (username_of_profile_url
                           (u "https://github.com/orgs/alice")))).
    reflexivity.
  - apply (proj1 (proj2 (proj2 (username_of_profile_url [])))).
    vm_compute. intuition discriminate.
Defined.

(** ** More on the extractor *)

Lemma class_excludes (cls : N -> bool) (c : N) (x : pystr) :
  forallb cls x = true -> cls c = false -> ~ In c x.
Proof.
  intros Hx Hc Hin. rewrite forallb_forall in Hx.
  specialize (Hx c Hin). congruence.
Qed.

Lemma consumed_is_ascii (c : N) :
  Re.local_class c = true \/ Re.domain_class c = true \/
  Re.tld_class c = true ->
  (c < 128)%N.
Proof.
  unfold Re.local_class, Re.domain_class, Re.tld_class, Re.upper, Re.lower,
    Re.digit, Re.between, Re.one_of.
  simpl. rewrite !orb_true_iff, !andb_true_iff, !N.leb_le, !N.eqb_eq.
  lia.
Qed.

Lemma forallb_ascii (cls : N -> bool) (x : pystr) :
  (forall c, cls c = true -> (c < 128)%N) ->
  forallb cls x = true -> Forall (fun c => (c < 128)%N) x.
Proof.
  intros Hcls H. rewrite forallb_forall in H. apply Forall_forall. auto.
Qed.

(** X3: an address returned by [extract_email] is a piece of the text as
    it stands; it contains exactly one [@], at least six characters, and
    ASCII characters only. *)
Theorem extract_email_is_substring (alnum : N -> bool) (text s : pystr) :
  extract_email alnum text = Some s ->
  substring s text /\
  count_occ N.eq_dec s (chr "@") = 1%nat /\
  (6 <= List.length s)%nat /\
  Forall (fun c => (c < 128)%N) s.
Proof.
  rewrite extract_email_search.
  destruct (Re.search alnum pattern None text) as [m|] eqn:Hs;
    [|discriminate].
  intros H. simpl in H. injection H as <-.
  destruct (@search_finds _ _ _ _ _ Hs) as (i & _ & Hm & _).
  unfold ReSpec.attempt_at in Hm.
  apply pattern_match_inv in Hm.
  destruct Hm as (post & Hrest & Hshape & _).
  rewrite (@strip_keeps strip_chars m (shape_not_stripped Hshape)).
  split.
  { exists (firstn i text), post.
    rewrite <- Hrest. symmetry. apply firstn_skipn. }
  destruct Hshape as (l & d & t & -> & Hl & Hl1 & Hd & Hd1 & Ht & Ht2).
  split; [|split].
  - rewrite count_occ_app, count_occ_cons_eq by reflexivity.
    rewrite count_occ_app, count_occ_cons_neq by discriminate.
    rewrite (proj1 (count_occ_not_In N.eq_dec l (chr "@")))
      by (apply (class_excludes Re.local_class); auto).
    rewrite (proj1 (count_occ_not_In N.eq_dec d (chr "@")))
      by (apply (class_excludes Re.domain_class); auto).
    rewrite (proj1 (count_occ_not_In N.eq_dec t (chr "@")))
      by (apply (class_excludes Re.tld_class); auto).
    reflexivity.
  - rewrite length_app. simpl. rewrite length_app. simpl. lia.
  - apply Forall_app. split.
    { apply (forallb_ascii Re.local_class); auto.
      intros; apply consumed_is_ascii; auto. }
    apply Forall_cons; [reflexivity|].
    apply Forall_app. split.
    { apply (forallb_ascii Re.domain_class); auto.
      intros; apply consumed_is_ascii; auto. }
    apply Forall_cons; [reflexivity|].
    apply (forallb_ascii Re.tld_class); auto.
    intros; apply consumed_is_ascii; auto.
Qed.

Lemma extract_email_is_substring_witness :
  substring (u "bob@x.org") (u "mail <bob@x.org> now") /\
  List.length (u "bob@x.org") = 9%nat.
Proof.
  split; [|reflexivity].
  apply (@extract_email_is_substring ascii_only
           (u "mail <bob@x.org> now") (u "bob@x.org") eq_refl).
Defined.

(** ** The two HTTP clients *)

Section Clients.

Variable W : World.

Lemma requests_retry_session_get_eq (url auth : pystr) (s : St) :
  requests_retry_session_get W url auth s
  = send W retries status_forcelist url auth
      {| handler := handler s; df := df s;
         trace := trace s ++ [EGet Resilient url auth] |}.
Proof. reflexivity. Qed.

Lemma requests_get_eq (url auth : pystr) (s : St) :
  requests_get W url auth s
  = send W 0 [] url auth
      {| handler := handler s; df := df s;
         trace := trace s ++ [EGet Bare url auth] |}.
Proof. reflexivity. Qed.

(** A GET through a session, with the limit of 30 redirects. *)
Lemma send_outcome (forcelist : list Z) (budget : nat) (url auth : pystr)
    (s : St) :
  let r := send W budget forcelist url auth s in
  handler (snd r) = handler s /\ df (snd r) = df s /\
  exists evs,
    trace (snd r) = trace s ++ evs /\
    forallb is_attempt evs = true /\
    (List.length evs <= 31 * S budget)%nat /\
    (forall resp, fst r = Ok resp ->
       existsb (Z.eqb (status_code resp)) forcelist = false /\
       get_redirect_target resp = None /\
       exists pre url' auth',
         evs = pre ++ [EAttempt url' auth'] /\
         wire W (trace (snd r)) url' auth' = Answer resp).
Proof.
  exact (@resolve_redirects_outcome W forcelist budget max_redirects
           url auth s).
Qed.

(** Where no server redirects, a GET is one request through [urlopen]. *)
Lemma send_direct (forcelist : list Z) (budget : nat) (url auth : pystr)
    (s : St) :
  direct W ->
  send W budget forcelist url auth s
  = match preflight W url auth with
    | Some e => (Raise e, s)
    | None => urlopen W budget forcelist url auth s
    end.
Proof.
  intros Hdirect. unfold send. rewrite resolve_redirects_step.
  destruct (preflight W url auth); [reflexivity|].
  pose proof (@urlopen_outcome W forcelist url auth budget s) as H.
  cbv zeta in H.
  destruct (urlopen W budget forcelist url auth s) as [[r|e] s1];
    [|reflexivity].
  cbn [fst snd] in H. destruct H as (_ & _ & k & _ & _ & Hok & _).
  destruct (Hok r eq_refl) as [_ Hw].
  rewrite (Hdirect _ _ _ _ Hw). reflexivity.
Qed.

End Clients.

Lemma forcelist_spec (status : Z) :
  existsb (Z.eqb status) status_forcelist = false
  <-> ~ In status [500; 502; 504]%Z.
Proof.
  unfold status_forcelist. simpl.
  rewrite !orb_false_iff, !Z.eqb_neq. intuition.
Qed.

(** X4: a GET through [requests_retry_session] changes neither the handler
    nor the table, and puts nothing but attempts on the wire: at most 124
    of them, four for the request and for each of up to 30 redirects that
    [requests] follows.  A response that it returns is the answer to the
    last attempt, never has status 500, 502 or 504, and is no redirect
    that could be followed.  Where no server redirects, there are at most
    four attempts, all for the URL of the call, and none at all when the
    client refuses the request. *)
Theorem retry_session_attempts (W : World) (url auth : pystr) (s : St) :
  let r := requests_retry_session_get W url auth s in
  handler (snd r) = handler s /\ df (snd r) = df s /\
  (exists evs,
     trace (snd r) = trace s ++ EGet Resilient url auth :: evs /\
     forallb is_attempt evs = true /\
     (List.length evs <= 124)%nat /\
     (forall resp, fst r = Ok resp ->
        ~ In (status_code resp) [500; 502; 504]%Z /\
        get_redirect_target resp = None /\
        exists pre url' auth',
          evs = pre ++ [EAttempt url' auth'] /\
          wire W (trace (snd r)) url' auth' = Answer resp)) /\
  (direct W ->
   exists k,
     (k <= 4)%nat /\
     trace (snd r)
     = trace s ++ EGet Resilient url auth :: repeat (EAttempt url auth) k /\
     (k = 0%nat <-> exists e, preflight W url auth = Some e)).
Proof.
  cbv zeta. rewrite requests_retry_session_get_eq.
  set (s1 := {| handler := handler s; df := df s;
                trace := trace s ++ [EGet Resilient url auth] |}).
  pose proof (@send_outcome W status_forcelist retries url auth s1) as H.
  cbv zeta in H. destruct H as (Hh & Hd & evs & Ht & Hall & Hlen & Hok).
  split; [exact Hh|]. split; [exact Hd|]. split.
  - exists evs. split; [rewrite Ht; subst s1; cbn [trace];
                        now rewrite <- app_assoc|].
    split; [exact Hall|]. split; [exact Hlen|].
    intros resp Hresp. destruct (Hok resp Hresp) as (Hf & Hnone & Hlast).
    split; [now apply forcelist_spec|]. split; [exact Hnone|exact Hlast].
  - intros Hdirect. rewrite (@send_direct W _ _ _ _ _ Hdirect).
    destruct (preflight W url auth) as [e|] eqn:Hpre.
    + exists 0%nat. split; [lia|]. split.
      * subst s1. reflexivity.
      * split; [eauto|reflexivity].
    + destruct (@urlopen_outcome W status_forcelist url auth retries s1)
        as (_ & _ & k & Hk & Htr & _).
      exists k. split; [unfold retries in Hk; lia|]. split.
      * rewrite Htr. subst s1. cbn [trace]. now rewrite <- app_assoc.
      * split; [lia|]. intros [e He]. discriminate.
Qed.

Lemma retry_session_attempts_witness :
  direct flaky_readme_world /\
  exists k,
    (k <= 4)%nat /\
    trace (snd (requests_retry_session_get flaky_readme_world
                  (readme_url (u "alice")) (u "token k1")
                  (fresh [u "k1"])))
    = EGet Resilient (readme_url (u "alice")) (u "token k1")
      :: repeat (EAttempt (readme_url (u "alice")) (u "token k1")) k.
Proof.
  assert (Hdirect : direct flaky_readme_world).
  { intros h url auth r. unfold flaky_readme_world, world_of. cbn [wire].
    repeat match goal with
           | |- context [if ?b then _ else _] => destruct b
           end; intros H; injection H as <-; reflexivity. }
  split; [exact Hdirect|].
  destruct (@retry_session_attempts flaky_readme_world
              (readme_url (u "alice")) (u "token k1") (fresh [u "k1"]))
    as (_ & _ & _ & H).
  destruct (H Hdirect) as (k & Hk & Ht & _).
  exists k. split; [exact Hk|exact Ht].
Defined.

(** A key with a line feed in it: the client refuses the request of the
    probe, and nothing is sent. *)
Lemma refused_request_sends_nothing :
  let key := u "k" ++ 10%N :: u "1" in
  let r := get_user_info_from_github_api (with_strict_headers alice_world)
             (PStr (u "alice")) (fresh [key]) in
  fst r = Raise InvalidHeader /\
  trace (snd r) = [EGet Resilient rate_limit_url (u "token " ++ key)].
Proof. vm_compute. split; reflexivity. Qed.

(** The bound of X4 is reached: in [maze_world] each of the 31 requests
    takes four attempts, and the GET ends in [TooManyRedirects]. *)
Lemma retry_session_attempts_reached :
  let r := requests_retry_session_get maze_world rate_limit_url
             (u "token k1") (fresh [u "k1"]) in
  fst r = Raise TooManyRedirects /\
  count is_attempt (trace (snd r)) = 124%nat.
Proof. vm_compute. split; reflexivity. Qed.

(** ** The first answer *)

(** X5: with the arguments that [requests_retry_session] gives to
    [Retry], the first answer to a request that the client accepts
    decides what comes next.  Status 500, 502 or 504, and status 413, 429
    or 503 with a [Retry-After] header, are followed by a second attempt
    for the same URL.  A redirect status with a [Location] header is
    followed by a request for the target, unless the client refuses that
    request.  Every other answer (a 404, say, or a 429 without the header)
    is returned after that one attempt. *)
Theorem first_answer_decides (W : World) (url auth : pystr) (s : St)
    (r : Response) :
  preflight W url auth = None ->
  wire W (trace s ++ [EGet Resilient url auth; EAttempt url auth]) url auth
  = Answer r ->
  let first := {| handler := handler s; df := df s;
                  trace := trace s ++ [EGet Resilient url auth;
                                       EAttempt url auth] |} in
  let again := In (status_code r) [500; 502; 504]%Z \/
               (retry_after r = true /\
                In (status_code r) [413; 429; 503]%Z) in
  (again ->
   exists rest,
     trace (snd (requests_retry_session_get W url auth s))
     = trace first ++ EAttempt url auth :: rest) /\
  (~ again ->
   (get_redirect_target r = None ->
    requests_retry_session_get W url auth s = (Ok r, first)) /\
   (forall target, get_redirect_target r = Some target ->
      let next := next_hop W url auth target in
      (forall e, preflight W (fst next) (snd next) = Some e ->
         requests_retry_session_get W url auth s = (Raise e, first)) /\
      (preflight W (fst next) (snd next) = None ->
       exists rest,
         trace (snd (requests_retry_session_get W url auth s))
         = trace first ++ EAttempt (fst next) (snd next) :: rest))).
Proof.
  intros Hpre Hw. cbv zeta.
  rewrite requests_retry_session_get_eq. unfold send.
  rewrite resolve_redirects_step, Hpre, urlopen_step. cbv zeta.
  cbn [trace handler df]. rewrite <- app_assoc. cbn [app]. rewrite Hw.
  assert (Hagain :
    is_retry retries status_forcelist r = true
    <-> In (status_code r) [500; 502; 504]%Z \/
        (retry_after r = true /\ In (status_code r) [413; 429; 503]%Z)).
  { unfold is_retry, retries, status_forcelist, retry_after_status_codes.
    simpl. rewrite !orb_true_iff, !andb_true_iff, !orb_true_iff, !Z.eqb_eq.
    intuition congruence. }
  set (first := {| handler := handler s; df := df s;
                   trace := trace s ++ [EGet Resilient url auth;
                                        EAttempt url auth] |}).
  assert (Hnext : forall total u' a',
    exists rest,
      trace (snd (urlopen W total status_forcelist u' a' first))
      = trace first ++ EAttempt u' a' :: rest).
  { intros total u' a'.
    destruct (@urlopen_outcome W status_forcelist u' a' total first)
      as (_ & _ & k & Hk & Ht & _).
    destruct k as [|k]; [lia|].
    exists (repeat (EAttempt u' a') k). exact Ht. }
  split.
  - intros Hyes. rewrite (proj2 Hagain Hyes). unfold retries.
    destruct (Hnext 2%nat url auth) as (rest & Hrest).
    destruct (urlopen W 2 status_forcelist url auth first)
      as [[r2|e2] s2] eqn:E; cbn [snd] in Hrest.
    + destruct (get_redirect_target r2) as [target|].
      * pose proof (@resolve_redirects_outcome W status_forcelist 3 29
                      (fst (next_hop W url auth target))
                      (snd (next_hop W url auth target)) s2) as H.
        cbv zeta in H. destruct H as (_ & _ & evs & Ht & _).
        exists (rest ++ evs). unfold max_redirects. rewrite Ht, Hrest.
        rewrite <- app_assoc. reflexivity.
      * exists rest. exact Hrest.
    + exists rest. exact Hrest.
  - intros Hno.
    destruct (is_retry retries status_forcelist r) eqn:Hr;
      [exfalso; apply Hno; now apply Hagain|].
    split.
    + intros ->. reflexivity.
    + intros target ->. cbv zeta. unfold max_redirects. split.
      * intros e He. rewrite resolve_redirects_step, He. reflexivity.
      * intros Hok. rewrite resolve_redirects_step, Hok.
        destruct (Hnext 3%nat (fst (next_hop W url auth target))
                    (snd (next_hop W url auth target))) as (rest & Hrest).
        unfold retries.
        destruct (urlopen W 3 status_forcelist _ _ first)
          as [[r2|e2] s2] eqn:E; cbn [snd] in Hrest.
        -- destruct (get_redirect_target r2) as [target2|].
           ++ pose proof (@resolve_redirects_outcome W status_forcelist 3 28
                  (fst (next_hop W (fst (next_hop W url auth target))
                          (snd (next_hop W url auth target)) target2))
                  (snd (next_hop W (fst (next_hop W url auth target))
                          (snd (next_hop W url auth target)) target2))
                  s2) as H.
              cbv zeta in H. destruct H as (_ & _ & evs & Ht & _).
              exists (rest ++ evs). rewrite Ht, Hrest.
              rewrite <- app_assoc. reflexivity.
           ++ exists rest. exact Hrest.
        -- exists rest. exact Hrest.
Qed.

Lemma first_answer_decides_witness :
  (exists rest,
     trace (snd (requests_retry_session_get busy_world rate_limit_url
                   (u "token k1") (fresh [u "k1"])))
     = [EGet Resilient rate_limit_url (u "token k1");
        EAttempt rate_limit_url (u "token k1");
        EAttempt rate_limit_url (u "token k1")] ++ rest) /\
  fst (requests_retry_session_get alice_world (users_url (u "nobody"))
         (u "token k1") (fresh [u "k1"]))
  = Ok (page 404 []) /\
  (exists rest,
     trace (snd (requests_retry_session_get moved_readme_world
                   (readme_url (u "alice")) (u "token k1")
                   (fresh [u "k1"])))
     = [EGet Resilient (readme_url (u "alice")) (u "token k1");
        EAttempt (readme_url (u "alice")) (u "token k1");
        EAttempt new_readme_url (u "token k1")] ++ rest).
Proof.
  split; [|split].
  - destruct (proj1 (@first_answer_decides busy_world rate_limit_url
                       (u "token k1") (fresh [u "k1"]) busy
                       eq_refl eq_refl)) as (rest & H).
    { right. split; [reflexivity|]. simpl. auto. }
    exists rest. exact H.
  - destruct (proj2 (@first_answer_decides alice_world
                       (users_url (u "nobody")) (u "token k1")
                       (fresh [u "k1"]) (page 404 []) eq_refl eq_refl))
      as [H _].
    { intros [H|[H _]]; [|discriminate H].
      simpl in H. intuition discriminate. }
    rewrite (H eq_refl). reflexivity.
  - destruct (proj2 (@first_answer_decides moved_readme_world
                       (readme_url (u "alice")) (u "token k1")
                       (fresh [u "k1"]) (moved new_readme_url)
                       eq_refl eq_refl)) as [_ H].
    { intros [H|[H _]]; [|discriminate H].
      simpl in H. intuition discriminate. }
    destruct (H new_readme_url eq_refl) as [_ Hgo].
    destruct (Hgo eq_refl) as (rest & Hrest).
    exists rest. exact Hrest.
Defined.

(** ** The README request, continued *)

Lemma extract_email_shape (alnum : N -> bool) (text m : pystr) :
  extract_email alnum text = Some m ->
  ReSpec.email_shape m /\ substring m text.
Proof.
  rewrite extract_email_search.
  destruct (Re.search alnum pattern None text) as [x|] eqn:Hs;
    [|discriminate].
  intros H. simpl in H. injection H as <-.
  destruct (@search_finds _ _ _ _ _ Hs) as (i & _ & Hm & _).
  unfold ReSpec.attempt_at in Hm.
  apply pattern_match_inv in Hm.
  destruct Hm as (post & Hrest & Hshape & _).
  rewrite (@strip_keeps strip_chars x (shape_not_stripped Hshape)).
  split; [exact Hshape|].
  exists (firstn i text), post.
  rewrite <- Hrest. symmetry. apply firstn_skipn.
Qed.

(** What [get_email_from_readme] makes of the outcome of its GET. *)
Lemma get_email_from_readme_eq (W : World) (username headers : pystr)
    (s : St) :
  get_email_from_readme W username headers s
  = match requests_get W (readme_url username) headers s with
    | (Ok resp, s') =>
        (Ok (if Z.eqb (status_code resp) 200
             then py_of_option
                    (extract_email (unicode_alnum W) (text resp))
             else PNone), s')
    | (Raise e, s') => (Raise e, s')
    end.
Proof.
  unfold get_email_from_readme, bind.
  destruct (requests_get W (readme_url username) headers s)
    as [[resp|e] s']; [|reflexivity].
  destruct (Z.eqb (status_code resp) 200); reflexivity.
Qed.

(** X6: [get_email_from_readme] hands one GET to the plain client and
    changes neither the handler nor the table.  The plain client makes
    one attempt for each request: at most 31 with the redirects that it
    follows, and exactly one when the first answer is no redirect, which
    is then final whatever its status; a failed attempt is not repeated
    and raises [ConnectionError].  A string that the function returns has
    the shape [local@domain.tld] and is taken from the text of a response
    with status 200. *)
Theorem get_email_from_readme_outcome (W : World) (username headers : pystr)
    (s : St) :
  let url := readme_url username in
  let r := get_email_from_readme W username headers s in
  let first := {| handler := handler s; df := df s;
                  trace := trace s ++ [EGet Bare url headers;
                                       EAttempt url headers] |} in
  handler (snd r) = handler s /\ df (snd r) = df s /\
  (exists evs,
     trace (snd r) = trace s ++ EGet Bare url headers :: evs /\
     forallb is_attempt evs = true /\
     (List.length evs <= 31)%nat) /\
  (forall m, fst r = Ok (PStr m) ->
     ReSpec.email_shape m /\
     exists resp url' auth',
       wire W (trace (snd r)) url' auth' = Answer resp /\
       status_code resp = 200%Z /\ substring m (text resp)) /\
  (preflight W url headers = None ->
   match wire W (trace first) url headers with
   | Answer resp =>
       get_redirect_target resp = None ->
       r = (Ok (if Z.eqb (status_code resp) 200
                then py_of_option
                       (extract_email (unicode_alnum W) (text resp))
                else PNone), first)
   | Abort e => r = (Raise e, first)
   | _ => r = (Raise ConnectionError, first)
   end).
Proof.
  cbv zeta. rewrite get_email_from_readme_eq, requests_get_eq.
  set (url := readme_url username).
  set (s1 := {| handler := handler s; df := df s;
                trace := trace s ++ [EGet Bare url headers] |}).
  pose proof (@send_outcome W [] 0 url headers s1) as H.
  cbv zeta in H. destruct H as (Hh & Hd & evs & Ht & Hall & Hlen & Hok).
  split; [|split; [|split; [|split]]].
  - destruct (send W 0 [] url headers s1) as [[resp|e] s']; exact Hh.
  - destruct (send W 0 [] url headers s1) as [[resp|e] s']; exact Hd.
  - exists evs.
    assert (Htr : trace (snd (send W 0 [] url headers s1))
                  = trace s ++ EGet Bare url headers :: evs).
    { rewrite Ht. subst s1. cbn [trace]. now rewrite <- app_assoc. }
    split; [|split; [exact Hall|simpl in Hlen; lia]].
    destruct (send W 0 [] url headers s1) as [[resp|e] s']; exact Htr.
  - intros m Hm.
    destruct (send W 0 [] url headers s1) as [[resp|e] s'];
      cbn [fst snd] in *; [|discriminate].
    destruct (Hok resp eq_refl) as (_ & _ & pre & u' & a' & _ & Hw).
    destruct (Z.eqb_spec (status_code resp) 200) as [E|_];
      [|discriminate].
    injection Hm as Hm.
    destruct (extract_email (unicode_alnum W) (text resp)) as [x|] eqn:Hx;
      [|discriminate].
    simpl in Hm. injection Hm as ->.
    destruct (extract_email_shape _ _ Hx) as [Hshape Hsub].
    split; [exact Hshape|]. exists resp, u', a'. auto.
  - intros Hpre. unfold send.
    rewrite resolve_redirects_step, Hpre, urlopen_step. cbv zeta.
    subst s1. cbn [trace handler df]. rewrite <- app_assoc. cbn [app].
    destruct (wire W (trace s ++ [EGet Bare url headers;
                                  EAttempt url headers]) url headers)
      as [| |resp|e]; try reflexivity.
    intros Hnone.
    assert (Hr : is_retry 0 [] resp = false) by reflexivity.
    rewrite Hr, Hnone. reflexivity.
Qed.

Lemma get_email_from_readme_outcome_witness :
  fst (get_email_from_readme alice_world (u "alice") (u "token k1")
         (fresh [u "k1"])) = Ok (PStr (u "alice@example.com")) /\
  ReSpec.email_shape (u "alice@example.com") /\
  fst (get_email_from_readme flaky_readme_world (u "alice") (u "token k1")
         (fresh [u "k1"])) = Ok PNone.
Proof.
  destruct (@get_email_from_readme_outcome alice_world (u "alice")
              (u "token k1") (fresh [u "k1"]))
    as (_ & _ & _ & Hshape & _).
  destruct (@get_email_from_readme_outcome flaky_readme_world (u "alice")
              (u "token k1") (fresh [u "k1"]))
    as (_ & _ & _ & _ & Hfirst).
  split; [reflexivity|]. split.
  - exact (proj1 (Hshape (u "alice@example.com") eq_refl)).
  - specialize (Hfirst eq_refl).
    change (wire flaky_readme_world _ _ _)
      with (Answer (page 502 [])) in Hfirst.
    rewrite (Hfirst eq_refl). reflexivity.
Defined.

(** With the README moved, the plain client follows the redirect and the
    address is found in the document at the new location. *)
Lemma get_email_from_readme_follows_redirect :
  let r := get_email_from_readme moved_readme_world (u "alice")
             (u "token k1") (fresh [u "k1"]) in
  fst r = Ok (PStr (u "alice@example.com")) /\
  trace (snd r)
  = [EGet Bare (readme_url (u "alice")) (u "token k1");
     EAttempt (readme_url (u "alice")) (u "token k1");
     EAttempt new_readme_url (u "token k1")].
Proof. vm_compute. split; reflexivity. Qed.

(** ** The quota probe at its edges *)

Lemma get_headers_inv (s s' : St) (headers : pystr) :
  get_headers s = (Ok headers, s') ->
  s' = s /\ api_keys (handler s) <> [].
Proof.
  unfold get_headers, bind, the_handler, py_index, ret, raise.
  destruct (Z.ltb (current_key_index (handler s)) 0) eqn:Hneg;
    match goal with
    | |- context [if ?b then _ else _] => destruct b eqn:Hb
    end; intros H; try discriminate; injection H as _ <-;
    (split; [reflexivity|]); intros Hnil; rewrite Hnil in Hb;
    simpl in Hb; apply andb_prop in Hb; destruct Hb as [H0 H1];
    apply Z.leb_le in H0; apply Z.ltb_lt in H1; lia.
Qed.

Section ProbeEdges.

Variable W : World.

Lemma get_remaining_requests_after (s s1 : St) (headers : pystr)
    (r : Response) :
  get_headers s = (Ok headers, s) ->
  requests_retry_session_get W rate_limit_url headers s = (Ok r, s1) ->
  get_remaining_requests W s
  = (if Z.eqb (status_code r) 200 then
       rate_limit_data <- response_json r ;;
       rate <- py_getitem rate_limit_data (u "rate") ;;
       remaining <- py_getitem rate (u "remaining") ;;
       ret remaining
     else ret (PInt 0)) s1.
Proof.
  intros Hh Hget. unfold get_remaining_requests, bind at 1. rewrite Hh.
  unfold bind at 1. rewrite Hget. reflexivity.
Qed.

End ProbeEdges.

(** A probe that is answered with a status of the forcelist at every
    attempt uses up the retries and ends in [RetryError]. *)
Lemma urlopen_always_listed (W : World) (forcelist : list Z)
    (url auth : pystr) :
  (forall h, exists r,
      wire W h url auth = Answer r /\
      existsb (Z.eqb (status_code r)) forcelist = true) ->
  forall total s,
    urlopen W total forcelist url auth s
    = (Raise RetryError,
       {| handler := handler s; df := df s;
          trace := trace s ++ repeat (EAttempt url auth) (S total) |}).
Proof.
  intros Hlisted. induction total as [|b IH]; intros s;
    rewrite urlopen_step; cbv zeta; cbn [trace];
    destruct (Hlisted (trace s ++ [EAttempt url auth])) as (r & -> & Hf);
    unfold is_retry; rewrite Hf; cbn [orb].
  - reflexivity.
  - rewrite IH. cbn [trace handler df]. rewrite <- app_assoc. reflexivity.
Qed.

(** X7: what the quota check makes of its probe.  A response that the
    retrying session returns with a status other than 200 (a 403 or a 404,
    say; never a 500, 502 or 504) counts as a quota of 0:
    [get_remaining_requests] returns 0 and [check_and_switch_key] switches
    to the next key.  When the session raises, the check raises the same
    exception and switches nothing; this is what happens, with
    [RetryError] after four attempts, to a probe that is answered 500, 502
    or 504 every time. *)
Theorem probe_failure_forces_rotation (W : World) (s : St)
    (headers : pystr) :
  get_headers s = (Ok headers, s) ->
  (forall r s1,
      requests_retry_session_get W rate_limit_url headers s = (Ok r, s1) ->
      status_code r <> 200%Z ->
      ~ In (status_code r) [500; 502; 504]%Z /\
      get_remaining_requests W s = (Ok (PInt 0), s1) /\
      exists s2,
        check_and_switch_key W s = (Ok tt, s2) /\
        current_key_index (handler s2)
        = ((current_key_index (handler s) + 1)
           mod Z.of_nat (List.length (api_keys (handler s))))%Z /\
        request_count (handler s2) = 0%Z /\
        rotations (trace s2) = S (rotations (trace s))) /\
  (forall e s1,
      requests_retry_session_get W rate_limit_url headers s = (Raise e, s1) ->
      get_remaining_requests W s = (Raise e, s1) /\
      check_and_switch_key W s = (Raise e, s1) /\
      handler s1 = handler s /\
      rotations (trace s1) = rotations (trace s)) /\
  (preflight W rate_limit_url headers = None ->
   (forall h, exists r,
       wire W h rate_limit_url headers = Answer r /\
       In (status_code r) [500; 502; 504]%Z) ->
   requests_retry_session_get W rate_limit_url headers s
   = (Raise RetryError,
      {| handler := handler s; df := df s;
         trace := trace s
                  ++ EGet Resilient rate_limit_url headers
                     :: repeat (EAttempt rate_limit_url headers) 4 |})).
Proof.
  intros Hh.
  pose proof (probe_frame W s) as Hframe.
  split; [|split].
  - intros r s1 Hget Hstatus.
    split; [exact (@retry_session_status W _ _ _ _ _ Hget)|].
    assert (Hprobe : get_remaining_requests W s = (Ok (PInt 0), s1)).
    { rewrite (@get_remaining_requests_after W s s1 headers r Hh Hget).
      destruct (Z.eqb_spec (status_code r) 200);
        [contradiction|reflexivity]. }
    split; [exact Hprobe|].
    destruct (@get_headers_inv s s headers Hh) as [_ Hkeys].
    rewrite Hprobe in Hframe.
    simpl in Hframe. destruct Hframe as (Hhs & _ & _ & Hr).
    unfold check_and_switch_key, bind at 1. rewrite Hprobe.
    unfold bind, log, emit, py_lt, ret, the_handler, py_mod, update_handler,
      sleep. simpl.
    destruct (Z.eqb_spec (Z.of_nat (List.length (api_keys (handler s1)))) 0)
      as [E|_].
    { rewrite Hhs in E. destruct (api_keys (handler s)); [congruence|].
      simpl in E. lia. }
    simpl. rewrite Hhs.
    destruct (Z.geb (failed_attempts (handler s) + 1) 18); simpl;
      eexists; (split; [reflexivity|]); simpl;
      unfold rotations in *; rewrite !count_app, Hr; unfold count; simpl;
      repeat split; lia.
  - intros e s1 Hget.
    assert (Hprobe : get_remaining_requests W s = (Raise e, s1)).
    { unfold get_remaining_requests, bind at 1. rewrite Hh.
      unfold bind at 1. rewrite Hget. reflexivity. }
    rewrite Hprobe in Hframe. simpl in Hframe.
    destruct Hframe as (Hhs & _ & _ & Hr).
    split; [exact Hprobe|]. split; [|split; [exact Hhs|exact Hr]].
    unfold check_and_switch_key, bind at 1. now rewrite Hprobe.
  - intros Hpre Hlisted.
    rewrite requests_retry_session_get_eq. unfold send.
    rewrite resolve_redirects_step, Hpre.
    rewrite (@urlopen_always_listed W status_forcelist rate_limit_url
               headers).
    + cbn [trace handler df]. rewrite <- app_assoc. reflexivity.
    + intros h. destruct (Hlisted h) as (r & Hw & Hin).
      exists r. split; [exact Hw|].
      destruct (existsb (Z.eqb (status_code r)) status_forcelist) eqn:E;
        [reflexivity|].
      apply forcelist_spec in E. contradiction.
Qed.

Lemma probe_failure_forces_rotation_witness :
  (exists s2,
     check_and_switch_key forbidden_world (fresh [u "k1"; u "k2"])
     = (Ok tt, s2) /\
     current_key_index (handler s2) = 1%Z) /\
  fst (check_and_switch_key broken_world (fresh [u "k1"; u "k2"]))
  = Raise RetryError.
Proof.
  split.
  - destruct (@probe_failure_forces_rotation forbidden_world
                (fresh [u "k1"; u "k2"]) (u "token k1") eq_refl)
      as (Hok & _).
    destruct (Hok (page 403 []) _ eq_refl ltac:(discriminate))
      as (_ & _ & s2 & Hrun & Hi & _).
    exists s2. split; [exact Hrun|exact Hi].
  - destruct (@probe_failure_forces_rotation broken_world
                (fresh [u "k1"; u "k2"]) (u "token k1") eq_refl)
      as (_ & Hraise & Hlisted).
    assert (Hget := Hlisted eq_refl
              (fun h => ex_intro _ (page 502 [])
                          (conj eq_refl (or_intror (or_introl eq_refl))))).
    destruct (Hraise _ _ Hget) as (_ & Hcheck & _).
    rewrite Hcheck. reflexivity.
Defined.

(** X8: what a probe answered with status 200 yields.  A body that is not
    JSON raises [JSONDecodeError]; JSON that is not an object, or whose
    ['rate'] is not an object, raises [TypeError]; an object without
    ['rate'], or whose ['rate'] has no ['remaining'], raises [KeyError];
    otherwise the value of ['remaining'] is returned, as it is. *)
Theorem probe_payload (W : World) (s s1 : St) (headers : pystr)
    (r : Response) :
  get_headers s = (Ok headers, s) ->
  requests_retry_session_get W rate_limit_url headers s = (Ok r, s1) ->
  status_code r = 200%Z ->
  (json r = None ->
   get_remaining_requests W s = (Raise JSONDecodeError, s1)) /\
  (forall v, json r = Some v -> (forall d, v <> PDict d) ->
     get_remaining_requests W s = (Raise TypeError, s1)) /\
  (forall d, json r = Some (PDict d) ->
     (lookup (u "rate") d = None ->
      get_remaining_requests W s = (Raise KeyError, s1)) /\
     (forall v, lookup (u "rate") d = Some v -> (forall d', v <> PDict d') ->
        get_remaining_requests W s = (Raise TypeError, s1)) /\
     (forall d', lookup (u "rate") d = Some (PDict d') ->
        (lookup (u "remaining") d' = None ->
         get_remaining_requests W s = (Raise KeyError, s1)) /\
        (forall v, lookup (u "remaining") d' = Some v ->
           get_remaining_requests W s = (Ok v, s1)))).
Proof.
  intros Hh Hget Hstatus.
  rewrite (@get_remaining_requests_after W s s1 headers r Hh Hget), Hstatus.
  simpl. unfold response_json, bind, py_getitem, ret, raise.
  split; [|split].
  - intros ->. reflexivity.
  - intros v -> Hv. destruct v; try reflexivity.
    exfalso. exact (Hv d eq_refl).
  - intros d ->. split; [|split].
    + intros ->. reflexivity.
    + intros v -> Hv. destruct v; try reflexivity.
      exfalso. exact (Hv d0 eq_refl).
    + intros d' ->. split.
      * intros ->. reflexivity.
      * intros v ->. reflexivity.
Qed.

Lemma probe_payload_witness :
  fst (get_remaining_requests no_rate_world (fresh [u "k1"]))
  = Raise KeyError /\
  fst (get_remaining_requests list_payload_world (fresh [u "k1"]))
  = Raise TypeError /\
  fst (get_remaining_requests low_world (fresh [u "k1"])) = Ok (PInt 3).
Proof.
  split; [|split].
  - destruct (@probe_payload no_rate_world (fresh [u "k1"]) _
                (u "token k1") (response_200 (PDict [(u "message", PNone)]))
                eq_refl eq_refl eq_refl) as (_ & _ & H).
    destruct (H _ eq_refl) as (Hmissing & _).
    rewrite (Hmissing eq_refl). reflexivity.
  - destruct (@probe_payload list_payload_world (fresh [u "k1"]) _
                (u "token k1") (response_200 (PList []))
                eq_refl eq_refl eq_refl) as (_ & H & _).
    rewrite (H _ eq_refl ltac:(discriminate)). reflexivity.
  - destruct (@probe_payload low_world (fresh [u "k1"]) _
                (u "token k1") (response_200 (rate_limit_payload 3))
                eq_refl eq_refl eq_refl) as (_ & _ & H).
    destruct (H _ eq_refl) as (_ & _ & Hrate).
    destruct (Hrate _ eq_refl) as (_ & Hremaining).
    rewrite (Hremaining _ eq_refl). reflexivity.
Defined.

(** X9: a probe that raises fails the whole call.  [check_and_switch_key]
    and [get_user_info_from_github_api] raise the same exception in the
    state the probe left; the handler and the table are as before, and
    nothing but the probe went over the wire.  A ['remaining'] that is
    not a number raises [TypeError] at the comparison, again without any
    change to the handler. *)
Theorem probe_error_fails_the_call (W : World) (s : St) :
  (forall e s1,
      get_remaining_requests W s = (Raise e, s1) ->
      check_and_switch_key W s = (Raise e, s1) /\
      (forall who, get_user_info_from_github_api W who s = (Raise e, s1)) /\
      handler s1 = handler s /\ df s1 = df s /\
      rotations (trace s1) = rotations (trace s)) /\
  (forall v s1,
      get_remaining_requests W s = (Ok v, s1) ->
      (forall st, py_lt v 10 st = (Raise TypeError, st)) ->
      exists s2,
        check_and_switch_key W s = (Raise TypeError, s2) /\
        (forall who,
            get_user_info_from_github_api W who s = (Raise TypeError, s2)) /\
        handler s2 = handler s /\ df s2 = df s /\
        rotations (trace s2) = rotations (trace s)).
Proof.
  pose proof (probe_frame W s) as Hframe.
  split.
  - intros e s1 Hprobe. rewrite Hprobe in Hframe. simpl in Hframe.
    destruct Hframe as (Hh & Hd & _ & Hr).
    assert (Hcheck : check_and_switch_key W s = (Raise e, s1)).
    { unfold check_and_switch_key, bind at 1. now rewrite Hprobe. }
    split; [exact Hcheck|]. split; [|auto].
    intros who. unfold get_user_info_from_github_api, bind at 1.
    now rewrite Hcheck.
  - intros v s1 Hprobe Htype. rewrite Hprobe in Hframe. simpl in Hframe.
    destruct Hframe as (Hh & Hd & _ & Hr).
    assert (Hcheck :
      check_and_switch_key W s
      = (Raise TypeError,
         {| handler := handler s1; df := df s1;
            trace := trace s1 ++ [ELog INFO (LRemaining v)] |})).
    { unfold check_and_switch_key, bind at 1. rewrite Hprobe.
      unfold bind at 1, log, emit. simpl. unfold bind at 1.
      now rewrite Htype. }
    eexists. split; [exact Hcheck|]. split.
    + intros who. unfold get_user_info_from_github_api, bind at 1.
      now rewrite Hcheck.
    + simpl. unfold rotations in *. rewrite count_app, Hr.
      unfold count at 2. simpl. auto.
Qed.

Lemma probe_error_fails_the_call_witness :
  fst (get_user_info_from_github_api offline_world (PStr (u "alice"))
         (fresh [u "k1"])) = Raise ConnectionError /\
  fst (check_and_switch_key text_quota_world (fresh [u "k1"]))
  = Raise TypeError.
Proof.
  split.
  - destruct (proj1 (probe_error_fails_the_call offline_world
                       (fresh [u "k1"])) ConnectionError _ eq_refl)
      as (_ & Hinfo & _).
    rewrite (Hinfo (PStr (u "alice"))). reflexivity.
  - destruct (proj2 (probe_error_fails_the_call text_quota_world
                       (fresh [u "k1"])) (PStr (u "5000")) _ eq_refl
                (fun st => eq_refl)) as (s2 & Hcheck & _).
    rewrite Hcheck. reflexivity.
Defined.

(** ** Invariants of the handler *)

Section Keeping.

Variable P : Handler -> Prop.

Lemma keeps_ret A (a : A) : keeps P (ret a).
Proof. intros s H. exact H. Qed.

Lemma keeps_raise A (e : exn) : keeps P (@raise A e).
Proof. intros s H. exact H. Qed.

Lemma keeps_observe A (q : history -> A) : keeps P (observe q).
Proof. intros s H. exact H. Qed.

Lemma keeps_the_handler : keeps P the_handler.
Proof. intros s H. exact H. Qed.

Lemma keeps_the_df : keeps P the_df.
Proof. intros s H. exact H. Qed.

Lemma keeps_emit (e : event) : keeps P (emit e).
Proof. intros s H. exact H. Qed.

Lemma keeps_update_df (f : list Row -> list Row) : keeps P (update_df f).
Proof. intros s H. exact H. Qed.

Lemma keeps_update_handler (f : Handler -> Handler) :
  (forall h, P h -> P (f h)) -> keeps P (update_handler f).
Proof. intros Hf s H. simpl. auto. Qed.

Lemma keeps_bind A B (m : M A) (f : A -> M B) :
  keeps P m -> (forall a, keeps P (f a)) -> keeps P (bind m f).
Proof.
  intros Hm Hf s H. unfold bind. specialize (Hm s H).
  destruct (m s) as [[a|e] s']; simpl in *; [|exact Hm].
  apply Hf. exact Hm.
Qed.

Lemma keeps_try_except A (m : M A) (h : exn -> M A) :
  keeps P m -> (forall e, keeps P (h e)) -> keeps P (try_except m h).
Proof.
  intros Hm Hh s H. unfold try_except. specialize (Hm s H).
  destruct (m s) as [[a|e] s']; simpl in *; [exact Hm|].
  apply Hh. exact Hm.
Qed.

End Keeping.

Create HintDb keeps.
#[export] Hint Resolve keeps_ret keeps_raise keeps_observe keeps_the_handler
  keeps_the_df keeps_emit keeps_update_df : keeps.

(** Splits a computation along its binds and case distinctions. *)
Ltac keep :=
  repeat first
    [ solve [auto with keeps]
    | apply keeps_bind; [|intros]
    | apply keeps_try_except; [|intros]
    | match goal with
      | |- keeps _ (match ?x with _ => _ end) => destruct x
      end
    | progress unfold py_index, py_getitem, py_get, py_mod, py_lt,
        response_json, log, sleep, now
    | progress cbv beta zeta ].

Section HandlerInvariant.

Variable W : World.

Lemma keeps_send (P : Handler -> Prop) (forcelist : list Z)
    (url auth : pystr) :
  forall budget, keeps P (send W budget forcelist url auth).
Proof.
  intros budget s H.
  destruct (@send_outcome W forcelist budget url auth s) as (Hh & _).
  now rewrite Hh.
Qed.

Lemma keeps_get_headers (P : Handler -> Prop) : keeps P get_headers.
Proof. unfold get_headers. keep. Qed.

Lemma keeps_get_remaining_requests (P : Handler -> Prop) :
  keeps P (get_remaining_requests W).
Proof.
  intros s H.
  destruct (probe_frame W s) as (Hh & _). now rewrite Hh.
Qed.

(** A call of [check_and_switch_key] leaves the handler as it is or makes
    the one switch. *)
Lemma check_and_switch_key_handler (s : St) :
  let h := handler s in
  let h' := handler (snd (check_and_switch_key W s)) in
  h' = h \/
  (api_keys h <> [] /\
   h' = {| api_keys := api_keys h;
           current_key_index :=
             (current_key_index h + 1) mod Z.of_nat (List.length (api_keys h));
           request_count := 0;
           max_requests_per_key := max_requests_per_key h;
           failed_attempts :=
             if Z.leb 18 (failed_attempts h + 1) then 0
             else failed_attempts h + 1 |}).
Proof.
  cbv zeta.
  pose proof (probe_frame W s) as Hframe.
  destruct (check_and_switch_key W s) as [r s'] eqn:E. simpl.
  unfold check_and_switch_key, bind at 1 in E.
  destruct (get_remaining_requests W s) as [[v|e] s1]; simpl in Hframe;
    destruct Hframe as (Hh & _).
  2:{ injection E as <- <-. left. exact Hh. }
  unfold bind at 1 in E. simpl in E. unfold bind at 1 in E.
  destruct (py_lt v 10 _) as [[[|]|e] s2] eqn:Elt;
    pose proof (py_lt_state _ _ _ Elt) as Es2; subst s2.
  - unfold bind, the_handler, py_mod, update_handler, log, sleep, emit, ret
      in E. simpl in E.
    destruct (Z.eqb_spec (Z.of_nat (List.length (api_keys (handler s1)))) 0)
      as [E0|E0].
    { injection E as <- <-. left. exact Hh. }
    simpl in E. rewrite Z.geb_leb, Hh in E. rewrite Hh in E0.
    assert (Hkeys : api_keys (handler s) <> [])
      by (intros Hnil; rewrite Hnil in E0; simpl in E0; lia).
    destruct (Z.leb 18 (failed_attempts (handler s) + 1));
      injection E as <- <-; right; simpl; auto.
  - injection E as <- <-. left. exact Hh.
  - injection E as <- <-. left. exact Hh.
Qed.

Lemma keeps_check_and_switch_key (keys : list pystr) (limit : Z) :
  keeps (pool_state keys limit) (check_and_switch_key W).
Proof.
  intros s (Hk & Hl & Hne & Hi & Hf).
  destruct (check_and_switch_key_handler s) as [-> | (_ & ->)].
  - repeat split; auto; lia.
  - unfold pool_state, well_formed. simpl.
    assert (Hn : (0 < Z.of_nat (List.length (api_keys (handler s))))%Z)
      by (destruct (api_keys (handler s)); [congruence|simpl; lia]).
    pose proof (Z.mod_pos_bound (current_key_index (handler s) + 1) _ Hn).
    destruct (Z.leb_spec 18 (failed_attempts (handler s) + 1));
      repeat split; auto; lia.
Qed.

Lemma pool_state_request_count (keys : list pystr) (limit n : Z)
    (h : Handler) :
  pool_state keys limit h -> pool_state keys limit (set_request_count n h).
Proof. intros H. exact H. Qed.

Lemma keeps_get_user_info (keys : list pystr) (limit : Z) (who : pyval) :
  keeps (pool_state keys limit) (get_user_info_from_github_api W who).
Proof.
  unfold get_user_info_from_github_api, get_email_from_readme,
    requests_retry_session_get, requests_get.
  pose proof (@keeps_check_and_switch_key keys limit).
  pose proof (@keeps_get_headers (pool_state keys limit)).
  pose proof (@keeps_send (pool_state keys limit)).
  keep.
  apply keeps_update_handler. intros h Hh. exact Hh.
Qed.

Lemma keeps_write_to_google_sheet (P : Handler -> Prop) (name : pystr)
    (data : list (list pyval)) :
  keeps P (GHES.write_to_google_sheet W name data).
Proof.
  unfold GHES.write_to_google_sheet, GHES.ensure_sheet_and_setup_columns,
    GHES.except_HttpError, GHES.credentials, GHES.execute.
  keep.
Qed.

Lemma keeps_to_csv (P : Handler -> Prop) : keeps P (Cloud02.to_csv W).
Proof. unfold Cloud02.to_csv. keep. Qed.

Lemma keeps_GHES_main_loop (keys : list pystr) (limit : Z) (start_time : Z) :
  forall rows,
    keeps (pool_state keys limit) (GHES.main_loop W start_time rows).
Proof.
  pose proof (@keeps_get_user_info keys limit).
  pose proof (@keeps_write_to_google_sheet (pool_state keys limit)).
  induction rows as [|[index row] rows IH]; simpl.
  - apply keeps_ret.
  - unfold GHES.row_body. keep.
Qed.

Lemma keeps_Cloud02_main_loop (keys : list pystr) (limit : Z)
    (start_time : Z) :
  forall rows,
    keeps (pool_state keys limit) (Cloud02.main_loop W start_time rows).
Proof.
  pose proof (@keeps_get_user_info keys limit).
  pose proof (@keeps_to_csv (pool_state keys limit)).
  induction rows as [|[index row] rows IH]; simpl.
  - apply keeps_ret.
  - unfold Cloud02.row_body. keep.
Qed.

Lemma get_headers_well_formed (s : St) :
  well_formed (handler s) ->
  get_headers s
  = (Ok (u "token " ++ nth (Z.to_nat (current_key_index (handler s)))
                           (api_keys (handler s)) []), s).
Proof.
  intros (_ & Hi & _).
  unfold get_headers, bind, the_handler, py_index.
  destruct (Z.ltb_spec (current_key_index (handler s)) 0); [lia|].
  destruct (Z.leb_spec 0 (current_key_index (handler s))); [|lia].
  destruct (Z.ltb_spec (current_key_index (handler s))
              (Z.of_nat (List.length (api_keys (handler s))))); [|lia].
  reflexivity.
Qed.

End HandlerInvariant.

(** X10: [get_user_info_from_github_api] keeps the handler well formed,
    whatever the servers answer and whatever it is asked for: the pool
    and [max_requests_per_key] are never assigned, the index stays inside
    the pool and [failed_attempts] below 18.  So the next call finds its
    current key: [get_headers] does not raise [IndexError]. *)
Theorem handler_stays_well_formed (W : World) (who : pyval) (s : St) :
  well_formed (handler s) ->
  let s' := snd (get_user_info_from_github_api W who s) in
  well_formed (handler s') /\
  api_keys (handler s') = api_keys (handler s) /\
  max_requests_per_key (handler s') = max_requests_per_key (handler s) /\
  exists headers, get_headers s' = (Ok headers, s').
Proof.
  intros Hwf. cbv zeta.
  destruct (@keeps_get_user_info W (api_keys (handler s))
              (max_requests_per_key (handler s)) who s)
    as (Hk & Hl & Hwf'); [repeat split; auto; apply Hwf|].
  repeat split; auto; try apply Hwf'.
  eexists. apply get_headers_well_formed. exact Hwf'.
Qed.

Lemma handler_stays_well_formed_witness :
  let s' := snd (get_user_info_from_github_api low_world
                   (PStr (u "alice")) (fresh [u "k1"; u "k2"])) in
  well_formed (handler s') /\ current_key_index (handler s') = 1%Z.
Proof.
  cbv zeta. split; [|reflexivity].
  apply (@handler_stays_well_formed low_world (PStr (u "alice"))
           (fresh [u "k1"; u "k2"])).
  unfold well_formed. simpl. repeat split; try lia. discriminate.
Defined.

(** X11: throughout a run the handler stays as [main] built it from the
    environment value: at the end of either driver loop it still has the
    same pool and limit, a current index inside the pool and a failure
    counter below 18, for every world and every table. *)
Theorem pool_survives_the_run (W : World) (start_time : Z)
    (rows : list (nat * Row)) (v : pystr) (s : St) :
  handler s = init (split (chr ",") v) ->
  let g := snd (GHES.main_loop W start_time rows s) in
  let c := snd (Cloud02.main_loop W start_time rows s) in
  pool_state (split (chr ",") v) 3650 (handler g) /\
  pool_state (split (chr ",") v) 3650 (handler c).
Proof.
  intros Hinit. cbv zeta.
  assert (Hstart : pool_state (split (chr ",") v) 3650 (handler s)).
  { rewrite Hinit. unfold pool_state, well_formed.
    cbn [api_keys max_requests_per_key current_key_index failed_attempts
         init].
    pose proof (split_not_nil (chr ",") v) as Hne.
    assert (0 < Z.of_nat (List.length (split (chr ",") v)))%Z
      by (destruct (split (chr ",") v); [contradiction|simpl; lia]).
    repeat split; auto; lia. }
  split.
  - exact (@keeps_GHES_main_loop W _ _ start_time rows s Hstart).
  - exact (@keeps_Cloud02_main_loop W _ _ start_time rows s Hstart).
Qed.

Lemma pool_survives_the_run_witness :
  let s := {| handler := init (split (chr ",") (u "k1,k2"));
              df := [pending_row "alice"]; trace := [] |} in
  pool_state [u "k1"; u "k2"] 3650
    (handler (snd (GHES.main_loop low_world 0 (iterrows (df s)) s))).
Proof.
  cbv zeta.
  exact (proj1 (@pool_survives_the_run low_world 0%Z
                  [(0%nat, pending_row "alice")] (u "k1,k2")
                  {| handler := init (split (chr ",") (u "k1,k2"));
                     df := [pending_row "alice"]; trace := [] |}
                  eq_refl)).
Defined.

(** ** Budgets *)

Section Budget.

Variable p : event -> bool.

Lemma budget_weaken A (m : M A) (n n' : nat) :
  (n <= n')%nat -> emits_at_most p n m -> emits_at_most p n' m.
Proof. intros Hn Hm s. specialize (Hm s). lia. Qed.

Lemma budget_ret A (a : A) : emits_at_most p 0 (ret a).
Proof. intros s. simpl. lia. Qed.

Lemma budget_raise A (e : exn) : emits_at_most p 0 (@raise A e).
Proof. intros s. simpl. lia. Qed.

Lemma budget_observe A (q : history -> A) : emits_at_most p 0 (observe q).
Proof. intros s. simpl. lia. Qed.

Lemma budget_the_handler : emits_at_most p 0 the_handler.
Proof. intros s. simpl. lia. Qed.

Lemma budget_the_df : emits_at_most p 0 the_df.
Proof. intros s. simpl. lia. Qed.

Lemma budget_update_handler (f : Handler -> Handler) :
  emits_at_most p 0 (update_handler f).
Proof. intros s. simpl. lia. Qed.

Lemma budget_update_df (f : list Row -> list Row) :
  emits_at_most p 0 (update_df f).
Proof. intros s. simpl. lia. Qed.

Lemma budget_emit (e : event) :
  emits_at_most p (if p e then 1 else 0) (emit e).
Proof.
  intros s. simpl. rewrite count_app. unfold count at 2. simpl.
  destruct (p e); simpl; lia.
Qed.

Lemma budget_bind A B (m : M A) (f : A -> M B) (c n : nat) :
  emits_at_most p c m -> (forall a, emits_at_most p (n - c) (f a)) ->
  (c <= n)%nat -> emits_at_most p n (bind m f).
Proof.
  intros Hm Hf Hc s. unfold bind. specialize (Hm s).
  destruct (m s) as [[a|e] s']; simpl in *; [|lia].
  specialize (Hf a s'). lia.
Qed.

Lemma budget_try_except A (m : M A) (h : exn -> M A) (c n : nat) :
  emits_at_most p c m -> (forall e, emits_at_most p (n - c) (h e)) ->
  (c <= n)%nat -> emits_at_most p n (try_except m h).
Proof.
  intros Hm Hh Hc s. unfold try_except. specialize (Hm s).
  destruct (m s) as [[a|e] s']; simpl in *; [lia|].
  specialize (Hh e s'). lia.
Qed.

End Budget.

Create HintDb budget.
#[export] Hint Resolve budget_ret budget_raise budget_observe
  budget_the_handler budget_the_df budget_update_handler budget_update_df
  budget_emit : budget.

(** Spends a budget along the binds and case distinctions of a
    computation; the cost of each step comes from the hint database. *)
Ltac settle_budget :=
  match goal with
  | |- emits_at_most ?p ?n ?m =>
      let n' := eval cbv in n in change (emits_at_most p n' m)
  end.

Ltac spend :=
  repeat first
    [ eapply budget_weaken; [|solve [eauto with budget]]; vm_compute; lia
    | eapply budget_bind;
        [ solve [eauto with budget] | intros; settle_budget
        | vm_compute; lia ]
    | eapply budget_try_except;
        [ solve [eauto with budget] | intros; settle_budget
        | vm_compute; lia ]
    | match goal with
      | |- emits_at_most _ _ (match ?x with _ => _ end) => destruct x
      | |- emits_at_most _ _ (bind (match ?x with _ => _ end) _) =>
          destruct x
      end
    | progress unfold py_index, py_getitem, py_get, py_mod, py_lt,
        response_json, log, sleep, now
    | progress cbv beta zeta ].

Section ClientBudget.

Variable W : World.

Lemma count_le_length (p : event -> bool) (evs : history) :
  (count p evs <= List.length evs)%nat.
Proof. unfold count. apply filter_length_le. Qed.

(** A GET costs no more than its attempts, whatever is counted. *)
Lemma budget_send (p : event -> bool) (budget : nat) (forcelist : list Z)
    (url auth : pystr) :
  emits_at_most p (31 * S budget) (send W budget forcelist url auth).
Proof.
  intros s.
  destruct (@send_outcome W forcelist budget url auth s)
    as (_ & _ & evs & Ht & _ & Hlen & _).
  rewrite Ht, count_app. pose proof (count_le_length p evs). lia.
Qed.

(** It costs nothing when attempts are not counted. *)
Lemma budget_send_free (p : event -> bool) (budget : nat)
    (forcelist : list Z) (url auth : pystr) :
  (forall e, is_attempt e = true -> p e = false) ->
  emits_at_most p 0 (send W budget forcelist url auth).
Proof.
  intros Hfree s.
  destruct (@send_outcome W forcelist budget url auth s)
    as (_ & _ & evs & Ht & Hall & _).
  rewrite Ht, count_app.
  rewrite (@count_none p is_attempt evs Hfree Hall). lia.
Qed.

(** Where no server redirects, a GET is a single request. *)
Lemma budget_send_direct (p : event -> bool) (budget : nat)
    (forcelist : list Z) (url auth : pystr) :
  direct W ->
  emits_at_most p (S budget) (send W budget forcelist url auth).
Proof.
  intros Hdirect s. rewrite (@send_direct W _ _ _ _ _ Hdirect).
  destruct (preflight W url auth); [cbn [snd]; lia|].
  destruct (@urlopen_outcome W forcelist url auth budget s)
    as (_ & _ & k & Hk & Ht & _).
  rewrite Ht, count_app.
  pose proof (count_le_length p (repeat (EAttempt url auth) k)) as Hle.
  rewrite repeat_length in Hle. lia.
Qed.

Lemma gets_send (budget : nat) (forcelist : list Z) (url auth : pystr) :
  emits_at_most is_get 0 (send W budget forcelist url auth).
Proof. apply budget_send_free. now intros []. Qed.

Lemma cooldowns_send (budget : nat) (forcelist : list Z)
    (url auth : pystr) :
  emits_at_most is_cooldown 0 (send W budget forcelist url auth).
Proof. apply budget_send_free. now intros []. Qed.

End ClientBudget.

#[export] Hint Resolve gets_send cooldowns_send : budget.

Lemma budget_get_headers (p : event -> bool) :
  emits_at_most p 0 get_headers.
Proof. unfold get_headers. spend. Qed.

#[export] Hint Resolve budget_get_headers : budget.

(** Attempts, given what a GET of either client costs at most. *)
Section AttemptBudget.

Variable W : World.
Variables session_cost plain_cost : nat.

Hypothesis session_get : forall url auth,
  emits_at_most is_attempt session_cost
    (requests_retry_session_get W url auth).
Hypothesis plain_get : forall url auth,
  emits_at_most is_attempt plain_cost (requests_get W url auth).

Lemma attempts_get_remaining_requests :
  emits_at_most is_attempt session_cost (get_remaining_requests W).
Proof.
  unfold get_remaining_requests.
  eapply budget_bind with (c := 0%nat);
    [apply budget_get_headers| |lia].
  intros headers. cbv zeta. rewrite Nat.sub_0_r.
  eapply budget_bind with (c := session_cost);
    [apply session_get| |lia].
  intros response. rewrite Nat.sub_diag. spend.
Qed.

Lemma attempts_check_and_switch_key :
  emits_at_most is_attempt session_cost (check_and_switch_key W).
Proof.
  unfold check_and_switch_key.
  eapply budget_bind with (c := session_cost);
    [apply attempts_get_remaining_requests| |lia].
  intros remaining. rewrite Nat.sub_diag. spend.
Qed.

Lemma attempts_get_email_from_readme (username headers : pystr) :
  emits_at_most is_attempt plain_cost
    (get_email_from_readme W username headers).
Proof.
  unfold get_email_from_readme. cbv zeta.
  eapply budget_bind with (c := plain_cost); [apply plain_get| |lia].
  intros response. rewrite Nat.sub_diag. spend.
Qed.

Lemma attempts_get_user_info (who : pyval) :
  emits_at_most is_attempt (session_cost + session_cost + plain_cost)
    (get_user_info_from_github_api W who).
Proof.
  unfold get_user_info_from_github_api.
  eapply budget_bind with (c := session_cost);
    [apply attempts_check_and_switch_key| |lia].
  intros _.
  eapply budget_bind with (c := 0%nat);
    [apply budget_get_headers| |lia].
  intros headers.
  eapply budget_bind with (c := 0%nat);
    [apply budget_update_handler| |lia].
  intros _.
  eapply budget_bind with (c := 0%nat);
    [destruct who; try apply budget_raise; apply budget_ret| |lia].
  intros name. cbv zeta.
  eapply budget_bind with (c := session_cost);
    [apply session_get| |lia].
  intros response.
  replace (session_cost + session_cost + plain_cost - session_cost - 0
           - 0 - 0 - session_cost)%nat with plain_cost by lia.
  destruct (negb (Z.eqb (status_code response) 200)).
  - eapply budget_weaken with (n := 0%nat); [lia|]. spend.
  - eapply budget_bind with (c := 0%nat); [| |lia].
    + unfold response_json. destruct (json response);
        [apply budget_ret|apply budget_raise].
    + intros user_data.
      eapply budget_bind with (c := 0%nat); [| |lia].
      * unfold py_get. destruct user_data; try apply budget_raise.
        destruct (lookup (u "email") d); apply budget_ret.
      * intros email. rewrite !Nat.sub_0_r.
        destruct (truthy email).
        -- eapply budget_weaken; [|apply budget_ret]. lia.
        -- apply attempts_get_email_from_readme.
Qed.

End AttemptBudget.

Section HandlerBudget.

Variable W : World.

(** HTTP attempts: with the redirects that may be followed, *)

Lemma attempts_retry_session_get (url auth : pystr) :
  emits_at_most is_attempt 124 (requests_retry_session_get W url auth).
Proof.
  unfold requests_retry_session_get.
  eapply budget_bind with (c := 0%nat);
    [apply (budget_emit is_attempt)| |lia].
  intros _. apply (@budget_send W is_attempt retries).
Qed.

Lemma attempts_requests_get (url auth : pystr) :
  emits_at_most is_attempt 31 (requests_get W url auth).
Proof.
  unfold requests_get.
  eapply budget_bind with (c := 0%nat);
    [apply (budget_emit is_attempt)| |lia].
  intros _. apply (@budget_send W is_attempt 0).
Qed.

(** and where no server redirects. *)

Lemma attempts_retry_session_get_direct (url auth : pystr) :
  direct W ->
  emits_at_most is_attempt 4 (requests_retry_session_get W url auth).
Proof.
  intros Hdirect. unfold requests_retry_session_get.
  eapply budget_bind with (c := 0%nat);
    [apply (budget_emit is_attempt)| |lia].
  intros _. apply (@budget_send_direct W is_attempt retries). exact Hdirect.
Qed.

Lemma attempts_requests_get_direct (url auth : pystr) :
  direct W ->
  emits_at_most is_attempt 1 (requests_get W url auth).
Proof.
  intros Hdirect. unfold requests_get.
  eapply budget_bind with (c := 0%nat);
    [apply (budget_emit is_attempt)| |lia].
  intros _. apply (@budget_send_direct W is_attempt 0). exact Hdirect.
Qed.

(** GETs handed to a client *)

Lemma gets_retry_session_get (url auth : pystr) :
  emits_at_most is_get 1 (requests_retry_session_get W url auth).
Proof.
  unfold requests_retry_session_get.
  eapply budget_bind with (c := 1%nat);
    [apply (budget_emit is_get)| |lia].
  intros _. apply gets_send.
Qed.

Lemma gets_requests_get (url auth : pystr) :
  emits_at_most is_get 1 (requests_get W url auth).
Proof.
  unfold requests_get.
  eapply budget_bind with (c := 1%nat);
    [apply (budget_emit is_get)| |lia].
  intros _. apply gets_send.
Qed.

#[local] Hint Resolve gets_retry_session_get gets_requests_get : budget.

Lemma gets_get_remaining_requests :
  emits_at_most is_get 1 (get_remaining_requests W).
Proof. unfold get_remaining_requests. spend. Qed.

#[local] Hint Resolve gets_get_remaining_requests : budget.

Lemma gets_check_and_switch_key :
  emits_at_most is_get 1 (check_and_switch_key W).
Proof. unfold check_and_switch_key. spend. Qed.

Lemma gets_get_email_from_readme (username headers : pystr) :
  emits_at_most is_get 1 (get_email_from_readme W username headers).
Proof. unfold get_email_from_readme. spend. Qed.

#[local] Hint Resolve gets_check_and_switch_key gets_get_email_from_readme
  : budget.

Lemma gets_get_user_info (who : pyval) :
  emits_at_most is_get 3 (get_user_info_from_github_api W who).
Proof. unfold get_user_info_from_github_api. spend. Qed.

(** Cooldowns *)

Lemma cooldowns_retry_session_get (url auth : pystr) :
  emits_at_most is_cooldown 0 (requests_retry_session_get W url auth).
Proof.
  unfold requests_retry_session_get.
  eapply budget_bind with (c := 0%nat);
    [apply (budget_emit is_cooldown)| |lia].
  intros _. apply cooldowns_send.
Qed.

Lemma cooldowns_requests_get (url auth : pystr) :
  emits_at_most is_cooldown 0 (requests_get W url auth).
Proof.
  unfold requests_get.
  eapply budget_bind with (c := 0%nat);
    [apply (budget_emit is_cooldown)| |lia].
  intros _. apply cooldowns_send.
Qed.

#[local] Hint Resolve cooldowns_retry_session_get cooldowns_requests_get
  : budget.

Lemma cooldowns_get_remaining_requests :
  emits_at_most is_cooldown 0 (get_remaining_requests W).
Proof. unfold get_remaining_requests. spend. Qed.

#[local] Hint Resolve cooldowns_get_remaining_requests : budget.

Lemma cooldowns_check_and_switch_key :
  emits_at_most is_cooldown 1 (check_and_switch_key W).
Proof. unfold check_and_switch_key. spend. Qed.

Lemma cooldowns_get_email_from_readme (username headers : pystr) :
  emits_at_most is_cooldown 0 (get_email_from_readme W username headers).
Proof. unfold get_email_from_readme. spend. Qed.

#[local] Hint Resolve cooldowns_check_and_switch_key
  cooldowns_get_email_from_readme : budget.

Lemma cooldowns_get_user_info (who : pyval) :
  emits_at_most is_cooldown 1 (get_user_info_from_github_api W who).
Proof. unfold get_user_info_from_github_api. spend. Qed.

End HandlerBudget.

(** X12: one call of [get_user_info_from_github_api] hands at most three
    GETs to a client (probe, profile, README) and sleeps the cooldown at
    most once, in every world and for every argument.  On the wire it
    makes at most 279 attempts: 124 for each GET of the retrying session
    and 31 for the plain one, redirects included; where no server
    redirects, at most nine (four, four and one). *)
Theorem get_user_info_budget (W : World) (who : pyval) (s : St) :
  let s' := snd (get_user_info_from_github_api W who s) in
  (count is_get (trace s') <= count is_get (trace s) + 3)%nat /\
  (cooldowns (trace s') <= cooldowns (trace s) + 1)%nat /\
  (count is_attempt (trace s') <= count is_attempt (trace s) + 279)%nat /\
  (direct W ->
   (count is_attempt (trace s') <= count is_attempt (trace s) + 9)%nat).
Proof.
  cbv zeta. split; [|split; [|split]].
  - apply gets_get_user_info.
  - apply cooldowns_get_user_info.
  - exact (@attempts_get_user_info W 124 31
             (attempts_retry_session_get W) (attempts_requests_get W)
             who s).
  - intros Hdirect.
    exact (@attempts_get_user_info W 4 1
             (fun url auth =>
                @attempts_retry_session_get_direct W url auth Hdirect)
             (fun url auth =>
                @attempts_requests_get_direct W url auth Hdirect)
             who s).
Qed.

Lemma get_user_info_budget_witness :
  direct alice_world /\
  (count is_attempt
     (trace (snd (get_user_info_from_github_api alice_world
                    (PStr (u "alice")) (fresh [u "k1"])))) <= 9)%nat.
Proof.
  assert (Hdirect : direct alice_world).
  { intros h url auth r. unfold alice_world, world_of. cbn [wire].
    repeat match goal with
           | |- context [if ?b then _ else _] => destruct b
           end; intros H; injection H as <-; reflexivity. }
  split; [exact Hdirect|].
  destruct (@get_user_info_budget alice_world (PStr (u "alice"))
              (fresh [u "k1"])) as (_ & _ & _ & H).
  exact (H Hdirect).
Defined.

(** ** Budgets of a run *)

Section LoopBudget.

Variable W : World.
Variable start_time : Z.
Variable p : event -> bool.
Variable c : nat.

Hypothesis clock_free : p EClock = false.
Hypothesis log_free : forall l m, p (ELog l m) = false.
Hypothesis csv_free : forall rows, p (EToCsv rows) = false.

Lemma budget_emit_free (e : event) (n : nat) :
  p e = false -> emits_at_most p n (emit e).
Proof.
  intros He. eapply budget_weaken; [|apply budget_emit].
  rewrite He. lia.
Qed.

Lemma budget_now (n : nat) : emits_at_most p n (now W).
Proof.
  unfold now. eapply budget_bind with (c := 0%nat); [| |lia].
  - apply budget_emit_free. exact clock_free.
  - intros _. eapply budget_weaken; [|apply budget_observe]. lia.
Qed.

Lemma budget_log (l : level) (m : logmsg) (n : nat) :
  emits_at_most p n (log l m).
Proof. apply budget_emit_free. apply log_free. Qed.

Lemma budget_to_csv (n : nat) : emits_at_most p n (Cloud02.to_csv W).
Proof.
  unfold Cloud02.to_csv.
  eapply budget_bind with (c := 0%nat); [apply budget_the_df| |lia].
  intros rows.
  eapply budget_bind with (c := 0%nat); [| |lia].
  - apply budget_emit_free. apply csv_free.
  - intros _. eapply budget_bind with (c := 0%nat);
      [apply budget_observe| |lia].
    intros [e|]; eapply budget_weaken;
      try apply budget_raise; try apply budget_ret; lia.
Qed.

Lemma pending_count_cons (index : nat) (row : Row)
    (rest : list (nat * Row)) :
  pending_count ((index, row) :: rest)
  = if is_Done (Status row) then pending_count rest
    else S (pending_count rest).
Proof.
  unfold pending_count, is_pending. simpl.
  destruct (is_Done (Status row)); reflexivity.
Qed.

Lemma budget_GHES_main_loop :
  (forall index row, emits_at_most p c (GHES.row_body W index row)) ->
  forall rows,
    emits_at_most p (c * pending_count rows)
      (GHES.main_loop W start_time rows).
Proof.
  intros Hbody. induction rows as [|[index row] rest IH]; simpl.
  - eapply budget_weaken; [|apply budget_ret]. lia.
  - rewrite pending_count_cons.
    eapply budget_bind with (c := 0%nat); [apply budget_now| |lia].
    intros t. rewrite Nat.sub_0_r.
    destruct (Z.gtb (t - start_time) max_runtime).
    { eapply budget_bind with (c := 0%nat); [apply budget_log| |lia].
      intros _. eapply budget_weaken; [|apply budget_ret]. lia. }
    destruct (is_Done (Status row)); [exact IH|].
    eapply budget_bind with (c := 0%nat); [apply budget_log| |lia].
    intros _. rewrite Nat.sub_0_r.
    eapply budget_bind with (c := c); [| |rewrite Nat.mul_succ_r; lia].
    + eapply budget_try_except with (c := c); [apply Hbody| |lia].
      intros e. apply budget_log.
    + intros _. eapply budget_weaken; [|exact IH].
      rewrite Nat.mul_succ_r. lia.
Qed.

Lemma budget_Cloud02_main_loop :
  (forall index row, emits_at_most p c (Cloud02.row_body W index row)) ->
  forall rows,
    emits_at_most p (c * pending_count rows)
      (Cloud02.main_loop W start_time rows).
Proof.
  intros Hbody. induction rows as [|[index row] rest IH]; simpl.
  - eapply budget_weaken; [|apply budget_ret]. lia.
  - rewrite pending_count_cons.
    eapply budget_bind with (c := 0%nat); [apply budget_now| |lia].
    intros t. rewrite Nat.sub_0_r.
    destruct (Z.gtb (t - start_time) max_runtime).
    { eapply budget_bind with (c := 0%nat); [apply budget_log| |lia].
      intros _.
      eapply budget_bind with (c := 0%nat); [apply budget_to_csv| |lia].
      intros _. eapply budget_weaken; [|apply budget_ret]. lia. }
    destruct (is_Done (Status row)); [exact IH|].
    eapply budget_bind with (c := 0%nat); [apply budget_log| |lia].
    intros _. rewrite Nat.sub_0_r.
    eapply budget_bind with (c := c); [| |rewrite Nat.mul_succ_r; lia].
    + eapply budget_try_except with (c := c); [apply Hbody| |lia].
      intros e. apply budget_log.
    + intros _. eapply budget_weaken; [|exact IH].
      rewrite Nat.mul_succ_r. lia.
Qed.

End LoopBudget.

Section RowBudget.

Variable W : World.

Lemma confined_write_to_google_sheet (name : pystr)
    (data : list (list pyval)) :
  confined sheets_fp (GHES.write_to_google_sheet W name data).
Proof.
  unfold GHES.write_to_google_sheet, GHES.ensure_sheet_and_setup_columns,
    GHES.except_HttpError, GHES.credentials, GHES.execute.
  confine.
Qed.

Lemma confined_to_csv : confined csv_fp (Cloud02.to_csv W).
Proof. unfold Cloud02.to_csv. confine. Qed.

Lemma budget_write_to_google_sheet (p : event -> bool) (name : pystr)
    (data : list (list pyval)) :
  (forall op, p (ESheets op) = false) ->
  (forall l m, p (ELog l m) = false) ->
  emits_at_most p 0 (GHES.write_to_google_sheet W name data).
Proof.
  intros Hsheets Hlog s.
  destruct (confined_write_to_google_sheet name data s)
    as (_ & _ & evs & -> & Hevs).
  rewrite count_app.
  rewrite (@count_none p (may_emit sheets_fp) evs); [lia| |exact Hevs].
  intros [] He; try discriminate; auto.
Qed.

Lemma budget_GHES_row_body (p : event -> bool) (c : nat) (index : nat)
    (row : Row) :
  (forall op, p (ESheets op) = false) ->
  (forall l m, p (ELog l m) = false) ->
  (forall who, emits_at_most p c (get_user_info_from_github_api W who)) ->
  emits_at_most p c (GHES.row_body W index row).
Proof.
  intros Hsheets Hlog Hinfo.
  pose proof (@budget_write_to_google_sheet p GHES.sheet_name) as Hwrite.
  unfold GHES.row_body.
  eapply budget_bind with (c := c); [apply Hinfo| |lia].
  intros email. rewrite Nat.sub_diag.
  destruct (truthy email).
  - eapply budget_bind with (c := 0%nat); [apply budget_update_df| |lia].
    intros _.
    eapply budget_bind with (c := 0%nat); [apply budget_update_df| |lia].
    intros _.
    eapply budget_bind with (c := 0%nat); [| |lia].
    + apply budget_emit_free. apply Hlog.
    + intros _. apply Hwrite; assumption.
  - apply budget_emit_free. apply Hlog.
Qed.

Lemma budget_Cloud02_row_body (p : event -> bool) (c : nat) (index : nat)
    (row : Row) :
  (forall rows, p (EToCsv rows) = false) ->
  (forall l m, p (ELog l m) = false) ->
  (forall who, emits_at_most p c (get_user_info_from_github_api W who)) ->
  emits_at_most p c (Cloud02.row_body W index row).
Proof.
  intros Hcsv Hlog Hinfo.
  unfold Cloud02.row_body.
  eapply budget_bind with (c := c); [apply Hinfo| |lia].
  intros email. rewrite Nat.sub_diag.
  eapply budget_bind with (c := 0%nat); [| |lia].
  - destruct (truthy email).
    + eapply budget_bind with (c := 0%nat); [apply budget_update_df| |lia].
      intros _.
      eapply budget_bind with (c := 0%nat); [apply budget_update_df| |lia].
      intros _. apply budget_emit_free. apply Hlog.
    + apply budget_emit_free. apply Hlog.
  - intros _. apply budget_to_csv. exact Hcsv.
Qed.

End RowBudget.

(** X13: a pass of either driver loop makes requests for pending rows
    only, and a bounded number for each: at most three GETs and one
    cooldown per pending row, in every world.  On the wire that is at most
    279 attempts per pending row, redirects included, and at most nine
    where no server redirects. *)
Theorem run_budget (W : World) (start_time : Z) (rows : list (nat * Row))
    (s : St) :
  let n := pending_count rows in
  let g := trace (snd (GHES.main_loop W start_time rows s)) in
  let c := trace (snd (Cloud02.main_loop W start_time rows s)) in
  ((count is_get g <= count is_get (trace s) + 3 * n)%nat /\
   (cooldowns g <= cooldowns (trace s) + n)%nat /\
   (count is_attempt g <= count is_attempt (trace s) + 279 * n)%nat /\
   (direct W ->
    (count is_attempt g <= count is_attempt (trace s) + 9 * n)%nat)) /\
  ((count is_get c <= count is_get (trace s) + 3 * n)%nat /\
   (cooldowns c <= cooldowns (trace s) + n)%nat /\
   (count is_attempt c <= count is_attempt (trace s) + 279 * n)%nat /\
   (direct W ->
    (count is_attempt c <= count is_attempt (trace s) + 9 * n)%nat)).
Proof.
  cbv zeta.
  pose proof (@attempts_get_user_info W 124 31
                (attempts_retry_session_get W) (attempts_requests_get W))
    as Hany.
  split; (split; [|split; [|split]]).
  - apply budget_GHES_main_loop; try reflexivity.
    intros. apply budget_GHES_row_body; try reflexivity.
    apply gets_get_user_info.
  - rewrite <- (Nat.mul_1_l (pending_count rows)).
    apply budget_GHES_main_loop; try reflexivity.
    intros. apply budget_GHES_row_body; try reflexivity.
    apply cooldowns_get_user_info.
  - apply budget_GHES_main_loop; try reflexivity.
    intros. apply budget_GHES_row_body; try reflexivity.
    exact Hany.
  - intros Hdirect.
    apply budget_GHES_main_loop; try reflexivity.
    intros. apply budget_GHES_row_body; try reflexivity.
    exact (@attempts_get_user_info W 4 1
             (fun url auth =>
                @attempts_retry_session_get_direct W url auth Hdirect)
             (fun url auth =>
                @attempts_requests_get_direct W url auth Hdirect)).
  - apply budget_Cloud02_main_loop; try reflexivity.
    intros. apply budget_Cloud02_row_body; try reflexivity.
    apply gets_get_user_info.
  - rewrite <- (Nat.mul_1_l (pending_count rows)).
    apply budget_Cloud02_main_loop; try reflexivity.
    intros. apply budget_Cloud02_row_body; try reflexivity.
    apply cooldowns_get_user_info.
  - apply budget_Cloud02_main_loop; try reflexivity.
    intros. apply budget_Cloud02_row_body; try reflexivity.
    exact Hany.
  - intros Hdirect.
    apply budget_Cloud02_main_loop; try reflexivity.
    intros. apply budget_Cloud02_row_body; try reflexivity.
    exact (@attempts_get_user_info W 4 1
             (fun url auth =>
                @attempts_retry_session_get_direct W url auth Hdirect)
             (fun url auth =>
                @attempts_requests_get_direct W url auth Hdirect)).
Qed.

Lemma run_budget_witness :
  direct alice_world /\
  (count is_attempt
     (trace (snd (Cloud02.main_loop alice_world 0
                    (iterrows [done_row "bob"; pending_row "alice"])
                    (table_state [done_row "bob"; pending_row "alice"]))))
   <= 9)%nat.
Proof.
  assert (Hdirect : direct alice_world).
  { intros h url auth r. unfold alice_world, world_of. cbn [wire].
    repeat match goal with
           | |- context [if ?b then _ else _] => destruct b
           end; intros H; injection H as <-; reflexivity. }
  split; [exact Hdirect|].
  destruct (@run_budget alice_world 0%Z
              (iterrows [done_row "bob"; pending_row "alice"])
              (table_state [done_row "bob"; pending_row "alice"]))
    as (_ & _ & _ & _ & H).
  exact (H Hdirect).
Defined.

(** ** What a run does to the table *)

Lemma at_index_app (f : Row -> Row) (pre : list Row) (r : Row)
    (rest : list Row) :
  at_index (List.length pre) f (pre ++ r :: rest) = pre ++ f r :: rest.
Proof.
  induction pre as [|x pre IH]; simpl; [reflexivity|]. now rewrite IH.
Qed.

Lemma Forall2_resolved_refl (rows : list Row) :
  Forall2 resolved_from rows rows.
Proof.
  induction rows; constructor; auto. left. reflexivity.
Qed.

Lemma bind_update_df A (f : list Row -> list Row) (k : unit -> M A)
    (s : St) :
  bind (update_df f) k s
  = k tt {| handler := handler s; df := f (df s); trace := trace s |}.
Proof. reflexivity. Qed.

Lemma bind_log A (l : level) (m : logmsg) (k : unit -> M A) (s : St) :
  bind (log l m) k s
  = k tt {| handler := handler s; df := df s;
            trace := trace s ++ [ELog l m] |}.
Proof. reflexivity. Qed.

Lemma bind_ok A B (m : M A) (f : A -> M B) (s s1 : St) (a : A) :
  m s = (Ok a, s1) -> bind m f s = f a s1.
Proof. intros H. unfold bind. now rewrite H. Qed.

Lemma bind_raise A B (m : M A) (f : A -> M B) (s s1 : St) (e : exn) :
  m s = (Raise e, s1) -> bind m f s = (Raise e, s1).
Proof. intros H. unfold bind. now rewrite H. Qed.

Section TableInvariant.

Variable W : World.
Variable start_time : Z.

Lemma write_keeps_table (name : pystr) (data : list (list pyval)) (s : St) :
  df (snd (GHES.write_to_google_sheet W name data s)) = df s.
Proof.
  destruct (confined_write_to_google_sheet W name data s) as (_ & Hd & _).
  apply Hd. reflexivity.
Qed.

Lemma to_csv_keeps_table (s : St) :
  df (snd (Cloud02.to_csv W s)) = df s.
Proof.
  destruct (confined_to_csv W s) as (_ & Hd & _). apply Hd. reflexivity.
Qed.

(** The [try] statement of a row, with its [except] clause, leaves the
    table as it is or marks the row at [index]. *)
Lemma GHES_try_table (index : nat) (row : Row) (s : St) :
  let s' := snd (try_except (GHES.row_body W index row)
                   (fun e => log ERROR (LRowError (Profile_URL row) e)) s) in
  df s' = df s \/
  exists email,
    truthy email = true /\
    df s' = at_index index (set_Status (PStr (u "Done")))
              (at_index index (set_Email email) (df s)).
Proof.
  cbv zeta. unfold try_except, GHES.row_body.
  pose proof (fetch_keeps_table W (Profile_URL row) s) as Hfetch.
  destruct (get_user_info_from_github_api W (Profile_URL row) s)
    as [[email|e] s1] eqn:E; simpl in Hfetch.
  2:{ erewrite bind_raise by exact E. left. exact Hfetch. }
  erewrite bind_ok by exact E.
  destruct (truthy email) eqn:Ht; [|left; exact Hfetch].
  right. exists email. split; [exact Ht|].
  rewrite !bind_update_df, bind_log. cbn [df handler trace].
  match goal with
  | |- context [GHES.write_to_google_sheet W ?n ?d ?st] =>
      pose proof (write_keeps_table n d st) as Hw;
      destruct (GHES.write_to_google_sheet W n d st) as [[[]|e] s3]
  end; simpl in *; rewrite Hw, Hfetch; reflexivity.
Qed.

Lemma Cloud02_try_table (index : nat) (row : Row) (s : St) :
  let s' := snd (try_except (Cloud02.row_body W index row)
                   (fun e => log ERROR (LRowError (Profile_URL row) e)) s) in
  df s' = df s \/
  exists email,
    truthy email = true /\
    df s' = at_index index (set_Status (PStr (u "Done")))
              (at_index index (set_Email email) (df s)).
Proof.
  cbv zeta. unfold try_except, Cloud02.row_body.
  pose proof (fetch_keeps_table W (Profile_URL row) s) as Hfetch.
  destruct (get_user_info_from_github_api W (Profile_URL row) s)
    as [[email|e] s1] eqn:E; simpl in Hfetch.
  2:{ erewrite bind_raise by exact E. left. exact Hfetch. }
  erewrite bind_ok by exact E.
  destruct (truthy email) eqn:Ht.
  - right. exists email. split; [exact Ht|].
    unfold bind at 1. rewrite !bind_update_df. cbn [df handler trace].
    unfold log at 1, emit. cbv beta iota. cbn [df handler trace].
    match goal with
    | |- context [Cloud02.to_csv W ?st] =>
        pose proof (to_csv_keeps_table st) as Hw;
        destruct (Cloud02.to_csv W st) as [[[]|e] s3]
    end; simpl in *; rewrite Hw, Hfetch; reflexivity.
  - left. unfold bind at 1, log at 1, emit. cbv beta iota.
    match goal with
    | |- context [Cloud02.to_csv W ?st] =>
        pose proof (to_csv_keeps_table st) as Hw;
        destruct (Cloud02.to_csv W st) as [[[]|e] s3]
    end; simpl in *; rewrite Hw, Hfetch; reflexivity.
Qed.

(** The rows before the current one may have been resolved; the current
    one and those after it are still as they were. *)
Lemma GHES_table_invariant :
  forall (suffix pre pre' : list Row) (s : St),
    df s = pre' ++ suffix ->
    Forall2 resolved_from pre pre' ->
    Forall2 resolved_from (pre ++ suffix)
      (df (snd (GHES.main_loop W start_time
                  (combine (seq (List.length pre) (List.length suffix))
                     suffix) s))).
Proof.
  induction suffix as [|row rest IH]; intros pre pre' s Hdf Hpre; simpl.
  - rewrite Hdf. apply Forall2_app; [exact Hpre|constructor].
  - assert (Hsame : forall st : St,
              df st = df s -> Forall2 resolved_from (pre ++ row :: rest)
                                (df st)).
    { intros st ->. rewrite Hdf.
      apply Forall2_app; [exact Hpre|apply Forall2_resolved_refl]. }
    assert (Hlen : List.length pre' = List.length pre)
      by (symmetry; eapply Forall2_length; exact Hpre).
    assert (Hnext : forall (st : St) (row' : Row),
              df st = pre' ++ row' :: rest -> resolved_from row row' ->
              Forall2 resolved_from (pre ++ row :: rest)
                (df (snd (GHES.main_loop W start_time
                            (combine (seq (S (List.length pre))
                                        (List.length rest)) rest) st)))).
    { intros st row' Hst Hrow.
      replace (pre ++ row :: rest) with ((pre ++ [row]) ++ rest)
        by (rewrite <- app_assoc; reflexivity).
      replace (S (List.length pre)) with (List.length (pre ++ [row]))
        by (rewrite length_app; simpl; lia).
      apply IH with (pre' := pre' ++ [row']).
      - rewrite Hst, <- app_assoc. reflexivity.
      - apply Forall2_app; [exact Hpre|]. constructor; [exact Hrow|constructor]. }
    unfold now, bind at 1 2, emit, observe. simpl.
    destruct (Z.gtb _ max_runtime).
    { apply Hsame. reflexivity. }
    destruct (is_Done (Status row)) eqn:Hdone.
    { apply Hnext with (row' := row); [exact Hdf|left; reflexivity]. }
    unfold bind at 1, log at 1, emit. simpl. unfold bind at 1.
    match goal with
    | |- context [try_except ?m ?h ?st] =>
        pose proof (GHES_try_table (List.length pre) row st) as Htry;
        cbv zeta in Htry;
        destruct (try_except m h st) as [[[]|e] s2]
    end; simpl in Htry.
    + destruct Htry as [Hd | (email & Ht & Hd)].
      * apply Hnext with (row' := row); [|left; reflexivity].
        rewrite Hd. exact Hdf.
      * apply Hnext with
          (row' := set_Status (PStr (u "Done")) (set_Email email row)).
        { rewrite Hd. simpl. rewrite Hdf, <- Hlen, !at_index_app.
          reflexivity. }
        right. split; [exact Hdone|]. exists email. auto.
    + simpl. destruct Htry as [Hd | (email & Ht & Hd)].
      * apply Hsame. exact Hd.
      * rewrite Hd. simpl. rewrite Hdf, <- Hlen, !at_index_app.
        apply Forall2_app; [exact Hpre|].
        constructor; [|apply Forall2_resolved_refl].
        right. split; [exact Hdone|]. exists email. auto.
Qed.

Lemma Cloud02_table_invariant :
  forall (suffix pre pre' : list Row) (s : St),
    df s = pre' ++ suffix ->
    Forall2 resolved_from pre pre' ->
    Forall2 resolved_from (pre ++ suffix)
      (df (snd (Cloud02.main_loop W start_time
                  (combine (seq (List.length pre) (List.length suffix))
                     suffix) s))).
Proof.
  induction suffix as [|row rest IH]; intros pre pre' s Hdf Hpre; simpl.
  - rewrite Hdf. apply Forall2_app; [exact Hpre|constructor].
  - assert (Hsame : forall st : St,
              df st = df s -> Forall2 resolved_from (pre ++ row :: rest)
                                (df st)).
    { intros st ->. rewrite Hdf.
      apply Forall2_app; [exact Hpre|apply Forall2_resolved_refl]. }
    assert (Hlen : List.length pre' = List.length pre)
      by (symmetry; eapply Forall2_length; exact Hpre).
    assert (Hnext : forall (st : St) (row' : Row),
              df st = pre' ++ row' :: rest -> resolved_from row row' ->
              Forall2 resolved_from (pre ++ row :: rest)
                (df (snd (Cloud02.main_loop W start_time
                            (combine (seq (S (List.length pre))
                                        (List.length rest)) rest) st)))).
    { intros st row' Hst Hrow.
      replace (pre ++ row :: rest) with ((pre ++ [row]) ++ rest)
        by (rewrite <- app_assoc; reflexivity).
      replace (S (List.length pre)) with (List.length (pre ++ [row]))
        by (rewrite length_app; simpl; lia).
      apply IH with (pre' := pre' ++ [row']).
      - rewrite Hst, <- app_assoc. reflexivity.
      - apply Forall2_app; [exact Hpre|]. constructor; [exact Hrow|constructor]. }
    unfold now, bind at 1 2, emit, observe. simpl.
    destruct (Z.gtb _ max_runtime).
    { rewrite bind_log.
      match goal with
      | |- context [bind (Cloud02.to_csv W) ?k ?st] =>
          pose proof (to_csv_keeps_table st) as Hcsv; unfold bind;
          destruct (Cloud02.to_csv W st) as [[[]|e] s3]
      end; apply Hsame; exact Hcsv. }
    destruct (is_Done (Status row)) eqn:Hdone.
    { apply Hnext with (row' := row); [exact Hdf|left; reflexivity]. }
    unfold bind at 1, log at 1, emit. simpl. unfold bind at 1.
    match goal with
    | |- context [try_except ?m ?h ?st] =>
        pose proof (Cloud02_try_table (List.length pre) row st) as Htry;
        cbv zeta in Htry;
        destruct (try_except m h st) as [[[]|e] s2]
    end; simpl in Htry.
    + destruct Htry as [Hd | (email & Ht & Hd)].
      * apply Hnext with (row' := row); [|left; reflexivity].
        rewrite Hd. exact Hdf.
      * apply Hnext with
          (row' := set_Status (PStr (u "Done")) (set_Email email row)).
        { rewrite Hd. simpl. rewrite Hdf, <- Hlen, !at_index_app.
          reflexivity. }
        right. split; [exact Hdone|]. exists email. auto.
    + simpl. destruct Htry as [Hd | (email & Ht & Hd)].
      * apply Hsame. exact Hd.
      * rewrite Hd. simpl. rewrite Hdf, <- Hlen, !at_index_app.
        apply Forall2_app; [exact Hpre|].
        constructor; [|apply Forall2_resolved_refl].
        right. split; [exact Hdone|]. exists email. auto.
Qed.

End TableInvariant.

(** X14: a pass of either driver loop changes the table in one way only.
    The rows stay where they are and as many; a row is left exactly as it
    was, or, if it was not marked done, it gets a truthy Email and Status
    ['Done'].  So rows already done are never touched, Username, User ID
    and Profile URL are never assigned, and no row is marked done without
    an email. *)
Theorem table_only_resolves (W : World) (start_time : Z) (s : St) :
  Forall2 resolved_from (df s)
    (df (snd (GHES.main_loop W start_time (iterrows (df s)) s))) /\
  Forall2 resolved_from (df s)
    (df (snd (Cloud02.main_loop W start_time (iterrows (df s)) s))).
Proof.
  split.
  - exact (@GHES_table_invariant W start_time (df s) [] [] s eq_refl
             (Forall2_nil _)).
  - exact (@Cloud02_table_invariant W start_time (df s) [] [] s eq_refl
             (Forall2_nil _)).
Qed.

(** ** Writing to the sheet *)

(** X15: with the Sheets service in good health, [write_to_google_sheet]
    succeeds and makes these calls in this order: the credentials are
    loaded twice, the sheet titles are fetched, the sheet is added only if
    its title is missing, the header row is written (on every call), the
    populated rows of column A are counted, and the data go to the row
    after the last populated one. *)
Theorem write_appends_after_last_row (W : World) (titles : list pystr)
    (populated : nat) (name : pystr) (data : list (list pyval)) (s : St) :
  healthy_sheets W titles populated ->
  let r := GHES.write_to_google_sheet W name data s in
  fst r = Ok tt /\
  filter is_sheets (trace (snd r))
  = filter is_sheets (trace s)
    ++ map ESheets
         ([OpCredentials; OpCredentials; OpGetSpreadsheet]
          ++ (if existsb (pystr_eqb name) titles then []
              else [OpAddSheet name])
          ++ [OpSetHeader name GHES.column_headers; OpGetColumnA name;
              OpWriteRow name (populated + 1) data]).
Proof.
  intros (Hcred & Htitles & Hcol & Hupd). cbv zeta.
  unfold GHES.write_to_google_sheet, GHES.ensure_sheet_and_setup_columns,
    GHES.except_HttpError, GHES.credentials, GHES.execute, try_except, bind,
    log, emit, observe, ret, raise.
  simpl. rewrite !Hcred. simpl. rewrite Htitles. simpl.
  destruct (existsb (pystr_eqb name) titles); simpl;
    rewrite ?Hupd; simpl; rewrite ?Hupd; simpl; rewrite Hcol; simpl;
    rewrite Hupd; simpl; (split; [reflexivity|]);
    rewrite !filter_app; simpl; rewrite <- !app_assoc; reflexivity.
Qed.

Lemma write_appends_after_last_row_witness :
  filter is_sheets
    (trace (snd (GHES.write_to_google_sheet alice_world (u "Sheet2")
                   [[PStr (u "alice")]] (fresh [u "k1"]))))
  = map ESheets
      [OpCredentials; OpCredentials; OpGetSpreadsheet;
       OpSetHeader (u "Sheet2") GHES.column_headers;
       OpGetColumnA (u "Sheet2");
       OpWriteRow (u "Sheet2") 2 [[PStr (u "alice")]]].
Proof.
  assert (H : healthy_sheets alice_world [u "Sheet2"] 1)
    by (repeat split).
  exact (proj2 (@write_appends_after_last_row alice_world [u "Sheet2"]
                  1%nat (u "Sheet2") [[PStr (u "alice")]]
                  (fresh [u "k1"]) H)).
Defined.

Section SheetErrors.

Variable W : World.

Lemma error_logs_info (s s' : St) :
  within info_fp s s' ->
  count is_error_log (trace s') = count is_error_log (trace s).
Proof.
  intros (_ & _ & evs & -> & Hevs). rewrite count_app.
  rewrite (@count_none is_error_log (may_emit info_fp) evs);
    [lia| |exact Hevs].
  intros e He. simpl in He. now destruct (is_error_log e).
Qed.

Lemma logs_once_bind A B (m : M A) (f : A -> M B) :
  logs_HttpError_once m -> (forall a, logs_HttpError_once (f a)) ->
  logs_HttpError_once (bind m f).
Proof.
  intros Hm Hf s. unfold bind. specialize (Hm s).
  destruct (m s) as [[a|e] s1]; simpl in *; [|exact Hm].
  rewrite (Hf a s1), Hm. lia.
Qed.

(** A [try] block that writes no error log, under
    [except HttpError as e: log; raise]. *)
Lemma logs_once_except A (body : M A) (msg : exn -> logmsg) :
  confined info_fp body ->
  logs_HttpError_once
    (GHES.except_HttpError body (fun e => log ERROR (msg e) ;; raise e)).
Proof.
  intros Hbody s.
  pose proof (error_logs_info (Hbody s)) as Hcount.
  unfold GHES.except_HttpError, try_except.
  destruct (body s) as [[a|e] s1]; simpl in *; [lia|].
  destruct e; simpl; try lia.
  rewrite count_app, Hcount. reflexivity.
Qed.

Lemma logs_once_credentials :
  (forall h, sheets_credentials W h <> Some HttpError) ->
  logs_HttpError_once (GHES.credentials W).
Proof.
  intros Hcred s.
  unfold GHES.credentials, bind, emit, observe. simpl.
  specialize (Hcred (trace s ++ [ESheets OpCredentials])).
  destruct (sheets_credentials W _) as [e|]; simpl;
    rewrite count_app; unfold count at 2; simpl; [|lia].
  destruct e; simpl; try lia. congruence.
Qed.

Lemma logs_once_ensure (name : pystr) :
  (forall h, sheets_credentials W h <> Some HttpError) ->
  logs_HttpError_once (GHES.ensure_sheet_and_setup_columns W name).
Proof.
  intros Hcred. unfold GHES.ensure_sheet_and_setup_columns.
  apply logs_once_bind; [apply logs_once_credentials; exact Hcred|].
  intros _. apply logs_once_except.
  unfold GHES.execute. confine.
Qed.

Lemma logs_once_write (name : pystr) (data : list (list pyval)) :
  (forall h, sheets_credentials W h <> Some HttpError) ->
  logs_HttpError_once (GHES.write_to_google_sheet W name data).
Proof.
  intros Hcred. unfold GHES.write_to_google_sheet.
  apply logs_once_bind; [apply logs_once_credentials; exact Hcred|].
  intros _.
  apply logs_once_bind; [apply logs_once_ensure; exact Hcred|].
  intros _. apply logs_once_except.
  unfold GHES.execute. confine.
Qed.

End SheetErrors.

(** X16: the two sheet functions log an [HttpError] of the Sheets API
    exactly once, in the function whose [try] block it arose in, before
    they raise it again; they write no error log when they succeed or when
    they raise anything else.  (Loading the credentials reads a local file
    and is assumed not to raise [HttpError].) *)
Theorem sheet_errors_logged_once (W : World) (name : pystr)
    (data : list (list pyval)) (s : St) :
  (forall h, sheets_credentials W h <> Some HttpError) ->
  let e := GHES.ensure_sheet_and_setup_columns W name s in
  let w := GHES.write_to_google_sheet W name data s in
  count is_error_log (trace (snd e))
  = (count is_error_log (trace s)
     + match fst e with Raise HttpError => 1 | _ => 0 end)%nat /\
  count is_error_log (trace (snd w))
  = (count is_error_log (trace s)
     + match fst w with Raise HttpError => 1 | _ => 0 end)%nat.
Proof.
  intros Hcred. cbv zeta. split.
  - apply logs_once_ensure. exact Hcred.
  - apply logs_once_write. exact Hcred.
Qed.

Lemma sheet_errors_logged_once_witness :
  let w := GHES.write_to_google_sheet failing_sink_world (u "Sheet2")
             [[PStr (u "alice")]] (fresh [u "k1"]) in
  fst w = Raise HttpError /\ count is_error_log (trace (snd w)) = 1%nat.
Proof.
  cbv zeta. split; [reflexivity|].
  assert (Hcred : forall h,
             sheets_credentials failing_sink_world h <> Some HttpError)
    by (intros h; discriminate).
  exact (proj2 (@sheet_errors_logged_once failing_sink_world (u "Sheet2")
                  [[PStr (u "alice")]] (fresh [u "k1"]) Hcred)).
Defined.

(** ** The whole run *)

Section MainBudget.

Variable W : World.
Variable p : event -> bool.
Variable c : nat.

Hypothesis clock_free : p EClock = false.
Hypothesis log_free : forall l m, p (ELog l m) = false.
Hypothesis csv_free : forall rows, p (EToCsv rows) = false.
Hypothesis sheets_free : forall op, p (ESheets op) = false.
Hypothesis input_free : p EReadInput = false.
Hypothesis info_cost :
  forall who, emits_at_most p c (get_user_info_from_github_api W who).

Variable t : Table.
Hypothesis input : forall h, read_input W h = inr t.

Lemma count_snoc_free (h : history) (e : event) :
  p e = false -> count p (h ++ [e]) = count p h.
Proof.
  intros He. rewrite count_app. unfold count at 2. simpl. rewrite He.
  simpl. lia.
Qed.

Lemma budget_GHES_main :
  emits_at_most p (c * pending_count (iterrows (add_missing_columns t)))
    (GHES.main W).
Proof.
  intros s. unfold GHES.main, try_except.
  set (loop := GHES.main_loop W).
  unfold bind at 1. unfold log at 1, emit at 1.
  unfold bind at 1. unfold now at 1, bind at 1, emit at 1, observe at 1.
  cbv beta iota.
  unfold bind at 1.
  destruct (getenv W (u "MY_GITHUB_API_KEYS2")) as [keys|].
  2:{ unfold raise, log, emit. cbn [snd trace].
      rewrite !count_snoc_free by auto. lia. }
  unfold ret at 1. cbv beta iota.
  unfold bind at 1, update_handler at 1. cbv beta iota.
  unfold bind at 1, log at 1, emit at 1. cbv beta iota.
  unfold bind at 1, GHES.read_google_sheet, bind at 1, emit at 1.
  cbv beta iota. unfold bind at 1, observe at 1. cbv beta iota.
  cbn [trace handler df]. rewrite input. unfold ret at 1.
  cbv beta iota.
  destruct (body t) as [|r rest] eqn:Hbody.
  { unfold log, emit. cbn [snd trace].
    rewrite !count_snoc_free by auto. lia. }
  unfold bind at 1, update_df at 1. cbv beta iota.
  unfold bind at 1, the_df at 1. cbv beta iota. cbn [trace handler df].
  unfold bind at 1.
  match goal with
  | |- context [loop ?st ?rows ?s2] =>
      pose proof (@budget_GHES_main_loop W st p c clock_free log_free
                    (fun index row =>
                       @budget_GHES_row_body W p c index row sheets_free
                         log_free info_cost) rows s2) as Hloop;
      fold loop in Hloop;
      destruct (loop st rows s2) as [[how|e] s3]
  end; cbn [snd trace] in Hloop |- *;
    rewrite !count_snoc_free in Hloop by auto.
  - unfold ret. cbn [snd]. exact Hloop.
  - unfold log, emit. cbn [snd trace].
    rewrite count_snoc_free by auto. exact Hloop.
Qed.

Lemma budget_Cloud02_main :
  emits_at_most p (c * pending_count (iterrows (add_missing_columns t)))
    (Cloud02.main W).
Proof.
  intros s. unfold Cloud02.main, try_except.
  set (loop := Cloud02.main_loop W).
  unfold bind at 1. unfold now at 1, bind at 1, emit at 1, observe at 1.
  cbv beta iota.
  unfold bind at 1.
  destruct (getenv W (u "MY_GITHUB_API_KEYS")) as [keys|].
  2:{ unfold raise, log, emit. cbn [snd trace].
      rewrite !count_snoc_free by auto. lia. }
  unfold ret at 1. cbv beta iota.
  unfold bind at 1, update_handler at 1. cbv beta iota.
  unfold bind at 1, log at 1, emit at 1. cbv beta iota.
  unfold bind at 1, Cloud02.read_csv, bind at 1, emit at 1.
  cbv beta iota. unfold bind at 1, observe at 1. cbv beta iota.
  cbn [trace handler df]. rewrite input. unfold ret at 1.
  cbv beta iota.
  unfold bind at 1, update_df at 1. cbv beta iota.
  unfold bind at 1, the_df at 1. cbv beta iota. cbn [trace handler df].
  unfold bind at 1.
  match goal with
  | |- context [loop ?st ?rows ?s2] =>
      pose proof (@budget_Cloud02_main_loop W st p c clock_free log_free
                    csv_free
                    (fun index row =>
                       @budget_Cloud02_row_body W p c index row csv_free
                         log_free info_cost) rows s2) as Hloop;
      fold loop in Hloop;
      destruct (loop st rows s2) as [[how|e] s3]
  end; cbn [snd trace] in Hloop |- *;
    rewrite !count_snoc_free in Hloop by auto.
  - destruct how.
    + unfold bind, log, emit. cbv beta iota.
      pose proof (@budget_to_csv W p csv_free 0%nat) as Hcsv.
      match goal with
      | |- context [Cloud02.to_csv W ?s4] =>
          specialize (Hcsv s4);
          destruct (Cloud02.to_csv W s4) as [[[]|e] s5]
      end; cbn [snd trace] in Hcsv |- *;
        rewrite count_snoc_free in Hcsv by auto;
        rewrite ?count_snoc_free by auto; lia.
    + unfold ret. cbn [snd]. exact Hloop.
  - unfold log, emit. cbn [snd trace].
    rewrite count_snoc_free by auto. exact Hloop.
Qed.

End MainBudget.

(** X17: a whole run of either script, on an input table [t], makes at
    most three GETs for each row of [t] that is not marked [Done] once the
    missing columns are filled in; reading the input, writing the output
    and logging make none, so that a run with no pending row sends nothing
    to GitHub.  On the wire that is at most 279 attempts per pending row,
    redirects included, and at most nine where no server redirects. *)
Theorem whole_run_budget (W : World) (t : Table) (s : St) :
  (forall h, read_input W h = inr t) ->
  let n := pending_count (iterrows (add_missing_columns t)) in
  let g := trace (snd (GHES.main W s)) in
  let c := trace (snd (Cloud02.main W s)) in
  ((count is_get g <= count is_get (trace s) + 3 * n)%nat /\
   (count is_attempt g <= count is_attempt (trace s) + 279 * n)%nat /\
   (direct W ->
    (count is_attempt g <= count is_attempt (trace s) + 9 * n)%nat)) /\
  ((count is_get c <= count is_get (trace s) + 3 * n)%nat /\
   (count is_attempt c <= count is_attempt (trace s) + 279 * n)%nat /\
   (direct W ->
    (count is_attempt c <= count is_attempt (trace s) + 9 * n)%nat)).
Proof.
  intros Hinput. cbv zeta.
  pose proof (@attempts_get_user_info W 124 31
                (attempts_retry_session_get W) (attempts_requests_get W))
    as Hany.
  split; (split; [|split]).
  - apply budget_GHES_main; try reflexivity; try exact Hinput.
    apply gets_get_user_info.
  - apply budget_GHES_main; try reflexivity; try exact Hinput.
    exact Hany.
  - intros Hdirect.
    apply budget_GHES_main; try reflexivity; try exact Hinput.
    exact (@attempts_get_user_info W 4 1
             (fun url auth =>
                @attempts_retry_session_get_direct W url auth Hdirect)
             (fun url auth =>
                @attempts_requests_get_direct W url auth Hdirect)).
  - apply budget_Cloud02_main; try reflexivity; try exact Hinput.
    apply gets_get_user_info.
  - apply budget_Cloud02_main; try reflexivity; try exact Hinput.
    exact Hany.
  - intros Hdirect.
    apply budget_Cloud02_main; try reflexivity; try exact Hinput.
    exact (@attempts_get_user_info W 4 1
             (fun url auth =>
                @attempts_retry_session_get_direct W url auth Hdirect)
             (fun url auth =>
                @attempts_requests_get_direct W url auth Hdirect)).
Qed.

Lemma whole_run_budget_witness :
  let W := with_input (u "k1")
             (mkTable false false [done_row "bob"; pending_row "alice"])
             alice_world in
  (count is_get (trace (snd (GHES.main W (fresh [])))) <= 6)%nat /\
  (count is_attempt (trace (snd (GHES.main W (fresh [])))) <= 18)%nat.
Proof.
  cbv zeta.
  assert (Hdirect :
    direct (with_input (u "k1")
              (mkTable false false [done_row "bob"; pending_row "alice"])
              alice_world)).
  { intros h url auth r. unfold with_input, alice_world, world_of.
    cbn [wire].
    repeat match goal with
           | |- context [if ?b then _ else _] => destruct b
           end; intros H; injection H as <-; reflexivity. }
  destruct (@whole_run_budget
              (with_input (u "k1")
                 (mkTable false false [done_row "bob"; pending_row "alice"])
                 alice_world)
              (mkTable false false [done_row "bob"; pending_row "alice"])
              (fresh []) (fun h => eq_refl)) as ((Hg & _ & Hd) & _).
  split; [exact Hg|exact (Hd Hdirect)].
Defined.

(** X18: when the environment variable with the API keys is not set, a
    run ends before it reads its input: [GHES.py] raises [ValueError] and
    [cloud02.py] [KeyError] after the start time is taken, [main] catches
    and logs it, and the handler and the table are left as they were. *)
Theorem missing_keys_end_the_run (W : World) (s : St) :
  (getenv W (u "MY_GITHUB_API_KEYS2") = None ->
   GHES.main W s
   = (Ok tt,
      {| handler := handler s; df := df s;
         trace := trace s ++ [ELog INFO LStarting; EClock;
                              ELog ERROR (LMainError ValueError)] |})) /\
  (getenv W (u "MY_GITHUB_API_KEYS") = None ->
   Cloud02.main W s
   = (Ok tt,
      {| handler := handler s; df := df s;
         trace := trace s ++ [EClock;
                              ELog ERROR (LMainError KeyError)] |})).
Proof.
  split; intros Henv.
  - unfold GHES.main, try_except, bind, log, now, emit, observe, raise.
    simpl. rewrite Henv. simpl. rewrite <- !app_assoc. reflexivity.
  - unfold Cloud02.main, try_except, bind, log, now, emit, observe, raise.
    simpl. rewrite Henv. simpl. rewrite <- !app_assoc. reflexivity.
Qed.

Lemma missing_keys_end_the_run_witness :
  trace (snd (GHES.main alice_world (fresh [])))
  = [ELog INFO LStarting; EClock; ELog ERROR (LMainError ValueError)] /\
  trace (snd (Cloud02.main alice_world (fresh [])))
  = [EClock; ELog ERROR (LMainError KeyError)].
Proof.
  destruct (@missing_keys_end_the_run alice_world (fresh [])) as [Hg Hc].
  rewrite (Hg eq_refl), (Hc eq_refl). split; reflexivity.
Defined.
